(** * sigtypst2022: correspondence-pattern baseline

    A shallow embedding of [src/sigtypst2022.py]: the gap-merge transform
    [ungap], the split builder [split_training_test_data], the
    [Baseline] class ([__init__], [fit], [predict]), the cognate file
    format ([load_cognate_file], [write_cognate_file]) and
    [predict_words].

    Conventions.
    - A Python [str] is a [string] of UTF-8 bytes; byte-wise lexicographic
      order on UTF-8 coincides with Python's code-point order on [str].
    - A Python [dict] is an association list in insertion order
      (module [PyDict]); assigning to an existing key keeps its position.
    - A Python exception ([IndexError], [KeyError]) is [None].
    - A Python [float] is an IEEE 754 binary64 number ([spec_float] with
      precision 53 and maximal exponent 1024); products and sums are
      rounded to nearest, ties to even.
    - The alignment function ([simple_align], a wrapper around lingrex's
      [transform_alignment]) and the classifier ([CorPaRClassifier]) are
      external: they are parameters of the development; so are the rows
      lingpy's [csv2list] reads from a file and [str.split]. A call of
      theirs is modelled by what it returns, so [None] stands for an
      exception raised by the code of this file only; an exception raised
      inside them is outside the model. *)

From Stdlib Require Import List String Ascii Bool Arith Lia ZArith.
From Stdlib Require Import QArith Qround Permutation Sorted.
From Stdlib Require Import DecimalString DecimalNat SpecFloat.
Import ListNotations.

Local Open Scope list_scope.
Local Open Scope nat_scope.

(** [len] of a Python list; [String.length] is the one of a [str]. *)
Abbreviation length := List.length.

(** ** Python built-ins used by the source *)

(** [enumerate(l)] *)
Definition enumerate {A : Type} (l : list A) : list (nat * A) :=
  combine (seq 0 (length l)) l.

(** [j in l] for a list of indices. *)
Definition mem_nat (j : nat) (l : list nat) : bool := existsb (Nat.eqb j) l.

(** [s in l] for a list of strings. *)
Definition mem_str (s : string) (l : list string) : bool :=
  existsb (String.eqb s) l.

(** [sep.join(l)] *)
Definition join (sep : string) (l : list string) : string := String.concat sep l.

(** Truth value of a [str]: non-empty. *)
Definition truthy (s : string) : bool := negb (String.eqb s "").

(** A small error monad for code that may raise. *)
Definition bind {A B : Type} (m : option A) (f : A -> option B) : option B :=
  match m with
  | Some a => f a
  | None => None
  end.

Notation "x <- m ;; k" := (bind m (fun x => k))
  (at level 61, m at next level, right associativity).

Fixpoint mapM {A B : Type} (f : A -> option B) (l : list A) : option (list B) :=
  match l with
  | [] => Some []
  | a :: r => b <- f a ;; bs <- mapM f r ;; Some (b :: bs)
  end.

(** ** The gap-merge transform: [ungap] (lines 246-289) *)

(** [pidxs]: the row indices of the reference language. *)
Definition pidxs_of (languages : list string) (proto : string) : list nat :=
  map fst (filter (fun it => String.eqb (snd it) proto) (enumerate languages)).

(** [col = [row[i] for row in alignment]]; a short row raises. *)
Definition column (alignment : list (list string)) (i : nat)
  : option (list string) :=
  mapM (fun row => nth_error row i) alignment.

(** [col_rest = [site for j, site in enumerate(col) if j not in pidxs]] *)
Definition col_rest {A : Type} (pidxs : list nat) (col : list A) : list A :=
  map snd (filter (fun it => negb (mem_nat (fst it) pidxs)) (enumerate col)).

(** ["-" in col_rest and len(set(col_rest)) == 1] *)
Definition is_merge (rest : list string) : bool :=
  mem_str "-" rest && (length (nodup string_dec rest) =? 1).

(** The loop of lines 253-257 over the column indices [idxs]. *)
Fixpoint find_merges (alignment : list (list string)) (pidxs idxs : list nat)
  : option (list nat) :=
  match idxs with
  | [] => Some []
  | i :: rest =>
      col <- column alignment i ;;
      ms <- find_merges alignment pidxs rest ;;
      Some (if is_merge (col_rest pidxs col) then i :: ms else ms)
  end.

(** The local variables of the inner loop of lines 261-283. *)
Record walk : Type := mkWalk {
  new_alm : list string;
  mergeit : bool;
  started : bool
}.

(** [l[-1] = f(l[-1])]; raises on the empty list. *)
Fixpoint update_last (f : string -> string) (l : list string)
  : option (list string) :=
  match l with
  | [] => None
  | [x] => Some [f x]
  | x :: r => r' <- update_last f r ;; Some (x :: r')
  end.

(** Lines 271-274: what is appended to the last cell. *)
Definition fuse (cell last : string) : string :=
  if truthy last then (last ++ "." ++ cell)%string else (last ++ cell)%string.

(** One iteration of the loop at line 264. *)
Definition row_step (merges : list nat) (j : nat) (cell : string) (w : walk)
  : option walk :=
  if mem_nat j merges || mergeit w then
    if negb (started w) then
      if String.eqb cell "-" then Some (mkWalk (new_alm w) false (started w))
      else
        l <- update_last (fuse cell) (new_alm w) ;;
        Some (mkWalk l false (started w))
    else
      Some (mkWalk (new_alm w ++ [if String.eqb cell "-" then ""%string else cell])
                   true (started w))
  else Some (mkWalk (new_alm w ++ [cell]) (mergeit w) false).

Fixpoint row_loop (merges : list nat) (j : nat) (row : list string) (w : walk)
  : option walk :=
  match row with
  | [] => Some w
  | cell :: rest => w' <- row_step merges j cell w ;; row_loop merges (S j) rest w'
  end.

(** Lines 284-286: an empty cell is rewritten to the gap. *)
Definition regap (cell : string) : string :=
  if truthy cell then cell else "-"%string.

(** The body of the loop at line 260 for one row. *)
Definition ungap_row (merges : list nat) (row : list string)
  : option (list string) :=
  w <- row_loop merges 0 row (mkWalk [] false true) ;;
  Some (map regap (new_alm w)).

Definition ungap (alignment : list (list string)) (languages : list string)
  (proto : string) : option (list (list string)) :=
  match alignment with
  | [] => None
  | row0 :: _ =>
      merges <- find_merges alignment (pidxs_of languages proto)
                  (seq 0 (length row0)) ;;
      match merges with
      | [] => Some alignment
      | _ :: _ => mapM (ungap_row merges) alignment
      end
  end.

(** Applying the transform to its own output, with the same languages. *)
Definition ungap_twice (alignment : list (list string))
  (languages : list string) (proto : string) : option (list (list string)) :=
  once <- ungap alignment languages proto ;; ungap once languages proto.

(** ** Python dictionaries *)

(** Keys are compared with [==]; every key type of the source is hashable
    with a decidable equality. *)
Class EqDec (K : Type) : Type := eq_dec : forall x y : K, {x = y} + {x <> y}.

#[export] Instance string_EqDec : EqDec string := string_dec.
#[export] Instance tuple_EqDec : EqDec (list string) := list_eq_dec string_dec.
#[export] Instance int_EqDec : EqDec Z := Z.eq_dec.

Module PyDict.
Section Dict.
Context {K V : Type} `{EqDec K}.

(** [d[k]], [None] for [KeyError]. *)
Fixpoint get (d : list (K * V)) (k : K) : option V :=
  match d with
  | [] => None
  | (k', v) :: r => if eq_dec k k' then Some v else get r k
  end.

(** [d[k] = v]: an existing key keeps its place, a new one goes last. *)
Fixpoint set (d : list (K * V)) (k : K) (v : V) : list (K * V) :=
  match d with
  | [] => [(k, v)]
  | (k', v') :: r =>
      if eq_dec k k' then (k', v) :: r else (k', v') :: set r k v
  end.

(** [d.get(k, dflt)] *)
Definition get_default (d : list (K * V)) (k : K) (dflt : V) : V :=
  match get d k with
  | Some v => v
  | None => dflt
  end.

(** [dict(pairs)] and dict comprehensions: later pairs win. *)
Definition of_list (pairs : list (K * V)) : list (K * V) :=
  fold_left (fun d kv => set d (fst kv) (snd kv)) pairs [].

(** [d[k] = f(d[k])] on a [defaultdict] whose factory returns [dflt]. *)
Definition update (d : list (K * V)) (k : K) (dflt : V) (f : V -> V)
  : list (K * V) :=
  set d k (f (get_default d k dflt)).

Definition keys (d : list (K * V)) : list K := map fst d.
Definition values (d : list (K * V)) : list V := map snd d.
End Dict.
End PyDict.

(** [dict[K, V]] *)
Definition dict (K V : Type) : Type := list (K * V).

Fixpoint foldM {A S : Type} (f : S -> A -> option S) (l : list A) (s : S)
  : option S :=
  match l with
  | [] => Some s
  | a :: r => s' <- f s a ;; foldM f r s'
  end.

(** ** The split builder: [split_training_test_data] (lines 180-210) *)

(** One cognate set: language name to token sequence. *)
Definition Item : Type := dict string (list string).

(** [str(n)] for a non-negative [int]. *)
Definition str (n : nat) : string := NilZero.string_of_uint (Nat.to_uint n).

(** A Python [float]. *)
Definition float : Type := spec_float.

(** [x * y] and [x + y] on floats. *)
Definition fmul (x y : float) : float := SFmul 53 1024 x y.
Definition fadd (x y : float) : float := SFadd 53 1024 x y.

(** The conversion of an [int] operand to [float]: the nearest float;
    [OverflowError] beyond the largest one. *)
Definition float_of_int (n : Z) : option float :=
  match binary_normalize 53 1024 n 0 false with
  | S754_infinity _ => None
  | x => Some x
  end.

(** [int(x)] on a float: truncation towards zero; raises on an infinity and
    on NaN. *)
Definition int_of_float (x : float) : option Z :=
  match x with
  | S754_zero _ => Some 0%Z
  | S754_finite s m e =>
      Some (cond_Zopp s (if (0 <=? e)%Z then Z.shiftl (Z.pos m) e
                         else Z.shiftr (Z.pos m) (- e)))
  | _ => None
  end.

(** The literal [0.5]. *)
Definition half : float := S754_finite false 4503599627370496 (-53).

(** The default [ratio=0.1] of line 180: the float nearest to one tenth,
    [0x1.999999999999ap-4]. *)
Definition default_ratio : float := S754_finite false 7205759403792794 (-56).

(** Line 184: [int(len(data) * ratio + 0.5)], in float arithmetic. *)
Definition split_off (n : nat) (ratio : float) : option Z :=
  x <- float_of_int (Z.of_nat n) ;;
  int_of_float (fadd (fmul x ratio) half).

(** The index a slice bound [k] denotes in [l]. *)
Definition slice_index {A : Type} (l : list A) (k : Z) : nat :=
  if (k <? 0)%Z then Z.to_nat (Z.of_nat (length l) + k) else Z.to_nat k.

(** [l[:k]] and [l[k:]] *)
Definition slice_to {A : Type} (l : list A) (k : Z) : list A :=
  firstn (slice_index l k) l.
Definition slice_from {A : Type} (l : list A) (k : Z) : list A :=
  skipn (slice_index l k) l.

(** [" ".join(b) not in ["", "?"]] *)
Definition is_real (b : list string) : bool :=
  negb (mem_str (join " " b) [""%string; "?"%string]).

(** The sort key of lines 187-188: the number of real entries of an item. *)
Definition attestation (x : string * Item) : nat :=
  list_sum (map (fun ab => if is_real (snd ab) then 1 else 0) (snd x)).

(** [sorted(l, key=key, reverse=True)]: Python's sort is stable, also when
    reversed, so an element goes before the first one whose key is not
    greater. *)
Fixpoint insert_reverse {A : Type} (key : A -> nat) (x : A) (l : list A)
  : list A :=
  match l with
  | [] => [x]
  | y :: r => if key x <? key y then y :: insert_reverse key x r else x :: y :: r
  end.

Definition sorted_reverse {A : Type} (key : A -> nat) (l : list A) : list A :=
  fold_right (insert_reverse key) [] l.

(** Lines 185-190. *)
Definition ranking (data : dict string Item) : list string :=
  map fst (sorted_reverse attestation data).

(** [{c: data[c] for c in cs}] *)
Definition subdict (data : dict string Item) (cs : list string)
  : option (dict string Item) :=
  pairs <- mapM (fun c => v <- PyDict.get data c ;; Some (c, v)) cs ;;
  Some (PyDict.of_list pairs).

(** The two output dictionaries of lines 197-198. *)
Record emitted : Type := mkEmitted {
  test : dict string Item;
  solutions : dict string Item
}.

(** Lines 203-208 for one [languageB]. *)
Definition emit_field (test_ : dict string Item) (key new_key language : string)
  (e : emitted) (languageB : string) : option emitted :=
  item <- PyDict.get test_ key ;;
  if negb (String.eqb language languageB) then
    v <- PyDict.get item languageB ;;
    Some (mkEmitted
            (PyDict.update (test e) new_key [] (fun d => PyDict.set d languageB v))
            (solutions e))
  else
    v <- PyDict.get item language ;;
    Some (mkEmitted
            (PyDict.update (test e) new_key []
               (fun d => PyDict.set d language ["?"%string]))
            (PyDict.update (solutions e) new_key []
               (fun d => PyDict.set d language v))).

(** Lines 201-208 for one item of the pool. *)
Definition emit_item (test_ : dict string Item) (languages : list string)
  (i : nat) (language : string) (e : emitted) (kv : string * Item)
  : option emitted :=
  item <- PyDict.get test_ (fst kv) ;;
  v <- PyDict.get item language ;;
  if truthy (join " " v) then
    foldM (emit_field test_ (fst kv)
             (fst kv ++ "-" ++ str (i + 1))%string language) languages e
  else Some e.

(** Lines 199-208. *)
Definition emit_all (test_ : dict string Item) (languages : list string)
  : option emitted :=
  foldM (fun e il => foldM (emit_item test_ languages (fst il) (snd il)) test_ e)
        (enumerate languages) (mkEmitted [] []).

(** Lines 184-194: the evaluation source pool [test_] and the training
    pool. *)
Definition pools (data : dict string Item) (ratio : float)
  : option (dict string Item * dict string Item) :=
  k <- split_off (length data) ratio ;;
  let cognates := ranking data in
  test_ <- subdict data (slice_to cognates k) ;;
  training <- subdict data (slice_from cognates k) ;;
  Some (test_, training).

Definition split_training_test_data (data : dict string Item)
  (languages : list string) (ratio : float)
  : option (dict string Item * dict string Item * dict string Item) :=
  p <- pools data ratio ;;
  e <- emit_all (fst p) languages ;;
  Some (snd p, test e, solutions e).

(** ** The baseline predictor: class [Baseline] (lines 310-405) *)

(** The alignment function [func(seqs, languages, all_languages, training)]:
    one row per alignment position, one cell per language of
    [all_languages]. The type is that of a call that returns. *)
Definition AlignFunc : Type :=
  list (list string) -> list string -> list string -> bool -> list (list string).

(** The capability the source takes from [CorPaRClassifier]: construction
    from [minrefs] and [threshold], [fit(X, y)] and [predict(X)], each as
    a call that returns. *)
Class Classifier (C : Type) : Type := {
  new_classifier : Z -> Z -> C;
  clf_fit : C -> list (list Z) -> list Z -> C;
  clf_predict : C -> list (list Z) -> list Z
}.

(** [sounds.add(x)] on a [set], kept as a duplicate-free list. *)
Definition set_add (s : list string) (x : string) : list string :=
  if mem_str x s then s else s ++ [x].

(** [sorted(sounds)] on strings. *)
Fixpoint insert_sorted (x : string) (l : list string) : list string :=
  match l with
  | [] => [x]
  | y :: r => if String.leb x y then x :: y :: r else y :: insert_sorted x r
  end.

Definition sorted (l : list string) : list string :=
  fold_right insert_sorted [] l.

(** [range(a, a + n)] *)
Definition range (a n : nat) : list Z := map Z.of_nat (seq a n).

Module Baseline.

(** An element of [self.alignments[language]]: [[cogid, languages, alms]]. *)
Record entry : Type := mkEntry {
  cogid : string;
  entry_languages : list string;
  alms : list (list string)
}.

(** [self.patterns[language]]: pattern, then label, then provenance. *)
Definition Patterns : Type :=
  dict (list string) (dict string (list (string * nat))).

Section WithClassifier.
Context {C : Type} `{Classifier C}.

(** The attributes set by [__init__]. *)
Record t : Type := mk {
  languages : list string;
  data : dict string Item;
  gap : string;
  missing : string;
  classifiers : dict string C;
  alignments : dict string (list entry);
  to_predict : dict string (list string);
  func : AlignFunc
}.

(** The local variables of the loop at line 331. *)
Record attested : Type := mkAttested {
  att_alms : list (list string);
  att_languages : list string;
  att_to_predict : dict string (list string)
}.

(** Lines 332-337 for one language. *)
Definition scan_language (cog : string) (item : Item) (a : attested)
  (language : string) : option attested :=
  v <- PyDict.get item language ;;
  match v with
  | [] => Some a
  | _ :: _ =>
      if negb (String.eqb (join " " v) "?") then
        Some (mkAttested (att_alms a ++ [v]) (att_languages a ++ [language])
                         (att_to_predict a))
      else
        Some (mkAttested (att_alms a) (att_languages a)
                (PyDict.update (att_to_predict a) cog []
                   (fun l => l ++ [language])))
  end.

(** [[x for j, x in enumerate(l) if i != j]] *)
Definition without_index {A : Type} (i : nat) (l : list A) : list A :=
  map snd (filter (fun jx => negb (Nat.eqb i (fst jx))) (enumerate l)).

(** Lines 338-345 for one attested language. *)
Definition record_alignment (cog : string) (a : attested)
  (al : dict string (list entry)) (il : nat * string)
  : option (dict string (list entry)) :=
  let (i, language) := il in
  alm <- nth_error (att_alms a) i ;;
  old <- PyDict.get al language ;;
  Some (PyDict.set al language
          (old ++ [mkEntry cog
                     (filter (fun lang => negb (String.eqb lang language))
                             (att_languages a) ++ [language])
                     (without_index i (att_alms a) ++ [alm])])).

(** Lines 329-345 for one cognate set. *)
Definition init_item (langs : list string)
  (st : dict string (list entry) * dict string (list string))
  (kv : string * Item)
  : option (dict string (list entry) * dict string (list string)) :=
  a <- foldM (scan_language (fst kv) (snd kv)) langs
         (mkAttested [] [] (snd st)) ;;
  al <- foldM (record_alignment (fst kv) a) (enumerate (att_languages a))
          (fst st) ;;
  Some (al, att_to_predict a).

(** [__init__], from what [load_cognate_file(datapath)] returned. *)
Definition init (langs : list string) (dat : dict string Item)
  (minrefs : Z) (missing_ gap_ : string) (threshold : Z) (func_ : AlignFunc)
  : option t :=
  st <- foldM (init_item langs) dat
          (PyDict.of_list (map (fun l => (l, [])) langs), []) ;;
  Some (mk langs dat gap_ missing_
           (PyDict.of_list
              (map (fun l => (l, new_classifier minrefs threshold)) langs))
           (fst st) (snd st) func_).

(** The attributes a [Baseline] has once [fit] has run. *)
Record fitted : Type := mkFitted {
  self : t;
  patterns : dict string Patterns;
  matrices : dict string (list (list Z));
  solutions : dict string (list Z);
  sound2idx : dict string Z;
  idx2sound : dict Z string
}.

(** Line 369: [row[:n] + row[n+1:]] with [n = len(self.languages)]. *)
Definition context (n : nat) (row : list string) : list string :=
  firstn n row ++ skipn (n + 1) row.

(** Line 370: [row[n-1]]. *)
Definition label (n : nat) (row : list string) : option string :=
  nth_error row (n - 1).

(** [row[-1]] *)
Definition last_cell (row : list string) : option string :=
  nth_error row (length row - 1).

(** The state of the first loop of [fit]: [self.patterns] and [sounds]. *)
Record extraction : Type := mkExtraction {
  ex_patterns : dict string Patterns;
  ex_sounds : list string
}.

(** Lines 369-374 for one row of the alignment matrix. *)
Definition extract_row (n : nat) (language cog : string) (x : extraction)
  (ir : nat * list string) : option extraction :=
  let (i, row) := ir in
  let ptn := context n row in
  lbl <- label n row ;;
  mine <- PyDict.get (ex_patterns x) language ;;
  let mine' :=
    PyDict.update mine ptn []
      (fun by_label =>
         PyDict.update by_label lbl [] (fun occ => occ ++ [(cog, i)])) in
  lst <- last_cell row ;;
  Some (mkExtraction (PyDict.set (ex_patterns x) language mine')
                     (set_add (fold_left set_add ptn (ex_sounds x)) lst)).

(** Lines 362-374 for one alignment of [language]. *)
Definition extract_entry (b : t) (fn : AlignFunc) (language : string)
  (x : extraction) (e : entry) : option extraction :=
  let alm_matrix :=
    fn (alms e) (entry_languages e)
       (filter (fun l => negb (String.eqb l language)) (languages b)
          ++ [language])
       true in
  foldM (extract_row (length (languages b)) language (cogid e)) 
        (enumerate alm_matrix) x.

(** Lines 361-374. *)
Definition extract (b : t) (fn : AlignFunc) : option extraction :=
  foldM (fun x language =>
           es <- PyDict.get (alignments b) language ;;
           foldM (extract_entry b fn language) es x)
        (languages b)
        (mkExtraction (PyDict.of_list (map (fun l => (l, [])) (languages b)))
                      []).

(** Lines 375-377. *)
Definition make_sound2idx (b : t) (sounds : list string) : dict string Z :=
  let d := PyDict.of_list (combine (sorted sounds) (range 2 (length sounds))) in
  PyDict.set (PyDict.set d (gap b) 1%Z) (missing b) 0%Z.

(** Line 378: [{v: k for k, v in self.sound2idx.items()}]. *)
Definition make_idx2sound (s2i : dict string Z) : dict Z string :=
  PyDict.of_list (map (fun kv => (snd kv, fst kv)) s2i).

(** The state of the second loop of [fit]. *)
Record training : Type := mkTraining {
  tr_matrices : dict string (list (list Z));
  tr_solutions : dict string (list Z);
  tr_classifiers : dict string C
}.

(** Lines 383-387 for one label of one pattern. *)
Definition encode_label (s2i : dict string Z) (language : string)
  (pattern : list string) (tr : training)
  (sv : string * list (string * nat)) : option training :=
  target <- PyDict.get s2i (fst sv) ;;
  row <- mapM (PyDict.get s2i) pattern ;;
  foldM (fun tr' _ =>
           m <- PyDict.get (tr_matrices tr') language ;;
           y <- PyDict.get (tr_solutions tr') language ;;
           Some (mkTraining
                   (PyDict.set (tr_matrices tr') language (m ++ [row]))
                   (PyDict.set (tr_solutions tr') language (y ++ [target]))
                   (tr_classifiers tr')))
        (snd sv) tr.

(** Lines 381-390 for one language. *)
Definition fit_language (s2i : dict string Z) (pats : dict string Patterns)
  (tr : training) (language : string) : option training :=
  mine <- PyDict.get pats language ;;
  tr1 <- foldM (fun tr' ps =>
                  foldM (encode_label s2i language (fst ps)) (snd ps) tr')
               mine tr ;;
  clf <- PyDict.get (tr_classifiers tr1) language ;;
  m <- PyDict.get (tr_matrices tr1) language ;;
  y <- PyDict.get (tr_solutions tr1) language ;;
  Some (mkTraining (tr_matrices tr1) (tr_solutions tr1)
          (PyDict.set (tr_classifiers tr1) language (clf_fit clf m y))).

(** [fit(self, func)] *)
Definition fit (b : t) (fn : AlignFunc) : option fitted :=
  x <- extract b fn ;;
  let s2i := make_sound2idx b (ex_sounds x) in
  let empty_rows {A : Type} : dict string (list A) :=
    PyDict.of_list (map (fun l => (l, [])) (languages b)) in
  tr <- foldM (fit_language s2i (ex_patterns x)) (languages b)
          (mkTraining empty_rows empty_rows (classifiers b)) ;;
  Some (mkFitted
          (mk (languages b) (data b) (gap b) (missing b) (tr_classifiers tr)
              (alignments b) (to_predict b) fn)
          (ex_patterns x) (tr_matrices tr) (tr_solutions tr)
          s2i (make_idx2sound s2i)).

(** Lines 399-402: every cell through [self.sound2idx.get(char, 0)]. *)
Definition encode (f : fitted) (matrix : list (list string))
  : list (list Z) :=
  map (map (fun char => PyDict.get_default (sound2idx f) char 0%Z)) matrix.

(** Line 403: [self.idx2sound.get(idx, unknown)]. *)
Definition decode (f : fitted) (unknown : string) (idx : Z) : string :=
  PyDict.get_default (idx2sound f) idx unknown.

(** [predict(self, languages, alignments, target, unknown)] *)
Definition predict (f : fitted) (langs : list string)
  (seqs : list (list string)) (target unknown : string)
  : option (list string) :=
  let matrix :=
    func (self f) seqs langs
      (filter (fun l => negb (String.eqb l target)) (languages (self f)))
      false in
  clf <- PyDict.get (classifiers (self f)) target ;;
  let out := map (decode f unknown) (clf_predict clf (encode f matrix)) in
  Some (filter (fun x => negb (String.eqb x "-")) out).

End WithClassifier.

Arguments t C : clear implicits.
Arguments fitted C : clear implicits.
Arguments training C : clear implicits.

End Baseline.

(** ** The cognate file format: [load_cognate_file] (lines 150-165) and
    [write_cognate_file] (lines 169-176) *)

(** What [load_cognate_file] returns: [languages, sounds, out]. *)
Record loaded : Type := mkLoaded {
  ld_languages : list string;
  ld_sounds : dict string (dict string (list (string * nat)));
  ld_out : dict string Item
}.

Definition tab : string := String (ascii_of_nat 9) EmptyString.
Definition newline : string := String (ascii_of_nat 10) EmptyString.

Section FileFormat.
(** [entry.split()]: Python's split on runs of whitespace. *)
Variable split : string -> list string.

(** Line 164: [sounds[sound][language] += [[row[0], i]]]. *)
Definition load_sound (cog language : string)
  (sounds : dict string (dict string (list (string * nat))))
  (js : nat * string) : dict string (dict string (list (string * nat))) :=
  PyDict.update sounds (snd js) []
    (fun d => PyDict.update d language [] (fun l => l ++ [(cog, fst js)])).

(** Lines 162-164 for one pair of [zip(languages, row[1:])]. *)
Definition load_entry (cog : string)
  (st : dict string (dict string (list (string * nat))) * dict string Item)
  (le : string * string)
  : option (dict string (dict string (list (string * nat)))
            * dict string Item) :=
  item <- PyDict.get (snd st) cog ;;
  Some (fold_left (load_sound cog (fst le)) (enumerate (split (snd le)))
                  (fst st),
        PyDict.set (snd st) cog (PyDict.set item (fst le) (split (snd le)))).

(** Lines 159-164 for one row; [row[0]] raises on an empty row. *)
Definition load_row (languages : list string)
  (st : dict string (dict string (list (string * nat))) * dict string Item)
  (row : list string)
  : option (dict string (dict string (list (string * nat)))
            * dict string Item) :=
  match row with
  | [] => None
  | cog :: entries =>
      foldM (load_entry cog) (combine languages entries)
            (fst st, PyDict.set (snd st) cog [])
  end.

(** [load_cognate_file], from the rows [csv2list] returned. *)
Definition load_cognate_file (data : list (list string)) : option loaded :=
  match data with
  | [] => None
  | header :: rows =>
      let languages := tl header in
      st <- foldM (load_row languages) rows ([], []) ;;
      Some (mkLoaded languages (fst st) (snd st))
  end.
End FileFormat.

(** Line 175 for one language. *)
Definition write_field (v : Item) (text language : string) : string :=
  (text ++ tab ++ join " " (PyDict.get_default v language []))%string.

(** Lines 173-176 for one item. *)
Definition write_item (languages : list string) (text : string)
  (kv : string * Item) : string :=
  (fold_left (write_field (snd kv)) languages (text ++ fst kv) ++ newline)%string.

(** [write_cognate_file]: the text written to [path]. *)
Definition write_cognate_file (languages : list string)
  (data : dict string Item) : string :=
  fold_left (write_item languages) data
            ("COGID" ++ tab ++ join tab languages ++ newline)%string.

(** ** Prediction over a file: [predict_words] (lines 408-427) *)

(** The local variables of the loop at line 417. *)
Record gathered : Type := mkGathered {
  g_alms : list (list string);
  g_languages : list string;
  g_target : string
}.

(** Lines 418-422 for one language. *)
Definition gather (values : Item) (g : gathered) (language : string)
  : option gathered :=
  match PyDict.get values language with
  | Some v =>
      if negb (mem_str (join " " v) ["?"%string; ""%string]) then
        Some (mkGathered (g_alms g ++ [v]) (g_languages g ++ [language])
                         (g_target g))
      else if String.eqb (join " " v) "?" then
        Some (mkGathered (g_alms g) (g_languages g) language)
      else Some g
  | None => None
  end.

Section PredictWords.
Context {C : Type} `{Classifier C}.

(** Lines 414-426 for one item of the test data. *)
Definition predict_item (f : Baseline.fitted C) (languages : list string)
  (predictions : dict string Item) (kv : string * Item)
  : option (dict string Item) :=
  g <- foldM (gather (snd kv)) languages (mkGathered [] [] "") ;;
  match g_alms g with
  | _ :: _ =>
      if truthy (g_target g) then
        out <- Baseline.predict f (g_languages g) (g_alms g) (g_target g) "?" ;;
        Some (PyDict.update predictions (fst kv) []
                (fun d => PyDict.set d (g_target g) out))
      else Some predictions
  | [] => Some predictions
  end.

(** [predict_words], from the rows [csv2list] returns for [ifile] and
    [pfile] to the text written to [ofile]; [fn] is [simple_align]. *)
Definition predict_words (split : string -> list string) (fn : AlignFunc)
  (idata pdata : list (list string)) : option string :=
  i <- load_cognate_file split idata ;;
  b <- Baseline.init (ld_languages i) (ld_out i) 2 "Ø" "-" 1 fn ;;
  f <- Baseline.fit b fn ;;
  p <- load_cognate_file split pdata ;;
  predictions <- foldM (predict_item f (ld_languages p)) (ld_out p) [] ;;
  Some (write_cognate_file (Baseline.languages b) predictions).
End PredictWords.

(** ** Notions used to state the properties *)

(** The elements of [row] whose index, counted from [j], is not in [idxs]:
    the cells of a row outside the merge columns, and the rows of an
    alignment other than the reference language's. *)
Fixpoint keep {A : Type} (idxs : list nat) (j : nat) (row : list A) : list A :=
  match row with
  | [] => []
  | cell :: rest =>
      if mem_nat j idxs then keep idxs (S j) rest
      else cell :: keep idxs (S j) rest
  end.

(** Whether column [i] is marked by the loop of lines 253-257. *)
Definition merge_column (alignment : list (list string)) (pidxs : list nat)
  (i : nat) : bool :=
  match column alignment i with
  | Some col => is_merge (col_rest pidxs col)
  | None => false
  end.

(** The column indices among [j, j + n) that are not in [merges]. *)
Definition kept_indices (merges : list nat) (j n : nat) : list nat :=
  filter (fun i => negb (mem_nat i merges)) (seq j n).

(** Every cell of [row] in a column of [merges] is the gap. *)
Fixpoint gaps_at (merges : list nat) (j : nat) (row : list string) : Prop :=
  match row with
  | [] => True
  | cell :: rest =>
      (mem_nat j merges = true -> cell = "-"%string) /\ gaps_at merges (S j) rest
  end.

(** Line 278 read backwards: a leading gap cell is held as the empty string. *)
Definition degap (cell : string) : string :=
  if String.eqb cell "-" then ""%string else cell.

(** The spec's data model: at least one row, all rows of one width. *)
Definition rectangular (alignment : list (list string)) : Prop :=
  match alignment with
  | [] => False
  | row0 :: rest => Forall (fun row => length row = length row0) rest
  end.

(** The rows of the languages other than the reference language. *)
Definition other_rows (alignment : list (list string))
  (languages : list string) (proto : string) : list (list string) :=
  col_rest (pidxs_of languages proto) alignment.

(** The rational number a finite float stands for. *)
Definition value (x : float) : Q :=
  match x with
  | S754_finite s m e => (inject_Z (cond_Zopp s (Z.pos m)) * (2 # 1) ^ e)%Q
  | _ => 0%Q
  end.

(** The nearest integer, halves upwards: [round] as in arithmetic. *)
Definition round_half_up (x : Q) : Z := Qfloor (x + (1 # 2)).

(** The nearest integer, halves to the even one: Python's [round]. *)
Definition round_half_even (x : Q) : Z :=
  let f := Qfloor x in
  match ((x - inject_Z f) ?= (1 # 2))%Q with
  | Lt => f
  | Gt => (f + 1)%Z
  | Eq => if Z.even f then f else (f + 1)%Z
  end.

(** The items in the order of the ranking of lines 185-190. *)
Definition ranked_items (data : dict string Item) : dict string Item :=
  sorted_reverse attestation data.

(** The spec's size of the evaluation source pool, [round(r * |items|)],
    for the number the ratio stands for. *)
Definition pool_size (data : dict string Item) (ratio : float) : nat :=
  Z.to_nat (round_half_up (inject_Z (Z.of_nat (length data)) * value ratio)).

(** A float that is not a negative number. *)
Definition unsigned (x : float) : Prop :=
  match x with
  | S754_finite s _ _ => s = false
  | _ => True
  end.

(** A ratio that is not negative. *)
Definition not_negative (ratio : float) : Prop :=
  match ratio with
  | S754_zero _ | S754_finite false _ _ => True
  | _ => False
  end.

(** [ranked] lists the items by attestation count, highest first. *)
Definition descending (ranked : list (string * Item)) : Prop :=
  StronglySorted (fun x y => attestation y <= attestation x) ranked.

(** Items with equal counts stand in [ranked] in their order in [data]. *)
Definition stable (ranked data : list (string * Item)) : Prop :=
  forall c,
    filter (fun x => attestation x =? c) ranked
    = filter (fun x => attestation x =? c) data.

(** No column of the alignment qualifies as a merge target. *)
Definition no_merge_column (alignment : list (list string))
  (languages : list string) (proto : string) : Prop :=
  forall i, merge_column alignment (pidxs_of languages proto) i = false.

(** All symbols of the patterns of one language: contexts and labels. *)
Definition pattern_symbols (ps : Baseline.Patterns) : list string :=
  List.concat (map (fun pl => fst pl ++ PyDict.keys (snd pl)) ps).

(** The labels of the patterns of one language. *)
Definition pattern_labels (ps : Baseline.Patterns) : list string :=
  List.concat (map (fun pl => PyDict.keys (snd pl)) ps).

(** The vocabulary of the trained codec. *)
Definition vocabulary {C : Type} (f : Baseline.fitted C) : list string :=
  PyDict.keys (Baseline.sound2idx f).

(** An alignment function returns one cell per language of the universe it
    is given, at every position. *)
Definition cell_per_language (fn : AlignFunc) : Prop :=
  forall seqs languages all_languages training,
    Forall (fun row => length row = length all_languages)
           (fn seqs languages all_languages training).

(** Every symbol of every language's patterns is in [sounds]. *)
Definition covers (x : Baseline.extraction) : Prop :=
  forall L ps s,
    PyDict.get (Baseline.ex_patterns x) L = Some ps ->
    In s (pattern_symbols ps) -> In s (Baseline.ex_sounds x).

(** Every symbol of [sounds] is in the patterns of some language. *)
Definition covered (x : Baseline.extraction) : Prop :=
  forall s,
    In s (Baseline.ex_sounds x) ->
    exists L ps,
      PyDict.get (Baseline.ex_patterns x) L = Some ps
      /\ In s (pattern_symbols ps).

(** Every training row of a language is the code of one of its patterns
    and every training target the code of one of its labels, under the
    one codec [s2i]. *)
Definition encoded_with {C : Type} (s2i : dict string Z)
  (pats : dict string Baseline.Patterns) (tr : Baseline.training C) : Prop :=
  (forall L m row,
      PyDict.get (Baseline.tr_matrices tr) L = Some m -> In row m ->
      exists ps ptn,
        PyDict.get pats L = Some ps /\ In ptn (PyDict.keys ps)
        /\ mapM (PyDict.get s2i) ptn = Some row)
  /\ (forall L y target,
      PyDict.get (Baseline.tr_solutions tr) L = Some y -> In target y ->
      exists ps lbl,
        PyDict.get pats L = Some ps /\ In lbl (pattern_labels ps)
        /\ PyDict.get s2i lbl = Some target).

(** The symbols of a set in sorted order with the codes from 2 on. *)
Definition ranked_codes (sounds : list string) : dict string Z :=
  combine (sorted sounds) (range 2 (length sounds)).

(** The length [ungap] gives a row of length [n]. *)
Definition out_width (merges : list nat) (n : nat) : nat :=
  if mem_nat 0 merges then n else length (kept_indices merges 0 n).

(** The number of columns below the width of [row0] that are not marked. *)
Definition kept_width (merges : list nat) (row0 : list string) : nat :=
  length (kept_indices merges 0 (length row0)).

(** ** Concrete inputs *)

Local Open Scope string_scope.

(** [l.index(x)] *)
Fixpoint index (x : string) (l : list string) : option nat :=
  match l with
  | [] => None
  | y :: r => if String.eqb x y then Some 0 else option_map S (index x r)
  end.

(** An alignment function for sequences that are aligned already (equal
    lengths, no gap to insert): position [i] holds, for each language of
    the universe, its token at [i], and the missing symbol for a
    language without a sequence. *)
Definition aligned_already : AlignFunc :=
  fun seqs languages all_languages _ =>
    map (fun i =>
           map (fun lng =>
                  match index lng languages with
                  | Some j => nth i (nth j seqs []) "Ø"
                  | None => "Ø"
                  end) all_languages)
        (seq 0 (length (hd [] seqs))).

(** A classifier that answers, for every row, the first label it was
    fitted with, and [0] before any fit. *)
Definition first_label : Classifier (list Z) :=
  {| new_classifier := fun _ _ => [];
     clf_fit := fun _ _ y => y;
     clf_predict := fun c X => map (fun _ => hd 0%Z c) X |}.

(** Two leading marked columns; [P] is the reference language. *)
Definition leading_run : list (list string) :=
  [["-"; "-"; "a"]; ["-"; "-"; "b"]; ["x"; "y"; "z"]].

(** A marked column after a normal one. *)
Definition inner_run : list (list string) :=
  [["a"; "-"; "c"]; ["b"; "-"; "d"]; ["x"; "y"; "z"]].

(** A cell that is the empty string. *)
Definition empty_cell : list (list string) :=
  [["a"; ""; "-"]; ["x"; "y"; "z"]].

(** Two languages, one cognate set. *)
Definition two_languages : dict string Item :=
  [("c1", [("A", ["a"]); ("B", ["b"])])].

(** Three languages; [c] is attested in a cognate set without [B]. *)
Definition three_languages : dict string Item :=
  [("c1", [("A", ["a"]); ("B", ["b"]); ("C", [])]);
   ("c2", [("A", ["a"]); ("B", []); ("C", ["c"])])].

(** A token that is the configured gap symbol [+]. *)
Definition plus_token : dict string Item :=
  [("c1", [("A", ["a"]); ("B", ["+"])])].

(** A token that is the default gap symbol [-]. *)
Definition gap_token : dict string Item :=
  [("c1", [("A", ["a"]); ("B", ["-"])])].

(** A cognate set whose entry for [A] is the placeholder. *)
Definition with_placeholder : dict string Item :=
  [("c1", [("A", ["?"]); ("B", ["b"])]);
   ("c2", [("A", ["a"; "x"]); ("B", ["b"])]);
   ("c3", [("A", ["a"]); ("B", [])])].

(** Three languages; [B] is never attested. *)
Definition never_attested : dict string Item :=
  [("c1", [("A", ["a"]); ("B", []); ("C", ["c"])])].

(** The float nearest to three tenths, [0x1.3333333333333p-2]: the value
    of the literal [0.3]. *)
Definition three_tenths : float := S754_finite false 5404319552844595 (-54).

(** The float just below one half, [0x1.fffffffffffffp-2]: the value of
    the literal [0.49999999999999994]. *)
Definition below_half : float := S754_finite false 9007199254740991 (-54).

(** Five cognate sets. *)
Definition five_items : dict string Item :=
  [("c1", [("A", ["a"]); ("B", ["b"])]);
   ("c2", [("A", ["a"]); ("B", ["b"])]);
   ("c3", [("A", ["a"]); ("B", [])]);
   ("c4", [("A", ["a"]); ("B", [])]);
   ("c5", [("A", []); ("B", [])])].

Definition run_fit (langs : list string) (dat : dict string Item)
  (missing_ gap_ : string) : option (Baseline.fitted (list Z)) :=
  b <- Baseline.init (H := first_label) langs dat 2 missing_ gap_ 1
         aligned_already ;;
  Baseline.fit (H := first_label) b aligned_already.

Local Close Scope string_scope.

(** ** Further notions *)

(** The number of (cognate set, position) occurrences recorded in the
    patterns of one language. *)
Definition occurrences (ps : Baseline.Patterns) : nat :=
  list_sum (map (fun pl => list_sum (map (fun sv => length (snd sv)) (snd pl)))
                ps).

(** The universe [fit] hands to the alignment function for [language]. *)
Definition universe (languages : list string) (language : string)
  : list string :=
  filter (fun l => negb (String.eqb l language)) languages ++ [language].

(** The number of alignment positions of the entries of one language. *)
Definition positions (fn : AlignFunc) (languages : list string)
  (language : string) (es : list Baseline.entry) : nat :=
  list_sum (map (fun e => length (fn (Baseline.alms e)
                                     (Baseline.entry_languages e)
                                     (universe languages language) true))
                es).

(** The two training lists of every language go in step, and the languages
    of [langs] have theirs. *)
Definition in_step {C : Type} (langs : list string) (tr : Baseline.training C)
  : Prop :=
  (forall L,
      option_map (@List.length _) (PyDict.get (Baseline.tr_matrices tr) L)
      = option_map (@List.length _) (PyDict.get (Baseline.tr_solutions tr) L))
  /\ forall L, In L langs -> PyDict.get (Baseline.tr_matrices tr) L <> None.

(** Every pattern of every language has [n] cells. *)
Definition wide (n : nat) (x : Baseline.extraction) : Prop :=
  forall L ps ptn,
    PyDict.get (Baseline.ex_patterns x) L = Some ps ->
    In ptn (PyDict.keys ps) -> length ptn = n.

(** The occurrences recorded so far for language [L]. *)
Definition recorded (x : Baseline.extraction) (L : string) : nat :=
  match PyDict.get (Baseline.ex_patterns x) L with
  | Some ps => occurrences ps
  | None => 0
  end.

(** The training rows collected so far for language [L]. *)
Definition collected {C : Type} (tr : Baseline.training C) (L : string) : nat :=
  match PyDict.get (Baseline.tr_matrices tr) L with
  | Some m => length m
  | None => 0
  end.

(** The columns marked by the loop of lines 253-257. *)
Definition marked_columns (alignment : list (list string))
  (languages : list string) (proto : string) : list nat :=
  filter (merge_column alignment (pidxs_of languages proto))
         (seq 0 (length (hd [] alignment))).

(** The cells of [row], from position [j] on, that sit in the run of marked
    columns starting at [j] and are not the gap. *)
Fixpoint run_of (merges : list nat) (j : nat) (row : list string)
  : list string :=
  match row with
  | [] => []
  | cell :: rest =>
      if mem_nat j merges then
        if String.eqb cell "-" then run_of merges (S j) rest
        else cell :: run_of merges (S j) rest
      else []
  end.

(** Each cell of an unmarked column, joined by dots with the cells of the
    marked columns that follow it. *)
Fixpoint merged (merges : list nat) (j : nat) (row : list string)
  : list string :=
  match row with
  | [] => []
  | cell :: rest =>
      if mem_nat j merges then merged merges (S j) rest
      else join "." (cell :: run_of merges (S j) rest) :: merged merges (S j) rest
  end.

(** The keys of a dictionary after an assignment to [d[k]]. *)
Definition add_key (ks : list string) (k : string) : list string :=
  if mem_str k ks then ks else ks ++ [k].

(** The id of line 202 for the item [key] and the language at index [i]. *)
Definition derived_id (key : string) (i : nat) : string :=
  (key ++ "-" ++ str (i + 1))%string.

(** An item with the entry of [language] replaced by the placeholder. *)
Definition masked (languages : list string) (language : string) (item : Item)
  : Item :=
  map (fun L => (L, if String.eqb language L then ["?"%string]
                    else PyDict.get_default item L [])) languages.

(** Line 201: the entry of [language] in the item is not empty. *)
Definition held_out (kv : string * Item) (language : string) : bool :=
  truthy (join " " (PyDict.get_default (snd kv) language [])).

(** The derived items: languages in the outer loop, pool items in the inner
    one. *)
Definition derived_test (test_ : dict string Item) (languages : list string)
  : dict string Item :=
  flat_map (fun il =>
    flat_map (fun kv =>
      if held_out kv (snd il)
      then [(derived_id (fst kv) (fst il), masked languages (snd il) (snd kv))]
      else []) test_) (enumerate languages).

Definition derived_solutions (test_ : dict string Item)
  (languages : list string) : dict string Item :=
  flat_map (fun il =>
    flat_map (fun kv =>
      if held_out kv (snd il)
      then [(derived_id (fst kv) (fst il),
             [(snd il, PyDict.get_default (snd kv) (snd il) [])])]
      else []) test_) (enumerate languages).

(** A dictionary whose last key [k] may not have been created yet. *)
Definition slot (d : dict string Item) (k : string) (item : Item)
  : dict string Item :=
  match item with
  | [] => d
  | _ :: _ => d ++ [(k, item)]
  end.

Definition no_hyphen (s : string) : Prop :=
  ~ In "-"%char (list_ascii_of_string s).

(** Lines 333-334: the entry of [language] is neither empty nor the
    placeholder. *)
Definition attested_in (item : Item) (language : string) : bool :=
  match PyDict.get item language with
  | Some (x :: r) => negb (String.eqb (join " " (x :: r)) "?")
  | _ => false
  end.

(** What [__init__] records for [language] from one cognate set: the other
    attested languages in order, then [language]. *)
Definition listed (langs : list string) (item : Item) (language : string)
  : list string :=
  filter (fun lang => negb (String.eqb lang language))
         (filter (attested_in item) langs) ++ [language].

(** ** Notions for the file format and for [predict_words] *)

(** The item [load_cognate_file] builds from one row: the languages of the
    header paired with the split cells, as far as both reach. *)
Definition item_of_row (split : string -> list string)
  (languages : list string) (row : list string) : string * Item :=
  (hd ""%string row,
   PyDict.of_list (combine languages (map split (tl row)))).

(** The cells of the line written for one item: its id, then its entry for
    each language joined by spaces, the empty string where it has none. *)
Definition row_fields (languages : list string) (kv : string * Item)
  : list string :=
  fst kv :: map (fun L => join " " (PyDict.get_default (snd kv) L [])) languages.

(** Lines of cells as text: cells joined by tabs, every line ended by a
    newline. *)
Definition lines_text (lines : list (list string)) : string :=
  String.concat "" (map (fun fields => (join tab fields ++ newline)%string) lines).

(** Line 418: the item has an entry for [language] that is neither the
    placeholder nor empty. *)
Definition real_in (values : Item) (language : string) : bool :=
  match PyDict.get values language with
  | Some v => negb (mem_str (join " " v) ["?"%string; ""%string])
  | None => false
  end.

(** Line 421: the entry of [language] is the placeholder. *)
Definition asked_in (values : Item) (language : string) : bool :=
  match PyDict.get values language with
  | Some v => String.eqb (join " " v) "?"
  | None => false
  end.

(** The language [predict_words] predicts for an item: the last one whose
    entry is the placeholder, the empty string when there is none. *)
Definition target_of (values : Item) (languages : list string) : string :=
  last (filter (asked_in values) languages) ""%string.

(** ** Further concrete inputs *)

(** A split for cells that hold at most one token. *)
Definition one_token (s : string) : list string :=
  if String.eqb s "" then [] else [s].

(** The rows of a cognate file whose second row lacks the cell of [B]. *)
Definition short_row_file : list (list string) :=
  [["COGID"; "A"; "B"]; ["c1"; "a"; "b"]; ["c2"; "a"]]%string.

(** A test item: [A] attested, [B] to predict. *)
Definition asks_for_B : Item := [("A", ["a"]); ("B", ["?"])]%string.

(** A test item that asks for a language no classifier was trained for. *)
Definition asks_for_C : Item := [("A", ["a"]); ("C", ["?"])]%string.

(** * Properties *)

(** ** The error monad and list helpers *)

(** In [H : (x <- m ;; k) = Some _] the call [m] did not raise: name its
    result [x] and go on with [k]. *)
Tactic Notation "returned" hyp(H) "as" ident(x) :=
  cbv beta in H;
  match type of H with
  | bind ?m _ = Some _ =>
      let E := fresh "E" x in
      destruct m as [x|] eqn:E; cbn [bind] in H; [| discriminate H]
  end.

Lemma mapM_Forall2 {A B : Type} (f : A -> option B) (l : list A) (l' : list B) :
  mapM f l = Some l' <-> Forall2 (fun a b => f a = Some b) l l'.
Proof.
  revert l'; induction l as [| a r IH]; intros l'; simpl.
  - split; intros Hx.
    + injection Hx as <-. constructor.
    + inversion Hx. reflexivity.
  - destruct (f a) as [b|] eqn:Ea; simpl.
    + destruct (mapM f r) as [bs|] eqn:Er; simpl.
      * split; intros Hx.
        -- injection Hx as <-. constructor; [exact Ea | now apply IH].
        -- inversion Hx as [| ? b' ? bs' Hb Hr]; subst.
           apply IH in Hr. congruence.
      * split; intros Hx; [discriminate |].
        inversion Hx as [| ? b' ? bs' Hb Hr]; subst.
        apply IH in Hr. discriminate.
    + split; intros Hx; [discriminate |].
      inversion Hx; subst. congruence.
Qed.

Lemma mapM_total {A B : Type} (f : A -> option B) (g : A -> B) (l : list A) :
  (forall a, In a l -> f a = Some (g a)) -> mapM f l = Some (map g l).
Proof.
  induction l as [| a r IH]; intros Hf; simpl; [reflexivity |].
  rewrite (Hf a (or_introl eq_refl)); simpl.
  rewrite IH by (intros; apply Hf; now right). reflexivity.
Qed.

Lemma mapM_length {A B : Type} (f : A -> option B) (l : list A) (l' : list B) :
  mapM f l = Some l' -> length l' = length l.
Proof.
  rewrite mapM_Forall2. intros Hx. symmetry. eapply Forall2_length; eauto.
Qed.

Lemma mem_nat_In (j : nat) (l : list nat) : mem_nat j l = true <-> In j l.
Proof.
  unfold mem_nat. rewrite existsb_exists. split.
  - intros [x [Hin Hx]]. apply Nat.eqb_eq in Hx. now subst.
  - intros Hin. exists j. split; [assumption | apply Nat.eqb_refl].
Qed.

Lemma mem_str_In (s : string) (l : list string) : mem_str s l = true <-> In s l.
Proof.
  unfold mem_str. rewrite existsb_exists. split.
  - intros [x [Hin Hx]]. apply String.eqb_eq in Hx. now subst.
  - intros Hin. exists s. split; [assumption | apply String.eqb_refl].
Qed.

Lemma regap_idempotent (cell : string) : regap (regap cell) = regap cell.
Proof.
  unfold regap, truthy. destruct (String.eqb cell "") eqn:E; simpl; [reflexivity |].
  now rewrite E.
Qed.

Lemma regap_degap (cell : string) : regap (degap cell) = regap cell.
Proof.
  unfold regap, degap, truthy.
  destruct (String.eqb cell "-") eqn:E; simpl.
  - apply String.eqb_eq in E. now subst.
  - reflexivity.
Qed.

Lemma regap_nonempty (cell : string) : cell <> ""%string -> regap cell = cell.
Proof.
  intros Hc. unfold regap, truthy.
  destruct (String.eqb_spec cell ""); [contradiction | reflexivity].
Qed.

(** ** [ungap]: one row *)

Lemma update_last_snoc (f : string -> string) (l : list string) (x : string) :
  update_last f (l ++ [x]) = Some (l ++ [f x]).
Proof.
  induction l as [| a r IH]; simpl; [reflexivity |].
  destruct (r ++ [x]) as [| y ys] eqn:E.
  - now destruct r.
  - rewrite IH. reflexivity.
Qed.

Lemma update_last_nonempty (f : string -> string) (l : list string) :
  l <> [] ->
  exists l', update_last f l = Some l' /\ length l' = length l /\ l' <> [].
Proof.
  intros Hl. destruct (exists_last Hl) as [init [x ->]].
  exists (init ++ [f x]). rewrite update_last_snoc.
  repeat split.
  - now rewrite !length_app.
  - now destruct init.
Qed.

(** Once a leading column is a merge column, [mergeit] and [started] both
    stay set and every later cell is appended on its own. *)
Lemma row_loop_leading (merges : list nat) (row : list string) :
  forall j acc,
    row_loop merges j row (mkWalk acc true true)
    = Some (mkWalk (acc ++ map degap row) true true).
Proof.
  induction row as [| cell rest IH]; intros j acc; simpl.
  - now rewrite app_nil_r.
  - unfold row_step; simpl. rewrite orb_true_r; simpl.
    rewrite IH. rewrite <- app_assoc. reflexivity.
Qed.

Lemma ungap_row_leading (merges : list nat) (row : list string) :
  mem_nat 0 merges = true -> ungap_row merges row = Some (map regap row).
Proof.
  intros H0. unfold ungap_row. destruct row as [| cell rest]; simpl.
  - reflexivity.
  - unfold row_step; simpl. rewrite H0; simpl.
    rewrite row_loop_leading; simpl.
    change (if String.eqb cell "-" then ""%string else cell) with (degap cell).
    rewrite regap_degap, map_map.
    f_equal. f_equal. apply map_ext. intros c. apply regap_degap.
Qed.

(** After a first normal column, marked columns are folded into the last
    cell and every other column adds one cell. *)
Lemma row_loop_inner (merges : list nat) (row : list string) :
  forall j acc,
    acc <> [] ->
    exists acc',
      row_loop merges j row (mkWalk acc false false)
      = Some (mkWalk acc' false false)
      /\ length acc' = length acc + length (keep merges j row)
      /\ (gaps_at merges j row -> acc' = acc ++ keep merges j row).
Proof.
  induction row as [| cell rest IH]; intros j acc Hacc; simpl.
  - exists acc. rewrite app_nil_r. repeat split; lia.
  - unfold row_step; simpl. rewrite orb_false_r.
    destruct (mem_nat j merges) eqn:Ej; simpl.
    + destruct (String.eqb_spec cell "-") as [-> | Hc].
      * destruct (IH (S j) acc Hacc) as [acc' [Hrun [Hlen Hgap]]].
        exists acc'. repeat split; try assumption.
        intros [_ Hg]. now apply Hgap.
      * destruct (update_last_nonempty (fuse cell) acc Hacc)
          as [l' [Hup [Hl Hne]]].
        rewrite Hup; simpl.
        destruct (IH (S j) l' Hne) as [acc' [Hrun [Hlen Hgap]]].
        exists acc'. repeat split; try assumption.
        -- lia.
        -- intros [Hg _]. now specialize (Hg eq_refl).
    + assert (Hne : acc ++ [cell] <> []) by now destruct acc.
      destruct (IH (S j) (acc ++ [cell]) Hne) as [acc' [Hrun [Hlen Hgap]]].
      exists acc'. repeat split; try assumption.
      * rewrite Hlen, length_app; simpl. lia.
      * intros [_ Hg]. rewrite (Hgap Hg), <- app_assoc. reflexivity.
Qed.

Lemma ungap_row_inner (merges : list nat) (row : list string) :
  mem_nat 0 merges = false ->
  exists out,
    ungap_row merges row = Some out
    /\ length out = length (keep merges 0 row)
    /\ (gaps_at merges 0 row -> out = map regap (keep merges 0 row)).
Proof.
  intros H0. unfold ungap_row. destruct row as [| cell rest]; simpl.
  - exists []. repeat split; reflexivity.
  - unfold row_step; simpl. rewrite H0; simpl.
    destruct (row_loop_inner merges rest 1 [cell]) as [acc' [Hrun [Hlen Hgap]]];
      [discriminate |].
    rewrite Hrun; simpl. exists (map regap acc'). repeat split.
    + rewrite length_map, Hlen. reflexivity.
    + intros [_ Hg]. now rewrite (Hgap Hg).
Qed.

Lemma keep_length (merges : list nat) (row : list string) :
  forall j, length (keep merges j row) <= length row.
Proof.
  induction row as [| cell rest IH]; intros j; simpl; [lia |].
  destruct (mem_nat j merges); simpl; specialize (IH (S j)); lia.
Qed.

(** The kept cells of a row sit at the kept indices, in order. *)
Lemma keep_indices (merges : list nat) (row : list string) :
  forall j,
    Forall2 (fun i c => j <= i /\ nth_error row (i - j) = Some c)
            (kept_indices merges j (length row)) (keep merges j row).
Proof.
  unfold kept_indices.
  induction row as [| cell rest IH]; intros j; simpl; [constructor |].
  assert (Hshift : Forall2
            (fun i c => j <= i /\ nth_error (cell :: rest) (i - j) = Some c)
            (filter (fun i => negb (mem_nat i merges)) (seq (S j) (length rest)))
            (keep merges (S j) rest)).
  { eapply Forall2_impl; [| apply IH]. simpl. intros i c [Hle Hnth].
    split; [lia |]. replace (i - j) with (S (i - S j)) by lia. exact Hnth. }
  destruct (mem_nat j merges); simpl; [exact Hshift |].
  constructor; [| exact Hshift].
  split; [lia |]. now rewrite Nat.sub_diag.
Qed.

Lemma kept_indices_prefix (merges : list nat) (j n n' : nat) :
  n <= n' ->
  kept_indices merges j n'
  = kept_indices merges j n ++ kept_indices merges (j + n) (n' - n).
Proof.
  intros Hle. unfold kept_indices.
  replace n' with (n + (n' - n)) at 1 by lia.
  now rewrite seq_app, filter_app.
Qed.

Lemma keep_length_indices (merges : list nat) (row : list string) (j : nat) :
  length (keep merges j row) = length (kept_indices merges j (length row)).
Proof.
  symmetry. eapply Forall2_length. apply keep_indices.
Qed.

(** The row loop never raises and never widens a row; the length of its
    result depends on the length of the row only. *)
Lemma ungap_row_total (merges : list nat) (row : list string) :
  exists out,
    ungap_row merges row = Some out
    /\ length out <= length row
    /\ length out = out_width merges (length row).
Proof.
  unfold out_width. destruct (mem_nat 0 merges) eqn:E0.
  - exists (map regap row). split; [now apply ungap_row_leading |].
    now rewrite length_map.
  - destruct (ungap_row_inner merges row E0) as [out [Hrun [Hlen _]]].
    exists out. split; [assumption |].
    rewrite Hlen. split; [apply keep_length | apply keep_length_indices].
Qed.

(** ** [ungap]: columns and the rows outside the reference language *)

Lemma col_rest_from {A : Type} (pidxs : list nat) (l : list A) :
  forall j,
    map snd (filter (fun it => negb (mem_nat (fst it) pidxs))
               (combine (seq j (length l)) l))
    = keep pidxs j l.
Proof.
  induction l as [| x r IH]; intros j; simpl; [reflexivity |].
  destruct (mem_nat j pidxs); simpl; now rewrite IH.
Qed.

Lemma col_rest_keep {A : Type} (pidxs : list nat) (l : list A) :
  col_rest pidxs l = keep pidxs 0 l.
Proof. apply col_rest_from. Qed.

Lemma keep_Forall2 {A B : Type} (R : A -> B -> Prop) (idxs : list nat)
  (l : list A) (l' : list B) :
  Forall2 R l l' -> forall j, Forall2 R (keep idxs j l) (keep idxs j l').
Proof.
  induction 1 as [| x y r r' Hxy Hr IH]; intros j; simpl; [constructor |].
  destruct (mem_nat j idxs); [apply IH | constructor; [assumption | apply IH]].
Qed.

Lemma keep_In {A : Type} (idxs : list nat) (l : list A) (x : A) :
  forall j, In x (keep idxs j l) -> In x l.
Proof.
  induction l as [| y r IH]; intros j; simpl; [tauto |].
  destruct (mem_nat j idxs); simpl; intros Hin.
  - right. eapply IH; eauto.
  - destruct Hin as [-> | Hin]; [now left | right; eapply IH; eauto].
Qed.

Lemma keep_map {A B : Type} (f : A -> B) (idxs : list nat) (l : list A) :
  forall j, keep idxs j (map f l) = map f (keep idxs j l).
Proof.
  induction l as [| y r IH]; intros j; simpl; [reflexivity |].
  destruct (mem_nat j idxs); simpl; now rewrite IH.
Qed.

Lemma keep_mapM {A B : Type} (f : A -> option B) (idxs : list nat)
  (l : list A) (l' : list B) (j : nat) :
  mapM f l = Some l' -> mapM f (keep idxs j l) = Some (keep idxs j l').
Proof.
  rewrite !mapM_Forall2. intros Hx. now apply keep_Forall2.
Qed.

(** The non-reference cells of column [i] are column [i] of the
    non-reference rows. *)
Lemma col_rest_column (alignment : list (list string)) (pidxs : list nat)
  (i : nat) (col : list string) :
  column alignment i = Some col ->
  column (col_rest pidxs alignment) i = Some (col_rest pidxs col).
Proof.
  unfold column. rewrite !col_rest_keep. apply keep_mapM.
Qed.

Lemma column_map (f : string -> string) (alignment : list (list string))
  (i : nat) :
  column (map (map f) alignment) i = option_map (map f) (column alignment i).
Proof.
  unfold column. induction alignment as [| row rest IH]; simpl; [reflexivity |].
  rewrite nth_error_map. destruct (nth_error row i); simpl; [| reflexivity].
  rewrite IH. now destruct (mapM _ rest).
Qed.

Lemma column_In (alignment : list (list string)) (i : nat) (col : list string) :
  column alignment i = Some col ->
  forall row, In row alignment -> exists c, nth_error row i = Some c /\ In c col.
Proof.
  unfold column. rewrite mapM_Forall2.
  induction 1 as [| row c rest col' Hc Hrest IH]; intros row' Hin; [easy |].
  destruct Hin as [<- | Hin].
  - exists c. split; [assumption | now left].
  - destruct (IH row' Hin) as [c' [Hc' Hin']]. exists c'. split; [assumption | now right].
Qed.

Lemma column_exists (alignment : list (list string)) (i : nat) :
  Forall (fun row => i < length row) alignment ->
  exists col, column alignment i = Some col.
Proof.
  unfold column. induction 1 as [| row rest Hrow Hrest [col IH]]; simpl.
  - now exists [].
  - destruct (nth_error row i) as [c|] eqn:E.
    + simpl. rewrite IH. simpl. now exists (c :: col).
    + apply nth_error_None in E. lia.
Qed.

Lemma column_cells (alignment : list (list string)) (i : nat) (c : string) :
  (forall row, In row alignment -> nth_error row i = Some c) ->
  column alignment i = Some (map (fun _ => c) alignment).
Proof.
  intros Hc. unfold column. apply mapM_total. exact Hc.
Qed.

(** A column is marked exactly when it has non-reference cells and all of
    them are the gap. *)
Lemma nodup_constant (x : string) (l : list string) :
  l <> [] -> Forall (eq x) l -> nodup string_dec l = [x].
Proof.
  induction l as [| a r IH]; intros Hne Hall; [contradiction |].
  inversion Hall as [| ? ? Ha Hr]; subst. simpl.
  destruct r as [| b r'].
  - reflexivity.
  - destruct (in_dec string_dec a (b :: r')) as [Hin | Hout].
    + apply IH; [discriminate | assumption].
    + exfalso. apply Hout. left. inversion Hr; subst. reflexivity.
Qed.

Lemma is_merge_spec (rest : list string) :
  is_merge rest = true <-> rest <> [] /\ Forall (eq "-"%string) rest.
Proof.
  unfold is_merge. rewrite andb_true_iff, mem_str_In, Nat.eqb_eq. split.
  - intros [Hin Hlen]. split; [now destruct rest |].
    destruct (nodup string_dec rest) as [| y [| z ys]] eqn:E; try discriminate.
    assert (Hy : forall x, In x rest -> x = y).
    { intros x Hx. apply (nodup_In string_dec) in Hx. rewrite E in Hx.
      destruct Hx as [<- | []]. reflexivity. }
    apply Forall_forall. intros x Hx.
    rewrite (Hy x Hx). now apply Hy.
  - intros [Hne Hall]. split.
    + destruct rest as [| a r]; [contradiction |].
      inversion Hall; subst. now left.
    + now rewrite (nodup_constant "-"%string rest Hne Hall).
Qed.

(** What the loop of lines 253-257 computes. *)
Lemma find_merges_spec (alignment : list (list string)) (pidxs idxs : list nat) :
  forall ms,
    find_merges alignment pidxs idxs = Some ms <->
    (forall i, In i idxs -> column alignment i <> None)
    /\ ms = filter (merge_column alignment pidxs) idxs.
Proof.
  induction idxs as [| i rest IH]; intros ms; simpl.
  - split.
    + intros Hx. injection Hx as <-. split; [intros ? [] | reflexivity].
    + intros [_ ->]. reflexivity.
  - unfold merge_column at 1.
    destruct (column alignment i) as [col|] eqn:Ec; simpl.
    + destruct (find_merges alignment pidxs rest) as [ms'|] eqn:Er; simpl.
      * destruct (proj1 (IH ms') eq_refl) as [Hcols ->].
        split.
        -- intros Hx. injection Hx as <-. split; [| reflexivity].
           intros i' [<- | Hin]; [congruence | now apply Hcols].
        -- intros [_ ->]. reflexivity.
      * split; [discriminate |]. intros [Hcols _]. exfalso.
        assert (Hsome : @None (list nat)
                        = Some (filter (merge_column alignment pidxs) rest)).
        { apply IH. split; [| reflexivity]. intros i' Hin. apply Hcols. now right. }
        discriminate.
    + split; [discriminate |]. intros [Hcols _]. exfalso.
      now apply (Hcols i (or_introl eq_refl)).
Qed.

(** ** [ungap]: the whole alignment *)

Lemma ungap_rows_total (merges : list nat) (alignment : list (list string)) :
  exists out,
    mapM (ungap_row merges) alignment = Some out
    /\ Forall2 (fun row row' => length row' <= length row
                                /\ length row' = out_width merges (length row))
               alignment out.
Proof.
  induction alignment as [| row rest [out [Hrun Hlen]]]; simpl.
  - exists []. split; [reflexivity | constructor].
  - destruct (ungap_row_total merges row) as [row' [Hrow [Hle Hw]]].
    rewrite Hrow, Hrun; simpl.
    exists (row' :: out). split; [reflexivity | now constructor].
Qed.

Lemma rectangular_out (merges : list nat) (alignment out : list (list string)) :
  rectangular alignment ->
  Forall2 (fun row row' => length row' <= length row
                           /\ length row' = out_width merges (length row))
          alignment out ->
  rectangular out.
Proof.
  intros Hrect Hrows. destruct Hrows as [| row0 out0 rest outs [_ H0] Hrest];
    [contradiction |].
  simpl in *. induction Hrest as [| row row' rest outs [_ Hrow] Hrest IH];
    [constructor |].
  inversion Hrect as [| ? ? Hlen Hrect']; subst.
  constructor; [congruence | now apply IH].
Qed.

Lemma rectangular_columns (row0 : list string) (rest : list (list string)) :
  rectangular (row0 :: rest) ->
  forall i, In i (seq 0 (length row0)) -> column (row0 :: rest) i <> None.
Proof.
  simpl. intros Hrect i Hi. apply in_seq in Hi.
  destruct (column_exists (row0 :: rest) i) as [col Hcol]; [| congruence].
  constructor; [lia |].
  eapply Forall_impl; [| exact Hrect]. simpl. intros row Hrow. lia.
Qed.

Lemma ungap_unfold (row0 : list string) (rest : list (list string))
  (languages : list string) (proto : string) (merges : list nat) :
  find_merges (row0 :: rest) (pidxs_of languages proto) (seq 0 (length row0))
  = Some merges ->
  ungap (row0 :: rest) languages proto
  = match merges with
    | [] => Some (row0 :: rest)
    | _ :: _ => mapM (ungap_row merges) (row0 :: rest)
    end.
Proof. intros Hm. unfold ungap. rewrite Hm. reflexivity. Qed.

(** C8. On a rectangular alignment [ungap] returns a rectangular
    alignment; no row of the result is longer than the row it comes from,
    so the output width is at most the input width; and when no column
    qualifies as a merge target the result is the input alignment itself. *)
Theorem ungap_width_invariant (alignment : list (list string))
  (languages : list string) (proto : string) :
  rectangular alignment ->
  exists out,
    ungap alignment languages proto = Some out
    /\ rectangular out
    /\ Forall2 (fun row row' => length row' <= length row) alignment out
    /\ (no_merge_column alignment languages proto -> out = alignment).
Proof.
  intros Hrect. destruct alignment as [| row0 rest]; [contradiction |].
  pose proof (rectangular_columns row0 rest Hrect) as Hcols.
  set (pidxs := pidxs_of languages proto).
  assert (Hm : find_merges (row0 :: rest) pidxs (seq 0 (length row0))
               = Some (filter (merge_column (row0 :: rest) pidxs)
                         (seq 0 (length row0)))).
  { apply find_merges_spec. split; [exact Hcols | reflexivity]. }
  rewrite (ungap_unfold _ _ _ _ _ Hm).
  destruct (filter (merge_column (row0 :: rest) pidxs) (seq 0 (length row0)))
    as [| m ms] eqn:Ef.
  - exists (row0 :: rest). split; [reflexivity |]. split; [exact Hrect |].
    split; [| reflexivity].
    clear. induction (row0 :: rest); constructor; [lia | assumption].
  - destruct (ungap_rows_total (m :: ms) (row0 :: rest)) as [out [Hrun Hlen]].
    exists out. split; [exact Hrun |].
    split; [now apply (rectangular_out (m :: ms) (row0 :: rest)) |].
    split; [eapply Forall2_impl; [| exact Hlen]; simpl; tauto |].
    intros Hnone. exfalso.
    assert (Hin : In m (filter (merge_column (row0 :: rest) pidxs)
                          (seq 0 (length row0)))) by (rewrite Ef; now left).
    apply filter_In in Hin. destruct Hin as [_ Hin].
    unfold pidxs in Hin. rewrite (Hnone m) in Hin. discriminate.
Qed.

(** ** [ungap]: which input column an output column comes from *)

Lemma Forall2_In_l {A B : Type} (R : A -> B -> Prop) (l : list A) (l' : list B) :
  Forall2 R l l' -> forall x, In x l -> exists y, In y l' /\ R x y.
Proof.
  induction 1 as [| a b r r' Hab Hr IH]; intros x Hin; [easy |].
  destruct Hin as [<- | Hin].
  - exists b. split; [now left | assumption].
  - destruct (IH x Hin) as [y [Hy Hxy]]. exists y. split; [now right | assumption].
Qed.

Lemma Forall2_In_r {A B : Type} (R : A -> B -> Prop) (l : list A) (l' : list B) :
  Forall2 R l l' -> forall y, In y l' -> exists x, In x l /\ R x y.
Proof.
  induction 1 as [| a b r r' Hab Hr IH]; intros y Hin; [easy |].
  destruct Hin as [<- | Hin].
  - exists a. split; [now left | assumption].
  - destruct (IH y Hin) as [x [Hx Hxy]]. exists x. split; [now right | assumption].
Qed.

Lemma Forall2_nth_r {A B : Type} (R : A -> B -> Prop) (l : list A) (l' : list B) :
  Forall2 R l l' ->
  forall k y, nth_error l' k = Some y -> exists x, nth_error l k = Some x /\ R x y.
Proof.
  induction 1 as [| a b r r' Hab Hr IH]; intros k y Hk.
  - now destruct k.
  - destruct k as [| k]; simpl in *.
    + injection Hk as <-. now exists a.
    + now apply IH.
Qed.

Lemma filter_none {A : Type} (f : A -> bool) (l : list A) :
  (forall x, In x l -> f x = false) -> filter f l = [].
Proof.
  induction l as [| a r IH]; intros Hf; simpl; [reflexivity |].
  rewrite (Hf a (or_introl eq_refl)). apply IH. intros x Hx. apply Hf. now right.
Qed.

(** The [k]-th kept cell of a row that is at least [w] wide, for [k] among
    the kept columns below [w], is the cell at the [k]-th kept index. *)
Lemma keep_nth (merges : list nat) (row : list string) (w k i : nat) (c : string) :
  w <= length row ->
  nth_error (kept_indices merges 0 w) k = Some i ->
  nth_error (keep merges 0 row) k = Some c ->
  nth_error row i = Some c.
Proof.
  intros Hw Hi Hc.
  destruct (Forall2_nth_r _ _ _ (keep_indices merges row 0) k c Hc)
    as [i' [Hi' [_ Hnth]]].
  rewrite (kept_indices_prefix merges 0 w (length row) Hw) in Hi'.
  rewrite nth_error_app1 in Hi' by (apply nth_error_Some; congruence).
  rewrite Nat.sub_0_r in Hnth. congruence.
Qed.

Lemma gaps_at_intro (merges : list nat) (row : list string) :
  forall j,
    (forall i c, nth_error row i = Some c -> mem_nat (j + i) merges = true ->
                 c = "-"%string) ->
    gaps_at merges j row.
Proof.
  induction row as [| cell rest IH]; intros j Hg; simpl; [exact I |].
  split.
  - intros Hj. apply (Hg 0 cell); [reflexivity | now rewrite Nat.add_0_r].
  - apply IH. intros i c Hi Hm. apply (Hg (S i) c); [exact Hi |].
    now replace (j + S i) with (S j + i) by lia.
Qed.

(** ** [ungap]: marked columns *)

Lemma merge_column_gaps (alignment : list (list string)) (pidxs : list nat)
  (i : nat) :
  merge_column alignment pidxs i = true ->
  col_rest pidxs alignment <> []
  /\ forall row, In row (col_rest pidxs alignment) ->
                 nth_error row i = Some "-"%string.
Proof.
  unfold merge_column. destruct (column alignment i) as [col|] eqn:Ec;
    [| discriminate].
  intros Hm. apply is_merge_spec in Hm. destruct Hm as [Hne Hall].
  pose proof (col_rest_column alignment pidxs i col Ec) as Hrest.
  split.
  - intros Hnil. apply mapM_length in Hrest. rewrite Hnil in Hrest.
    destruct (col_rest pidxs col); [contradiction | discriminate].
  - intros row Hrow.
    destruct (column_In _ _ _ Hrest row Hrow) as [c [Hc Hin]].
    rewrite Forall_forall in Hall. now rewrite (Hall c Hin).
Qed.

Lemma merge_column_intro (alignment : list (list string)) (pidxs : list nat)
  (i : nat) :
  column alignment i <> None ->
  col_rest pidxs alignment <> [] ->
  (forall row, In row (col_rest pidxs alignment) ->
               nth_error row i = Some "-"%string) ->
  merge_column alignment pidxs i = true.
Proof.
  intros Hcol Hne Hall. unfold merge_column.
  destruct (column alignment i) as [col|] eqn:Ec; [| contradiction].
  pose proof (col_rest_column alignment pidxs i col Ec) as Hrest.
  rewrite (column_cells _ i "-"%string Hall) in Hrest.
  injection Hrest as <-. apply is_merge_spec. split.
  - destruct (col_rest pidxs alignment); [contradiction | discriminate].
  - apply Forall_forall. intros c Hc. apply in_map_iff in Hc.
    now destruct Hc as [_ [<- _]].
Qed.

Section Merges.
Variables (row0 : list string) (rest : list (list string)).
Variables (pidxs merges : list nat).
Hypothesis Hfind :
  find_merges (row0 :: rest) pidxs (seq 0 (length row0)) = Some merges.

Lemma merges_columns (i : nat) :
  i < length row0 -> column (row0 :: rest) i <> None.
Proof.
  intros Hi. apply find_merges_spec in Hfind. destruct Hfind as [Hcols _].
  apply Hcols. apply in_seq. lia.
Qed.

Lemma merges_marked (i : nat) :
  mem_nat i merges = true <->
  i < length row0 /\ merge_column (row0 :: rest) pidxs i = true.
Proof.
  apply find_merges_spec in Hfind. destruct Hfind as [_ ->].
  rewrite mem_nat_In, filter_In, in_seq. intuition lia.
Qed.

Lemma merges_rows_wide (row : list string) :
  In row (row0 :: rest) -> length row0 <= length row.
Proof.
  intros Hrow.
  destruct (Nat.eq_dec (length row0) 0) as [E0 | Hpos]; [lia |].
  pose proof (merges_columns (length row0 - 1)) as Hcol.
  destruct (column (row0 :: rest) (length row0 - 1)) as [col|] eqn:Ec.
  - destruct (column_In _ _ _ Ec row Hrow) as [c [Hc _]].
    assert (length row0 - 1 < length row) by (apply nth_error_Some; congruence).
    lia.
  - exfalso. apply Hcol; [lia | reflexivity].
Qed.

Lemma merges_gaps_at (row : list string) :
  In row (col_rest pidxs (row0 :: rest)) -> gaps_at merges 0 row.
Proof.
  intros Hrow. apply gaps_at_intro. simpl. intros i c Hc Hm.
  apply merges_marked in Hm. destruct Hm as [_ Hm].
  destruct (merge_column_gaps _ _ _ Hm) as [_ Hall].
  rewrite (Hall row Hrow) in Hc. congruence.
Qed.

(** A marked first column: every row comes back cell by cell. *)
Lemma ungap_rows_leading :
  mem_nat 0 merges = true ->
  mapM (ungap_row merges) (row0 :: rest) = Some (map (map regap) (row0 :: rest)).
Proof.
  intros H0. apply mapM_total. intros row _. now apply ungap_row_leading.
Qed.

Lemma leading_again :
  mem_nat 0 merges = true ->
  exists merges',
    find_merges (map (map regap) (row0 :: rest)) pidxs
      (seq 0 (length (map regap row0))) = Some merges'
    /\ mem_nat 0 merges' = true.
Proof.
  intros H0. apply merges_marked in H0. destruct H0 as [Hw H0].
  destruct (merge_column_gaps _ _ _ H0) as [Hne Hall].
  rewrite length_map.
  exists (filter (merge_column (map (map regap) (row0 :: rest)) pidxs)
            (seq 0 (length row0))).
  split.
  - apply find_merges_spec. split; [| reflexivity].
    intros i Hi. apply in_seq in Hi. rewrite column_map.
    pose proof (merges_columns i) as Hc.
    destruct (column (row0 :: rest) i); [discriminate | apply Hc; lia].
  - apply mem_nat_In, filter_In. split; [apply in_seq; lia |].
    apply merge_column_intro.
    + rewrite column_map. pose proof (merges_columns 0 Hw) as Hc.
      destruct (column (row0 :: rest) 0); [discriminate | contradiction].
    + rewrite col_rest_keep, keep_map, <- col_rest_keep.
      destruct (col_rest pidxs (row0 :: rest)); [contradiction | discriminate].
    + rewrite col_rest_keep, keep_map, <- col_rest_keep.
      intros row' Hrow'. apply in_map_iff in Hrow'.
      destruct Hrow' as [row [<- Hrow]].
      rewrite nth_error_map, (Hall row Hrow). reflexivity.
Qed.
End Merges.

Section Inner.
Variables (row0 : list string) (rest : list (list string)).
Variables (pidxs merges : list nat) (out : list (list string)).
Hypothesis Hfind :
  find_merges (row0 :: rest) pidxs (seq 0 (length row0)) = Some merges.
Hypothesis Hsome : merges <> [].
Hypothesis Hfirst : mem_nat 0 merges = false.
Hypothesis Hcells :
  Forall (Forall (fun cell => cell <> ""%string))
         (col_rest pidxs (row0 :: rest)).
Hypothesis Hout : mapM (ungap_row merges) (row0 :: rest) = Some out.

Lemma inner_rows :
  Forall2 (fun row row' => ungap_row merges row = Some row') (row0 :: rest) out.
Proof. now apply mapM_Forall2. Qed.

Lemma inner_row_width (row row' : list string) :
  In row (row0 :: rest) -> ungap_row merges row = Some row' ->
  kept_width merges row0 <= length row'.
Proof.
  intros Hrow Hrun.
  destruct (ungap_row_inner merges row Hfirst) as [o [Ho [Hlen _]]].
  assert (o = row') by congruence. subst o.
  rewrite Hlen, keep_length_indices.
  pose proof (merges_rows_wide _ _ _ _ Hfind row Hrow) as Hw.
  rewrite (kept_indices_prefix merges 0 _ _ Hw), length_app.
  unfold kept_width. lia.
Qed.

Lemma inner_first_row :
  exists out0 outs, out = out0 :: outs /\ length out0 = kept_width merges row0.
Proof.
  pose proof inner_rows as Hrows.
  inversion Hrows as [| r o rs os Hr Hrs]; subst.
  exists o, os. split; [reflexivity |].
  destruct (ungap_row_inner merges row0 Hfirst) as [o' [Ho [Hlen _]]].
  assert (o' = o) by congruence. subst o'.
  rewrite Hlen. apply keep_length_indices.
Qed.

Lemma inner_other_rows (row : list string) :
  In row (col_rest pidxs (row0 :: rest)) ->
  In (map regap (keep merges 0 row)) (col_rest pidxs out).
Proof.
  intros Hrow.
  assert (Hrows : Forall2 (fun r r' => ungap_row merges r = Some r')
                    (col_rest pidxs (row0 :: rest)) (col_rest pidxs out)).
  { rewrite !col_rest_keep. apply keep_Forall2. exact inner_rows. }
  destruct (Forall2_In_l _ _ _ Hrows row Hrow) as [row' [Hin Hrun]].
  destruct (ungap_row_inner merges row Hfirst) as [o [Ho [_ Hgap]]].
  rewrite <- (Hgap (merges_gaps_at _ _ _ _ Hfind row Hrow)).
  congruence.
Qed.

Lemma inner_column_exists (k : nat) :
  k < kept_width merges row0 -> column out k <> None.
Proof.
  intros Hk.
  destruct (column_exists out k) as [col ->]; [| discriminate].
  apply Forall_forall. intros row' Hrow'.
  destruct (Forall2_In_r _ _ _ inner_rows row' Hrow') as [row [Hrow Hrun]].
  pose proof (inner_row_width row row' Hrow Hrun). lia.
Qed.

(** No column of the result is marked: its source column would be. *)
Lemma inner_column_unmarked (k : nat) :
  k < kept_width merges row0 -> merge_column out pidxs k = false.
Proof.
  intros Hk. destruct (merge_column out pidxs k) eqn:Em; [| reflexivity].
  exfalso.
  destruct (merge_column_gaps _ _ _ Em) as [_ Hall].
  destruct (nth_error (kept_indices merges 0 (length row0)) k) as [i|] eqn:Ei;
    [| apply nth_error_None in Ei; unfold kept_width in Hk; lia].
  assert (Hi : In i (kept_indices merges 0 (length row0)))
    by (eapply nth_error_In; eauto).
  apply filter_In in Hi. destruct Hi as [Hi Hkept].
  apply in_seq in Hi. apply negb_true_iff in Hkept.
  assert (Hmarked : merge_column (row0 :: rest) pidxs i = true).
  { apply merge_column_intro.
    - apply (merges_columns _ _ _ _ Hfind). lia.
    - destruct merges as [| m ms]; [contradiction |].
      assert (Hm : mem_nat m (m :: ms) = true) by (apply mem_nat_In; now left).
      apply (merges_marked _ _ _ _ Hfind) in Hm. destruct Hm as [_ Hm].
      now destruct (merge_column_gaps _ _ _ Hm).
    - intros row Hrow.
      pose proof (Hall _ (inner_other_rows row Hrow)) as Hnth.
      rewrite nth_error_map in Hnth.
      destruct (nth_error (keep merges 0 row) k) as [c|] eqn:Ec;
        [| discriminate].
      simpl in Hnth.
      assert (Hrow' : In row (row0 :: rest))
        by (rewrite col_rest_keep in Hrow; eapply keep_In; eauto).
      rewrite (keep_nth merges row (length row0) k i c
                 (merges_rows_wide _ _ _ _ Hfind row Hrow') Ei Ec).
      rewrite Forall_forall in Hcells. specialize (Hcells row Hrow).
      rewrite Forall_forall in Hcells.
      assert (Hc : In c row).
      { eapply nth_error_In.
        apply (keep_nth merges row (length row0) k i c
                 (merges_rows_wide _ _ _ _ Hfind row Hrow') Ei Ec). }
      rewrite (regap_nonempty c (Hcells c Hc)) in Hnth. exact Hnth. }
  assert (Hin : mem_nat i merges = true)
    by (apply (merges_marked _ _ _ _ Hfind); split; [lia | assumption]).
  congruence.
Qed.

Lemma inner_stable (languages : list string) (proto : string) :
  pidxs = pidxs_of languages proto -> ungap out languages proto = Some out.
Proof.
  intros Hp. destruct inner_first_row as [out0 [outs [Ho Hlen]]].
  assert (Hnone : find_merges out pidxs (seq 0 (length out0)) = Some []).
  { apply find_merges_spec. split.
    - intros k Hk. apply in_seq in Hk. apply inner_column_exists. lia.
    - symmetry. apply filter_none. intros k Hk. apply in_seq in Hk.
      apply inner_column_unmarked. lia. }
  rewrite Hp in Hnone. rewrite Ho in *.
  now rewrite (ungap_unfold _ _ _ _ _ Hnone).
Qed.
End Inner.

(** When the first column is marked, nothing is merged at all: the
    alignment comes back with every column in place. *)
Lemma ungap_leading (row0 : list string) (rest : list (list string))
  (languages : list string) (proto : string) (merges : list nat) :
  find_merges (row0 :: rest) (pidxs_of languages proto) (seq 0 (length row0))
  = Some merges ->
  mem_nat 0 merges = true ->
  ungap (row0 :: rest) languages proto = Some (map (map regap) (row0 :: rest)).
Proof.
  intros Hfind H0. rewrite (ungap_unfold _ _ _ _ _ Hfind).
  destruct merges as [| m ms]; [discriminate |].
  now apply (ungap_rows_leading row0 rest).
Qed.

(** C7. On every alignment matrix, whose cells are symbols or the gap, so
    that no cell of a row other than the reference language's is the empty
    string, applying [ungap] to its own result gives that result again; this
    covers the inputs on which [ungap] raises, where both sides raise. *)
Theorem ungap_idempotent (alignment : list (list string))
  (languages : list string) (proto : string) :
  Forall (Forall (fun cell => cell <> ""%string))
         (other_rows alignment languages proto) ->
  ungap_twice alignment languages proto = ungap alignment languages proto.
Proof.
  unfold other_rows, ungap_twice. intros Hcells.
  destruct alignment as [| row0 rest]; [reflexivity |].
  destruct (find_merges (row0 :: rest) (pidxs_of languages proto)
              (seq 0 (length row0))) as [merges|] eqn:Hfind.
  - destruct (mem_nat 0 merges) eqn:E0.
    + rewrite (ungap_leading _ _ _ _ _ Hfind E0). cbn [bind].
      destruct (leading_again _ _ _ _ Hfind E0) as [merges' [Hfind' E0']].
      change (map (map regap) (row0 :: rest))
        with (map regap row0 :: map (map regap) rest) in *.
      rewrite (ungap_leading _ _ _ _ _ Hfind' E0'). f_equal.
      change (map regap row0 :: map (map regap) rest)
        with (map (map regap) (row0 :: rest)).
      rewrite map_map. apply map_ext. intros row.
      rewrite map_map. apply map_ext. intros c. apply regap_idempotent.
    + rewrite (ungap_unfold _ _ _ _ _ Hfind).
      destruct merges as [| m ms].
      * cbn [bind]. apply (ungap_unfold _ _ _ _ _ Hfind).
      * destruct (ungap_rows_total (m :: ms) (row0 :: rest)) as [out [Hout _]].
        rewrite Hout. cbn [bind].
        apply (inner_stable row0 rest (pidxs_of languages proto) (m :: ms));
          try assumption; [discriminate | reflexivity].
  - unfold ungap. rewrite Hfind. reflexivity.
Qed.

(** ** Python dictionaries *)

Section PyDictFacts.
Context {K V : Type} `{EqDec K}.
Implicit Types (d : list (K * V)) (k : K) (v : V).

Lemma get_set_same d k v : PyDict.get (PyDict.set d k v) k = Some v.
Proof.
  induction d as [| [k' v'] r IH]; simpl.
  - now destruct (eq_dec k k).
  - destruct (eq_dec k k') as [-> | Hne]; simpl.
    + now destruct (eq_dec k' k').
    + now destruct (eq_dec k k').
Qed.

Lemma get_set_other d k k' v :
  k' <> k -> PyDict.get (PyDict.set d k v) k' = PyDict.get d k'.
Proof.
  intros Hne. induction d as [| [k0 v0] r IH]; simpl.
  - now destruct (eq_dec k' k).
  - destruct (eq_dec k k0) as [-> | Hk]; simpl.
    + now destruct (eq_dec k' k0).
    + destruct (eq_dec k' k0); [reflexivity | exact IH].
Qed.

Lemma get_In d k v : PyDict.get d k = Some v -> In (k, v) d.
Proof.
  induction d as [| [k' v'] r IH]; simpl; [discriminate |].
  destruct (eq_dec k k') as [-> | Hne].
  - intros Hx. injection Hx as ->. now left.
  - intros Hx. right. now apply IH.
Qed.

Lemma get_keys d k : In k (PyDict.keys d) <-> exists v, PyDict.get d k = Some v.
Proof.
  induction d as [| [k' v'] r IH]; simpl.
  - split; [tauto | intros [v Hv]; discriminate].
  - destruct (eq_dec k k') as [-> | Hne].
    + split; [intros _; now exists v' | intros _; now left].
    + rewrite <- IH. split; [intros [Hk | Hk]; [congruence | exact Hk] | tauto].
Qed.

Lemma get_nodup d k v :
  NoDup (PyDict.keys d) -> In (k, v) d -> PyDict.get d k = Some v.
Proof.
  induction d as [| [k' v'] r IH]; simpl; [tauto |].
  intros Hnd Hin. inversion Hnd as [| ? ? Hout Hnd']; subst.
  destruct Hin as [Heq | Hin].
  - injection Heq as -> ->. now destruct (eq_dec k k).
  - destruct (eq_dec k k') as [-> | Hne]; [| now apply IH].
    exfalso. apply Hout. change k' with (fst (k', v)). now apply in_map.
Qed.

Lemma keys_set d k v k' :
  In k' (PyDict.keys (PyDict.set d k v)) <-> k' = k \/ In k' (PyDict.keys d).
Proof.
  rewrite !get_keys. destruct (eq_dec k' k) as [-> | Hne].
  - rewrite get_set_same. split; [now left | now exists v].
  - rewrite (get_set_other d k k' v Hne). tauto.
Qed.

Lemma values_set d k v v' :
  In v' (PyDict.values (PyDict.set d k v)) -> v' = v \/ In v' (PyDict.values d).
Proof.
  induction d as [| [k0 v0] r IH]; simpl.
  - intros [<- | []]. now left.
  - destruct (eq_dec k k0); simpl.
    + intros [<- | Hin]; [now left | right; now right].
    + intros [<- | Hin]; [right; now left |].
      destruct (IH Hin); [now left | right; now right].
Qed.

Lemma values_set_NoDup d k v :
  NoDup (PyDict.values d) -> ~ In v (PyDict.values d) ->
  NoDup (PyDict.values (PyDict.set d k v)).
Proof.
  induction d as [| [k0 v0] r IH]; simpl; intros Hnd Hout.
  - constructor; [tauto | constructor].
  - inversion Hnd as [| ? ? Hv0 Hnd']; subst.
    destruct (eq_dec k k0); simpl.
    + constructor; [tauto | assumption].
    + constructor; [| apply IH; tauto].
      intros Hin. apply values_set in Hin. destruct Hin as [-> | Hin]; tauto.
Qed.

Lemma set_fresh d k v :
  ~ In k (PyDict.keys d) -> PyDict.set d k v = d ++ [(k, v)].
Proof.
  induction d as [| [k0 v0] r IH]; simpl; intros Hout; [reflexivity |].
  destruct (eq_dec k k0) as [-> | Hne]; [tauto |].
  rewrite IH by tauto. reflexivity.
Qed.

Lemma of_list_from (pairs : list (K * V)) :
  forall d,
    NoDup (PyDict.keys d ++ map fst pairs) ->
    fold_left (fun acc kv => PyDict.set acc (fst kv) (snd kv)) pairs d
    = d ++ pairs.
Proof.
  induction pairs as [| [k v] r IH]; intros d Hnd; simpl.
  - now rewrite app_nil_r.
  - assert (Hout : ~ In k (PyDict.keys d)).
    { apply NoDup_remove_2 in Hnd. intros Hin. apply Hnd.
      apply in_or_app. now left. }
    rewrite (set_fresh d k v Hout), IH.
    + now rewrite <- app_assoc.
    + unfold PyDict.keys. rewrite map_app, <- app_assoc. exact Hnd.
Qed.

(** Without repeated keys, [dict(pairs)] holds the pairs in order. *)
Lemma of_list_nodup (pairs : list (K * V)) :
  NoDup (map fst pairs) -> PyDict.of_list pairs = pairs.
Proof. intros Hnd. unfold PyDict.of_list. now rewrite of_list_from. Qed.

Lemma keys_of_list (pairs : list (K * V)) k :
  In k (PyDict.keys (PyDict.of_list pairs)) <-> In k (map fst pairs).
Proof.
  unfold PyDict.of_list.
  assert (Hgen : forall d,
    In k (PyDict.keys
            (fold_left (fun acc kv => PyDict.set acc (fst kv) (snd kv)) pairs d))
    <-> In k (PyDict.keys d) \/ In k (map fst pairs)).
  { induction pairs as [| [k0 v0] r IH]; intros d; simpl; [tauto |].
    rewrite IH, keys_set. intuition. }
  rewrite Hgen. simpl. tauto.
Qed.

Lemma values_of_list (pairs : list (K * V)) v :
  In v (PyDict.values (PyDict.of_list pairs)) -> In v (map snd pairs).
Proof.
  unfold PyDict.of_list.
  assert (Hgen : forall d,
    In v (PyDict.values
            (fold_left (fun acc kv => PyDict.set acc (fst kv) (snd kv)) pairs d))
    -> In v (PyDict.values d) \/ In v (map snd pairs)).
  { induction pairs as [| [k0 v0] r IH]; intros d; simpl; [tauto |].
    intros Hin. apply IH in Hin. destruct Hin as [Hin | Hin]; [| tauto].
    apply values_set in Hin. intuition. }
  intros Hin. apply Hgen in Hin. simpl in Hin. tauto.
Qed.

Lemma update_nil k (dflt : V) (f : V -> V) :
  PyDict.update [] k dflt f = [(k, f dflt)].
Proof. reflexivity. Qed.

Lemma update_cons d k k' v' (dflt : V) (f : V -> V) :
  PyDict.update ((k', v') :: d) k dflt f
  = if eq_dec k k' then (k', f v') :: d
    else (k', v') :: PyDict.update d k dflt f.
Proof.
  unfold PyDict.update, PyDict.get_default. simpl.
  now destruct (eq_dec k k').
Qed.
End PyDictFacts.

Lemma set_In {K V : Type} `{EqDec K} (d : list (K * V)) (k k' : K) (v v' : V) :
  In (k', v') (PyDict.set d k v) -> (k' = k /\ v' = v) \/ In (k', v') d.
Proof.
  induction d as [| [k0 v0] r IH]; simpl.
  - intros [Heq | []]. injection Heq as <- <-. now left.
  - destruct (eq_dec k k0) as [-> | Hne]; simpl.
    + intros [Heq | Hin]; [injection Heq as <- <-; now left | right; now right].
    + intros [Heq | Hin]; [right; now left |].
      destruct (IH Hin); [now left | right; now right].
Qed.

Lemma of_list_In {K V : Type} `{EqDec K} (pairs : list (K * V)) (k : K) (v : V) :
  In (k, v) (PyDict.of_list pairs) -> In (k, v) pairs.
Proof.
  unfold PyDict.of_list.
  assert (Hgen : forall d,
    In (k, v) (fold_left (fun acc kv => PyDict.set acc (fst kv) (snd kv)) pairs d)
    -> In (k, v) d \/ In (k, v) pairs).
  { induction pairs as [| [k0 v0] r IH]; intros d; simpl; [tauto |].
    intros Hin. apply IH in Hin. destruct Hin as [Hin | Hin]; [| tauto].
    apply set_In in Hin. destruct Hin as [[-> ->] | Hin]; tauto. }
  intros Hin. apply Hgen in Hin. simpl in Hin. tauto.
Qed.

(** ** Sets and [sorted] *)

Lemma set_add_In (l : list string) (x s : string) :
  In s (set_add l x) <-> In s l \/ s = x.
Proof.
  unfold set_add. destruct (mem_str x l) eqn:E.
  - apply mem_str_In in E. split; [tauto | intros [Hs | ->]; assumption].
  - rewrite in_app_iff. simpl. intuition.
Qed.

Lemma set_add_NoDup (l : list string) (x : string) :
  NoDup l -> NoDup (set_add l x).
Proof.
  intros Hnd. unfold set_add. destruct (mem_str x l) eqn:E; [assumption |].
  apply NoDup_app; [assumption | constructor; [tauto | constructor] |].
  intros s Hs [<- | []]. apply mem_str_In in Hs. congruence.
Qed.

Lemma fold_set_add_In (xs l : list string) (s : string) :
  In s (fold_left set_add xs l) <-> In s l \/ In s xs.
Proof.
  revert l. induction xs as [| x r IH]; intros l; simpl; [tauto |].
  rewrite IH, set_add_In. intuition.
Qed.

Lemma fold_set_add_NoDup (xs l : list string) :
  NoDup l -> NoDup (fold_left set_add xs l).
Proof.
  revert l. induction xs as [| x r IH]; intros l Hnd; simpl; [assumption |].
  apply IH. now apply set_add_NoDup.
Qed.

Lemma insert_sorted_perm (x : string) (l : list string) :
  Permutation (insert_sorted x l) (x :: l).
Proof.
  induction l as [| y r IH]; simpl; [reflexivity |].
  destruct (String.leb x y); [reflexivity |].
  rewrite IH. apply perm_swap.
Qed.

Lemma sorted_perm (l : list string) : Permutation (sorted l) l.
Proof.
  induction l as [| x r IH]; simpl; [reflexivity |].
  rewrite insert_sorted_perm. now constructor.
Qed.

(** ** The codec of [fit] *)

Lemma range_NoDup (a n : nat) : NoDup (range a n).
Proof.
  unfold range. apply Finite.Injective_map_NoDup; [| apply seq_NoDup].
  intros x y Hxy. now apply Nat2Z.inj.
Qed.

Lemma range_ge (a n : nat) (z : Z) : In z (range a n) -> (Z.of_nat a <= z)%Z.
Proof.
  unfold range. rewrite in_map_iff. intros [x [<- Hx]].
  apply in_seq in Hx. lia.
Qed.

Section Codec.
Context {C : Type} `{Classifier C}.
Variables (b : Baseline.t C) (sounds : list string).

Local Abbreviation ranked := (ranked_codes sounds).

Lemma ranked_lengths : length (sorted sounds) = length (range 2 (length sounds)).
Proof.
  unfold range. rewrite length_map, length_seq.
  apply Permutation_length, sorted_perm.
Qed.

Lemma ranked_keys : map fst ranked = sorted sounds.
Proof.
  unfold ranked. pose proof ranked_lengths as Hlen.
  revert Hlen. generalize (range 2 (length sounds)) as vs.
  induction (sorted sounds) as [| k ks IH]; intros [| v vs] Hlen; simpl in *;
    try discriminate; [reflexivity |].
  f_equal. apply IH. congruence.
Qed.

Lemma ranked_values (z : Z) : In z (map snd ranked) -> (2 <= z)%Z.
Proof.
  intros Hin. apply in_map_iff in Hin. destruct Hin as [[k v] [<- Hin]].
  apply in_combine_r in Hin. now apply range_ge in Hin.
Qed.

Lemma ranked_values_NoDup : NoDup (map snd ranked).
Proof.
  unfold ranked. pose proof (range_NoDup 2 (length sounds)) as Hnd.
  revert Hnd. generalize (range 2 (length sounds)) as vs.
  induction (sorted sounds) as [| k ks IH]; intros [| v vs] Hnd; simpl;
    try constructor.
  - inversion Hnd as [| ? ? Hout Hnd']; subst. intros Hin. apply Hout.
    apply in_map_iff in Hin. destruct Hin as [[k' v'] [<- Hin]].
    now apply in_combine_r in Hin.
  - apply IH. now inversion Hnd.
Qed.

(** The symbols of the codec: those seen, the gap and the missing symbol. *)
Lemma make_sound2idx_keys (s : string) :
  In s (PyDict.keys (Baseline.make_sound2idx b sounds)) <->
  In s sounds \/ s = Baseline.gap b \/ s = Baseline.missing b.
Proof.
  unfold Baseline.make_sound2idx. fold ranked.
  rewrite !keys_set, keys_of_list, ranked_keys.
  split.
  - intros [Hs | [Hs | Hs]]; try tauto.
    left. eapply Permutation_in; [apply sorted_perm | exact Hs].
  - intros [Hs | [Hs | Hs]]; try tauto.
    right. right. eapply Permutation_in; [symmetry; apply sorted_perm | exact Hs].
Qed.



(** No two symbols share a code. *)
Lemma make_sound2idx_injective :
  NoDup sounds -> NoDup (PyDict.values (Baseline.make_sound2idx b sounds)).
Proof.
  intros Hset.
  unfold Baseline.make_sound2idx. fold ranked.
  assert (Hge : forall z, In z (PyDict.values (PyDict.of_list ranked)) ->
                          (2 <= z)%Z).
  { intros z Hz. apply ranked_values. now apply values_of_list. }
  assert (Hnd : NoDup (PyDict.values (PyDict.of_list ranked))).
  { rewrite of_list_nodup; [apply ranked_values_NoDup |].
    rewrite ranked_keys.
    eapply Permutation_NoDup; [symmetry; apply sorted_perm | exact Hset]. }
  apply values_set_NoDup.
  - apply values_set_NoDup; [exact Hnd |].
    intros Hin. apply Hge in Hin. lia.
  - intros Hin. apply values_set in Hin. destruct Hin as [Hin | Hin]; [lia |].
    apply Hge in Hin. lia.
Qed.

(** Decoding undoes encoding. *)
Lemma codec_round_trip (s : string) (code : Z) :
  NoDup sounds ->
  PyDict.get (Baseline.make_sound2idx b sounds) s = Some code ->
  PyDict.get (Baseline.make_idx2sound (Baseline.make_sound2idx b sounds)) code
  = Some s.
Proof.
  intros Hset Hget. apply get_In in Hget.
  pose proof (make_sound2idx_injective Hset) as Hinj.
  set (s2i := Baseline.make_sound2idx b sounds) in *.
  unfold Baseline.make_idx2sound.
  assert (Hkeys : map fst (map (fun kv : string * Z => (snd kv, fst kv)) s2i)
                  = PyDict.values s2i).
  { unfold PyDict.values. rewrite map_map. reflexivity. }
  rewrite of_list_nodup by (rewrite Hkeys; exact Hinj).
  apply get_nodup.
  - unfold PyDict.keys. rewrite Hkeys. exact Hinj.
  - apply in_map_iff. exists (s, code). split; [reflexivity | exact Hget].
Qed.

(** Every decoded symbol is a symbol of the codec. *)
Lemma decoded_in_codec (s : string) (code : Z) :
  PyDict.get (Baseline.make_idx2sound (Baseline.make_sound2idx b sounds)) code
  = Some s ->
  In s (PyDict.keys (Baseline.make_sound2idx b sounds)).
Proof.
  intros Hget. apply get_In in Hget. unfold Baseline.make_idx2sound in Hget.
  apply of_list_In in Hget. apply in_map_iff in Hget.
  destruct Hget as [[k v] [Heq Hin]]. simpl in Heq. injection Heq as <- <-.
  change k with (fst (k, v)). now apply in_map.
Qed.
End Codec.

(** ** Loops that may raise *)

Lemma foldM_invariant {A S : Type} (f : S -> A -> option S) (P : S -> Prop)
  (l : list A) :
  (forall s a s', In a l -> P s -> f s a = Some s' -> P s') ->
  forall s s', P s -> foldM f l s = Some s' -> P s'.
Proof.
  induction l as [| a r IH]; intros Hstep s s' Hs; simpl.
  - intros Hx. injection Hx as <-. exact Hs.
  - destruct (f s a) as [s1|] eqn:E; simpl; [| discriminate].
    apply IH.
    + intros s2 a' s3 Hin. apply Hstep. now right.
    + eapply Hstep; eauto. now left.
Qed.

Lemma enumerate_In {A : Type} (l : list A) (i : nat) (x : A) :
  In (i, x) (enumerate l) -> In x l.
Proof. unfold enumerate. apply in_combine_r. Qed.

Lemma filter_length_lt {A : Type} (f : A -> bool) (l : list A) (x : A) :
  In x l -> f x = false -> length (filter f l) < length l.
Proof.
  induction l as [| a r IH]; simpl; [tauto |].
  intros [-> | Hin] Hf.
  - rewrite Hf. pose proof (filter_length_le f r). lia.
  - specialize (IH Hin Hf). destruct (f a); simpl; lia.
Qed.

(** ** [fit]: the patterns and the symbols seen *)

Lemma pattern_symbols_cons (ptn : list string)
  (by_label : dict string (list (string * nat))) (ps : Baseline.Patterns) :
  pattern_symbols ((ptn, by_label) :: ps)
  = (ptn ++ PyDict.keys by_label) ++ pattern_symbols ps.
Proof. reflexivity. Qed.

Lemma pattern_symbols_update (mine : Baseline.Patterns) (ptn : list string)
  (lbl : string) (g : list (string * nat) -> list (string * nat)) (s : string) :
  In s (pattern_symbols
          (PyDict.update mine ptn []
             (fun by_label => PyDict.update by_label lbl [] g)))
  <-> In s (pattern_symbols mine) \/ In s ptn \/ s = lbl.
Proof.
  induction mine as [| [k v] r IH].
  - rewrite update_nil, pattern_symbols_cons, !in_app_iff. simpl. intuition.
  - rewrite update_cons. destruct (eq_dec ptn k) as [-> | Hne].
    + rewrite !pattern_symbols_cons, !in_app_iff.
      unfold PyDict.update at 1. rewrite keys_set. intuition.
    + rewrite !pattern_symbols_cons, !in_app_iff, IH. intuition.
Qed.

Lemma label_in_context (n : nat) (row : list string) (lbl : string) :
  1 <= n -> Baseline.label n row = Some lbl -> In lbl (Baseline.context n row).
Proof.
  unfold Baseline.label, Baseline.context. intros Hn Hl.
  apply in_or_app. left. apply (nth_error_In _ (n - 1)).
  rewrite nth_error_firstn.
  destruct (Nat.ltb_spec (n - 1) n); [assumption | lia].
Qed.

Lemma last_is_label (n : nat) (row : list string) (lbl lst : string) :
  1 <= n -> length row <= n ->
  Baseline.label n row = Some lbl -> Baseline.last_cell row = Some lst ->
  lst = lbl.
Proof.
  unfold Baseline.label, Baseline.last_cell. intros Hn Hlen Hl Hs.
  assert (n - 1 < length row) by (apply nth_error_Some; congruence).
  replace (length row - 1) with (n - 1) in Hs by lia. congruence.
Qed.

Section Extraction.
Context {C : Type} `{Classifier C}.

Lemma extract_row_inv (n : nat) (language cog : string)
  (x x' : Baseline.extraction) (i : nat) (row : list string) :
  Baseline.extract_row n language cog x (i, row) = Some x' ->
  exists mine lbl lst,
    PyDict.get (Baseline.ex_patterns x) language = Some mine
    /\ Baseline.label n row = Some lbl
    /\ Baseline.last_cell row = Some lst
    /\ Baseline.ex_patterns x'
       = PyDict.set (Baseline.ex_patterns x) language
           (PyDict.update mine (Baseline.context n row) []
              (fun by_label =>
                 PyDict.update by_label lbl [] (fun occ => occ ++ [(cog, i)])))
    /\ Baseline.ex_sounds x'
       = set_add (fold_left set_add (Baseline.context n row)
                    (Baseline.ex_sounds x)) lst.
Proof.
  unfold Baseline.extract_row. intros Hrun.
  returned Hrun as lbl. returned Hrun as mine. returned Hrun as lst.
  injection Hrun as <-. exists mine, lbl, lst. simpl. auto.
Qed.

Lemma extract_row_covers (n : nat) (language cog : string)
  (x x' : Baseline.extraction) (ir : nat * list string) :
  1 <= n ->
  Baseline.extract_row n language cog x ir = Some x' ->
  covers x /\ NoDup (Baseline.ex_sounds x) ->
  covers x' /\ NoDup (Baseline.ex_sounds x').
Proof.
  destruct ir as [i row]. intros Hn Hrun [Hcov Hnd].
  destruct (extract_row_inv _ _ _ _ _ _ _ Hrun)
    as [mine [lbl [lst [Hmine [Hlbl [Hlst [Hp Hs]]]]]]].
  split.
  - intros L ps s Hget Hin. rewrite Hs, set_add_In, fold_set_add_In.
    rewrite Hp in Hget. destruct (string_dec L language) as [-> | Hne].
    + rewrite get_set_same in Hget. injection Hget as <-.
      apply pattern_symbols_update in Hin.
      destruct Hin as [Hin | [Hin | ->]].
      * left. left. eapply Hcov; eauto.
      * left. now right.
      * left. right. now apply label_in_context.
    + rewrite get_set_other in Hget by assumption.
      left. left. eapply Hcov; eauto.
  - rewrite Hs. now apply set_add_NoDup, fold_set_add_NoDup.
Qed.

Lemma extract_row_covered (n : nat) (language cog : string)
  (x x' : Baseline.extraction) (ir : nat * list string) :
  1 <= n -> length (snd ir) <= n ->
  Baseline.extract_row n language cog x ir = Some x' ->
  covered x -> covered x'.
Proof.
  destruct ir as [i row]. simpl. intros Hn Hlen Hrun Hcov s Hin.
  destruct (extract_row_inv _ _ _ _ _ _ _ Hrun)
    as [mine [lbl [lst [Hmine [Hlbl [Hlst [Hp Hs]]]]]]].
  rewrite Hs, set_add_In, fold_set_add_In in Hin. rewrite Hp.
  assert (Hnew : forall s', In s' (pattern_symbols mine)
                            \/ In s' (Baseline.context n row) \/ s' = lbl ->
            exists L ps,
              PyDict.get (PyDict.set (Baseline.ex_patterns x) language
                (PyDict.update mine (Baseline.context n row) []
                   (fun by_label =>
                      PyDict.update by_label lbl []
                        (fun occ => occ ++ [(cog, i)])))) L = Some ps
              /\ In s' (pattern_symbols ps)).
  { intros s' Hs'. eexists language, _. rewrite get_set_same.
    split; [reflexivity |]. now apply pattern_symbols_update. }
  destruct Hin as [[Hin | Hin] | ->].
  - destruct (Hcov s Hin) as [L [ps [Hget Hps]]].
    destruct (string_dec L language) as [-> | Hne].
    + apply Hnew. left. congruence.
    + exists L, ps. now rewrite get_set_other.
  - apply Hnew. tauto.
  - apply Hnew. right. right. eapply last_is_label; eauto.
Qed.

Lemma extract_entry_covers (b : Baseline.t C) (fn : AlignFunc)
  (language : string) (x x' : Baseline.extraction) (e : Baseline.entry) :
  In language (Baseline.languages b) ->
  Baseline.extract_entry b fn language x e = Some x' ->
  covers x /\ NoDup (Baseline.ex_sounds x) ->
  covers x' /\ NoDup (Baseline.ex_sounds x').
Proof.
  intros Hl Hrun Hx. unfold Baseline.extract_entry in Hrun.
  eapply (foldM_invariant _
            (fun s => covers s /\ NoDup (Baseline.ex_sounds s)));
    [| exact Hx | exact Hrun].
  intros s a s' _ Hs Hstep.
  apply (extract_row_covers (length (Baseline.languages b)) language
           (Baseline.cogid e) s s' a); try assumption.
  destruct (Baseline.languages b); [contradiction | simpl; lia].
Qed.

Lemma extract_entry_covered (b : Baseline.t C) (fn : AlignFunc)
  (language : string) (x x' : Baseline.extraction) (e : Baseline.entry) :
  cell_per_language fn ->
  In language (Baseline.languages b) ->
  Baseline.extract_entry b fn language x e = Some x' ->
  covered x -> covered x'.
Proof.
  intros Hfn Hl Hrun Hx. unfold Baseline.extract_entry in Hrun.
  eapply (foldM_invariant _ covered); [| exact Hx | exact Hrun].
  intros s [i row] s' Hin Hs Hstep.
  apply (extract_row_covered (length (Baseline.languages b)) language
           (Baseline.cogid e) s s' (i, row)); try assumption.
  - destruct (Baseline.languages b); [contradiction | simpl; lia].
  - simpl. apply enumerate_In in Hin.
    specialize (Hfn (Baseline.alms e) (Baseline.entry_languages e)
                  (filter (fun l => negb (String.eqb l language))
                          (Baseline.languages b) ++ [language]) true).
    rewrite Forall_forall in Hfn. rewrite (Hfn row Hin), length_app. simpl.
    assert (length (filter (fun l => negb (String.eqb l language))
                      (Baseline.languages b))
            < length (Baseline.languages b)).
    { apply (filter_length_lt _ _ language Hl).
      now rewrite String.eqb_refl. }
    lia.
Qed.

Lemma extract_covers (b : Baseline.t C) (fn : AlignFunc)
  (x : Baseline.extraction) :
  Baseline.extract b fn = Some x ->
  covers x /\ NoDup (Baseline.ex_sounds x).
Proof.
  unfold Baseline.extract. intros Hrun.
  eapply (foldM_invariant _
            (fun s => covers s /\ NoDup (Baseline.ex_sounds s)));
    [| | exact Hrun].
  - intros s language s' Hl Hs Hstep. returned Hstep as es.
    eapply (foldM_invariant _
              (fun s => covers s /\ NoDup (Baseline.ex_sounds s)));
      [| exact Hs | exact Hstep].
    intros s1 e s2 _ Hs1 Hstep1. eapply extract_entry_covers; eauto.
  - split; [| constructor]. intros L ps s Hget Hin. simpl in *.
    apply get_In, of_list_In, in_map_iff in Hget.
    destruct Hget as [l [Heq _]]. injection Heq as _ <-. contradiction.
Qed.

Lemma extract_covered (b : Baseline.t C) (fn : AlignFunc)
  (x : Baseline.extraction) :
  cell_per_language fn ->
  Baseline.extract b fn = Some x -> covered x.
Proof.
  unfold Baseline.extract. intros Hfn Hrun.
  eapply (foldM_invariant _ covered); [| | exact Hrun].
  - intros s language s' Hl Hs Hstep. returned Hstep as es.
    eapply (foldM_invariant _ covered); [| exact Hs | exact Hstep].
    intros s1 e s2 _ Hs1 Hstep1. eapply extract_entry_covered; eauto.
  - intros s [].
Qed.
End Extraction.

(** ** [fit] and [predict] *)

Section Fit.
Context {C : Type} `{Classifier C}.
Variables (b : Baseline.t C) (fn : AlignFunc) (f : Baseline.fitted C).
Hypothesis Hfit : Baseline.fit b fn = Some f.

Lemma fit_inv :
  exists x tr,
    Baseline.extract b fn = Some x
    /\ foldM (Baseline.fit_language
                (Baseline.make_sound2idx b (Baseline.ex_sounds x))
                (Baseline.ex_patterns x))
             (Baseline.languages b)
             (Baseline.mkTraining
                (PyDict.of_list (map (fun l => (l, [])) (Baseline.languages b)))
                (PyDict.of_list (map (fun l => (l, [])) (Baseline.languages b)))
                (Baseline.classifiers b))
       = Some tr
    /\ f = Baseline.mkFitted
             (Baseline.mk (Baseline.languages b) (Baseline.data b)
                (Baseline.gap b) (Baseline.missing b)
                (Baseline.tr_classifiers tr) (Baseline.alignments b)
                (Baseline.to_predict b) fn)
             (Baseline.ex_patterns x) (Baseline.tr_matrices tr)
             (Baseline.tr_solutions tr)
             (Baseline.make_sound2idx b (Baseline.ex_sounds x))
             (Baseline.make_idx2sound
                (Baseline.make_sound2idx b (Baseline.ex_sounds x))).
Proof.
  pose proof Hfit as Hrun. unfold Baseline.fit in Hrun.
  returned Hrun as x. returned Hrun as tr.
  injection Hrun as <-. now exists x, tr.
Qed.




Lemma fit_vocabulary (s : string) :
  cell_per_language fn ->
  In s (vocabulary f) <->
  (exists L ps, PyDict.get (Baseline.patterns f) L = Some ps
                /\ In s (pattern_symbols ps))
  \/ s = Baseline.gap b \/ s = Baseline.missing b.
Proof.
  intros Hfn. unfold vocabulary.
  destruct fit_inv as [x [tr [Hx [_ ->]]]]. simpl.
  destruct (extract_covers b fn x Hx) as [Hcov _].
  pose proof (extract_covered b fn x Hfn Hx) as Hcovd.
  rewrite make_sound2idx_keys. split.
  - intros [Hs | Hs]; [left; now apply Hcovd | now right].
  - intros [[L [ps [Hps Hs]]] | Hs]; [left; eapply Hcov; eauto | now right].
Qed.

Lemma fit_decoded (s : string) (code : Z) :
  PyDict.get (Baseline.idx2sound f) code = Some s -> In s (vocabulary f).
Proof.
  unfold vocabulary. destruct fit_inv as [x [tr [_ [_ ->]]]]. simpl.
  apply decoded_in_codec.
Qed.
End Fit.

Section Training.
Context {C : Type} `{Classifier C}.
Variables (s2i : dict string Z) (pats : dict string Baseline.Patterns).

Lemma encode_label_spec (language : string) (mine : Baseline.Patterns)
  (pattern : list string) (tr tr' : Baseline.training C)
  (sv : string * list (string * nat)) :
  PyDict.get pats language = Some mine ->
  In pattern (PyDict.keys mine) -> In (fst sv) (pattern_labels mine) ->
  Baseline.encode_label s2i language pattern tr sv = Some tr' ->
  encoded_with s2i pats tr ->
  encoded_with s2i pats tr'
  /\ Baseline.tr_classifiers tr' = Baseline.tr_classifiers tr.
Proof.
  intros Hmine Hptn Hlbl Hrun Htr. unfold Baseline.encode_label in Hrun.
  returned Hrun as target. returned Hrun as row.
  revert Hrun.
  apply (foldM_invariant _
           (fun t => encoded_with s2i pats t
                     /\ Baseline.tr_classifiers t = Baseline.tr_classifiers tr));
    [| split; [exact Htr | reflexivity]].
  intros t _ t' _ [[Hm Hy] Hc] Hstep.
  returned Hstep as m. returned Hstep as y.
  injection Hstep as <-. simpl. split; [split |]; [| | exact Hc].
  - intros L m' row' Hget Hin. simpl in Hget.
    destruct (string_dec L language) as [-> | Hne].
    + rewrite get_set_same in Hget. injection Hget as <-.
      apply in_app_or in Hin. destruct Hin as [Hin | [<- | []]].
      * eapply Hm; eauto.
      * now exists mine, pattern.
    + rewrite get_set_other in Hget by assumption. eapply Hm; eauto.
  - intros L y' target' Hget Hin. simpl in Hget.
    destruct (string_dec L language) as [-> | Hne].
    + rewrite get_set_same in Hget. injection Hget as <-.
      apply in_app_or in Hin. destruct Hin as [Hin | [<- | []]].
      * eapply Hy; eauto.
      * now exists mine, (fst sv).
    + rewrite get_set_other in Hget by assumption. eapply Hy; eauto.
Qed.

Lemma pattern_labels_In (mine : Baseline.Patterns) (pattern : list string)
  (by_label : dict string (list (string * nat))) (sv : string * list (string * nat)) :
  In (pattern, by_label) mine -> In sv by_label ->
  In (fst sv) (pattern_labels mine).
Proof.
  intros Hp Hs. unfold pattern_labels. apply in_concat.
  exists (PyDict.keys by_label). split.
  - apply in_map_iff. now exists (pattern, by_label).
  - now apply in_map.
Qed.

Lemma fit_language_spec (language : string) (tr tr' : Baseline.training C) :
  Baseline.fit_language s2i pats tr language = Some tr' ->
  encoded_with s2i pats tr ->
  encoded_with s2i pats tr'
  /\ forall target,
       In target (PyDict.keys (Baseline.tr_classifiers tr)) ->
       In target (PyDict.keys (Baseline.tr_classifiers tr')).
Proof.
  intros Hrun Htr. unfold Baseline.fit_language in Hrun.
  returned Hrun as mine. returned Hrun as tr1. rename Etr1 into E1.
  assert (H1 : encoded_with s2i pats tr1
               /\ Baseline.tr_classifiers tr1 = Baseline.tr_classifiers tr).
  { revert E1.
    apply (foldM_invariant _
             (fun t => encoded_with s2i pats t
                       /\ Baseline.tr_classifiers t = Baseline.tr_classifiers tr));
      [| split; [exact Htr | reflexivity]].
    intros t [pattern by_label] t' Hin [Ht Hc]. simpl.
    apply (foldM_invariant _
             (fun t => encoded_with s2i pats t
                       /\ Baseline.tr_classifiers t = Baseline.tr_classifiers tr));
      [| split; [exact Ht | exact Hc]].
    intros t1 sv t2 Hsv [Ht1 Hc1] Hstep.
    destruct (encode_label_spec language mine pattern t1 t2 sv) as [Ht2 Hc2];
      try assumption.
    - change pattern with (fst (pattern, by_label)). now apply in_map.
    - eapply pattern_labels_In; eauto.
    - split; [exact Ht2 | congruence]. }
  destruct H1 as [[Hm Hy] Hc].
  returned Hrun as clf. returned Hrun as m. returned Hrun as y.
  injection Hrun as <-. simpl. split; [split; assumption |].
  intros target Hin. apply keys_set. right. now rewrite Hc.
Qed.
End Training.

Lemma get_of_list_const {V : Type} (ls : list string) (v v' : V) (k : string) :
  PyDict.get (PyDict.of_list (map (fun l => (l, v)) ls)) k = Some v' -> v' = v.
Proof.
  intros Hget. apply get_In, of_list_In, in_map_iff in Hget.
  destruct Hget as [l [Heq _]]. now injection Heq as _ <-.
Qed.

Lemma Forall2_map_r {A B : Type} (R : A -> B -> Prop) (g : A -> B) (l : list A) :
  (forall x, In x l -> R x (g x)) -> Forall2 R l (map g l).
Proof.
  induction l as [| a r IH]; intros Hg; simpl; constructor.
  - apply Hg. now left.
  - apply IH. intros x Hx. apply Hg. now right.
Qed.

Section Trained.
Context {C : Type} `{Classifier C}.
Variables (b : Baseline.t C) (fn : AlignFunc) (f : Baseline.fitted C).
Hypothesis Hfit : Baseline.fit b fn = Some f.

Lemma fit_training :
  (forall L m row,
      PyDict.get (Baseline.matrices f) L = Some m -> In row m ->
      exists ps ptn,
        PyDict.get (Baseline.patterns f) L = Some ps /\ In ptn (PyDict.keys ps)
        /\ mapM (PyDict.get (Baseline.sound2idx f)) ptn = Some row)
  /\ (forall L y target,
      PyDict.get (Baseline.solutions f) L = Some y -> In target y ->
      exists ps lbl,
        PyDict.get (Baseline.patterns f) L = Some ps
        /\ In lbl (pattern_labels ps)
        /\ PyDict.get (Baseline.sound2idx f) lbl = Some target)
  /\ (forall target,
      In target (PyDict.keys (Baseline.classifiers b)) ->
      In target (PyDict.keys (Baseline.classifiers (Baseline.self f)))).
Proof.
  destruct (fit_inv b fn f Hfit) as [x [tr [_ [Htr ->]]]]. simpl.
  set (s2i := Baseline.make_sound2idx b (Baseline.ex_sounds x)) in *.
  assert (Hinv : encoded_with s2i (Baseline.ex_patterns x) tr
                 /\ forall target,
                      In target (PyDict.keys (Baseline.classifiers b)) ->
                      In target (PyDict.keys (Baseline.tr_classifiers tr))).
  { revert Htr.
    apply (foldM_invariant _
             (fun t => encoded_with s2i (Baseline.ex_patterns x) t
                       /\ forall target,
                            In target (PyDict.keys (Baseline.classifiers b)) ->
                            In target (PyDict.keys (Baseline.tr_classifiers t)))).
    - intros t language t' _ [Ht Hc] Hstep.
      destruct (fit_language_spec s2i (Baseline.ex_patterns x) language t t'
                  Hstep Ht) as [Ht' Hc'].
      split; [exact Ht' | auto].
    - split; [| auto]. split; simpl.
      + intros L m row Hget Hin. apply get_of_list_const in Hget. now subst.
      + intros L y target Hget Hin. apply get_of_list_const in Hget. now subst. }
  destruct Hinv as [[Hm Hy] Hc]. auto.
Qed.
End Trained.

Lemma init_inv {C : Type} `{Classifier C} (langs : list string)
  (dat : dict string Item) (minrefs : Z) (missing_ gap_ : string)
  (threshold : Z) (func_ : AlignFunc) (b : Baseline.t C) :
  Baseline.init langs dat minrefs missing_ gap_ threshold func_ = Some b ->
  Baseline.languages b = langs
  /\ Baseline.gap b = gap_ /\ Baseline.missing b = missing_
  /\ Baseline.func b = func_
  /\ forall target, In target langs ->
                    In target (PyDict.keys (Baseline.classifiers b)).
Proof.
  unfold Baseline.init. intros Hx. returned Hx as st.
  injection Hx as <-. simpl. repeat split.
  intros target Hin. apply keys_of_list. rewrite map_map. simpl.
  now rewrite map_id.
Qed.

(** ** Training examples (C1) *)

(** On a row with one cell per language the slice of line 369 keeps every
    cell: the context is the whole row, the label's cell included. *)
Lemma context_of_full_row (n : nat) (row : list string) :
  length row = n -> Baseline.context n row = row.
Proof.
  intros <-. unfold Baseline.context.
  rewrite firstn_all, skipn_all2 by lia. apply app_nil_r.
Qed.

Lemma label_of_full_row (n : nat) (row : list string) :
  length row = n -> Baseline.label n row = Baseline.last_cell row.
Proof. now intros <-. Qed.

(** C1. With the languages [A], [B] and one cognate set [A = a], [B = b],
    the alignment matrix for target [A] is the one row [(b, a)], [A] last.
    [fit] records for [A] the context [(b, a)] with label [a], and the
    training row [[3; 2]] with target [2]: the context has the width of the
    language universe, 2 and not 1, and holds [A]'s own symbol. *)
Theorem fit_context_holds_label :
  option_map
    (fun f => (Baseline.patterns f, Baseline.matrices f, Baseline.solutions f,
               Baseline.sound2idx f))
    (run_fit ["A"; "B"]%string two_languages "Ø"%string "-"%string)
  = Some ([("A", [(["b"; "a"], [("a", [("c1", 0)])])]);
           ("B", [(["a"; "b"], [("b", [("c1", 0)])])])]%string,
          [("A", [[3; 2]]); ("B", [[2; 3]])]%string%Z,
          [("A", [2]); ("B", [3])]%string%Z,
          [("a", 2); ("b", 3); ("-", 1); ("Ø", 0)]%string%Z).
Proof. vm_compute. reflexivity. Qed.

(** ** The codec (C2, C9) *)

(** C2 (as stated, refuted). With three languages, [c] is attested only in
    a cognate set that has no entry for [B]; the codec used for [B] still
    holds [c], which is no symbol of [B]'s training patterns, nor the gap,
    nor the missing symbol. *)
Lemma codec_not_per_language :
  exists f ps,
    run_fit ["A"; "B"; "C"]%string three_languages "Ø"%string "-"%string = Some f
    /\ PyDict.get (Baseline.patterns f) "B"%string = Some ps
    /\ PyDict.get (Baseline.sound2idx f) "c"%string = Some 4%Z
    /\ ~ In "c"%string (pattern_symbols ps)
    /\ "c"%string <> Baseline.gap (Baseline.self f)
    /\ "c"%string <> Baseline.missing (Baseline.self f).
Proof.
  eexists. eexists. split; [vm_compute; reflexivity |].
  split; [vm_compute; reflexivity |].
  split; [vm_compute; reflexivity |].
  split; [| split; vm_compute; discriminate].
  vm_compute. intros Hin.
  repeat (destruct Hin as [Hin | Hin]; [discriminate |]). exact Hin.
Qed.

(** C2 (amended). There is one codec, shared by all languages. Its symbols
    are exactly the symbols seen in the training patterns of all languages
    together (contexts and labels), the gap and the missing symbol. Every
    training row and every training target of every language is encoded
    with it, and [predict] encodes with it whatever the target. *)
Theorem codec_shared {C : Type} `{Classifier C} (b : Baseline.t C)
  (fn : AlignFunc) (f : Baseline.fitted C) :
  cell_per_language fn ->
  Baseline.fit b fn = Some f ->
  (forall s,
      In s (vocabulary f) <->
      (exists L ps, PyDict.get (Baseline.patterns f) L = Some ps
                    /\ In s (pattern_symbols ps))
      \/ s = Baseline.gap b \/ s = Baseline.missing b)
  /\ (forall L m row,
        PyDict.get (Baseline.matrices f) L = Some m -> In row m ->
        exists ps ptn,
          PyDict.get (Baseline.patterns f) L = Some ps /\ In ptn (PyDict.keys ps)
          /\ mapM (PyDict.get (Baseline.sound2idx f)) ptn = Some row)
  /\ (forall L y target,
        PyDict.get (Baseline.solutions f) L = Some y -> In target y ->
        exists ps lbl,
          PyDict.get (Baseline.patterns f) L = Some ps
          /\ In lbl (pattern_labels ps)
          /\ PyDict.get (Baseline.sound2idx f) lbl = Some target)
  /\ (forall langs seqs target unknown,
        Baseline.predict f langs seqs target unknown
        = (clf <- PyDict.get (Baseline.classifiers (Baseline.self f)) target ;;
           Some (filter (fun x => negb (String.eqb x "-"))
                   (map (Baseline.decode f unknown)
                      (clf_predict clf
                         (map (map (fun char =>
                                      PyDict.get_default (Baseline.sound2idx f)
                                        char 0%Z))
                            (Baseline.func (Baseline.self f) seqs langs
                               (filter (fun l => negb (String.eqb l target))
                                  (Baseline.languages (Baseline.self f)))
                               false))))))).
Proof.
  intros Hfn Hfit.
  destruct (fit_training b fn f Hfit) as [Hm [Hy _]].
  split; [intros s; now apply (fit_vocabulary b fn f Hfit) |].
  split; [exact Hm |]. split; [exact Hy |]. reflexivity.
Qed.

(** The two reserved symbols have to differ: configured with one symbol
    for the gap and for missing data, line 377 overwrites the code of
    line 376 and that symbol encodes to 0. *)
Remark gap_code_when_missing :
  exists f,
    run_fit ["A"; "B"]%string two_languages "-"%string "-"%string = Some f
    /\ Baseline.gap (Baseline.self f) = Baseline.missing (Baseline.self f)
    /\ PyDict.get (Baseline.sound2idx f) (Baseline.gap (Baseline.self f))
       = Some 0%Z.
Proof.
  eexists. split; [vm_compute; reflexivity |]. split; reflexivity.
Qed.


(** ** Prediction (C5, C6) *)

(** After [__init__] and [fit] every language has its classifier. *)
Lemma trained_classifier {C : Type} `{Classifier C}
  (languages : list string) (data : dict string Item) (minrefs : Z)
  (missing gap : string) (threshold : Z) (func fn : AlignFunc)
  (b : Baseline.t C) (f : Baseline.fitted C) (target : string) :
  Baseline.init languages data minrefs missing gap threshold func = Some b ->
  Baseline.fit b fn = Some f ->
  In target languages ->
  exists clf,
    PyDict.get (Baseline.classifiers (Baseline.self f)) target = Some clf.
Proof.
  intros Hinit Hfit Htarget.
  destruct (init_inv _ _ _ _ _ _ _ _ Hinit) as [_ [_ [_ [_ Hkeys]]]].
  destruct (fit_training b fn f Hfit) as [_ [_ Hclf]].
  apply get_keys. apply Hclf. now apply Hkeys.
Qed.

(** C5 (as stated, refuted). A [Baseline] configured with the gap symbol
    [+], trained on [A = a], [B = +]: the codec gives [+] the gap code 1, the
    classifier of [B] answers 1 for the attested [a], and [predict] returns
    [+], the configured gap symbol: line 405 compares with the literal
    ["-"], not with [self.gap]. *)
Lemma predict_keeps_configured_gap :
  exists f,
    run_fit ["A"; "B"]%string plus_token "Ø"%string "+"%string = Some f
    /\ Baseline.gap (Baseline.self f) = "+"%string
    /\ PyDict.get (Baseline.sound2idx f) "+"%string = Some 1%Z
    /\ Baseline.predict (H := first_label) f ["A"]%string [["a"]]%string
         "B"%string "?"%string
       = Some ["+"]%string
    /\ In (Baseline.gap (Baseline.self f)) ["+"]%string.
Proof.
  eexists. split; [vm_compute; reflexivity |]. repeat split. now left.
Qed.

(** C5 (amended). For a [Baseline] built by [__init__] and trained by
    [fit], whatever gap symbol it is configured with, and a target among its
    languages, [predict] returns a sequence without the symbol ["-"], the gap
    of the alignments; so the sequence is free of the configured gap symbol
    when that is ["-"], the default. *)
Theorem predict_gap_free {C : Type} `{Classifier C}
  (languages : list string) (data : dict string Item) (minrefs : Z)
  (missing gap : string) (threshold : Z) (func fn : AlignFunc)
  (b : Baseline.t C) (f : Baseline.fitted C)
  (attested : list string) (seqs : list (list string))
  (target unknown : string) :
  Baseline.init languages data minrefs missing gap threshold func = Some b ->
  Baseline.fit b fn = Some f ->
  In target languages ->
  exists out,
    Baseline.predict f attested seqs target unknown = Some out
    /\ ~ In "-"%string out
    /\ (gap = "-"%string -> ~ In (Baseline.gap (Baseline.self f)) out).
Proof.
  intros Hinit Hfit Htarget.
  destruct (trained_classifier _ _ _ _ _ _ _ _ _ _ _ Hinit Hfit Htarget)
    as [clf Hclf].
  assert (Hout : forall out,
             Baseline.predict f attested seqs target unknown = Some out ->
             ~ In "-"%string out).
  { unfold Baseline.predict. rewrite Hclf. cbn [bind].
    intros out Hx. injection Hx as <-. intros Hin. apply filter_In in Hin.
    destruct Hin as [_ Hin]. now rewrite String.eqb_refl in Hin. }
  unfold Baseline.predict in *. rewrite Hclf in *. cbn [bind] in *.
  eexists. split; [reflexivity |]. split; [now apply Hout |].
  intros ->.
  destruct (init_inv _ _ _ _ _ _ _ _ Hinit) as [_ [Hgap _]].
  destruct (fit_inv b fn f Hfit) as [x [tr [_ [_ ->]]]]. simpl.
  rewrite Hgap. now apply Hout.
Qed.

(** C6 (as stated, refuted). The codec is the one shared by all
    languages. With three languages, [c] is in no training pattern of [B],
    yet in an input for target [B] it is encoded as its own code 4, not as
    0. And for a language without any training example, here [B] in a
    collection where it is never attested, a classifier that answers 0
    makes [predict] return the missing symbol, which is in no pattern of
    [B] and is not the unknown marker. *)
Lemma predict_beyond_target_vocabulary :
  (exists f ps,
      run_fit ["A"; "B"; "C"]%string three_languages "Ø"%string "-"%string
      = Some f
      /\ PyDict.get (Baseline.patterns f) "B"%string = Some ps
      /\ ~ In "c"%string (pattern_symbols ps)
      /\ Baseline.encode f [["c"%string]] = [[4%Z]])
  /\ (exists f,
        run_fit ["A"; "B"; "C"]%string never_attested "Ø"%string "-"%string
        = Some f
        /\ PyDict.get (Baseline.patterns f) "B"%string = Some []
        /\ Baseline.predict (H := first_label) f ["C"]%string [["c"]]%string
             "B"%string "?"%string
           = Some ["Ø"%string]).
Proof.
  split.
  - eexists. eexists. split; [vm_compute; reflexivity |].
    split; [vm_compute; reflexivity |].
    split; [| vm_compute; reflexivity].
    vm_compute. intros Hin.
    repeat (destruct Hin as [Hin | Hin]; [discriminate |]). exact Hin.
  - eexists. split; [vm_compute; reflexivity |].
    split; vm_compute; reflexivity.
Qed.

(** C6 (amended). For a [Baseline] built by [__init__] and trained by
    [fit], and a target among its languages. On encoding, a symbol of the
    vocabulary of the codec, the one codec shared by all languages, has its
    own code, and a symbol outside that vocabulary has code 0. On decoding,
    a code of the reverse codec gives its symbol and any other code the
    unknown marker. The target has a classifier, and whenever the alignment
    function returns a matrix and the classifier returns answers for its
    encoding, [predict] returns the decoded answers without the cells ["-"]:
    each returned symbol is a symbol of that vocabulary, the missing symbol
    included, or the unknown marker. An exception of the alignment function
    or of the classifier is not ruled out. *)
Theorem predict_unseen_symbols {C : Type} `{Classifier C}
  (languages : list string) (data : dict string Item) (minrefs : Z)
  (missing gap : string) (threshold : Z) (func fn : AlignFunc)
  (b : Baseline.t C) (f : Baseline.fitted C)
  (attested : list string) (seqs : list (list string))
  (target unknown : string) :
  Baseline.init languages data minrefs missing gap threshold func = Some b ->
  Baseline.fit b fn = Some f ->
  In target languages ->
  (forall matrix,
      Forall2 (Forall2 (fun char code =>
                          (In char (vocabulary f) ->
                           PyDict.get (Baseline.sound2idx f) char = Some code)
                          /\ (~ In char (vocabulary f) -> code = 0%Z)))
              matrix (Baseline.encode f matrix))
  /\ (forall idx,
        (forall s, PyDict.get (Baseline.idx2sound f) idx = Some s ->
                   Baseline.decode f unknown idx = s)
        /\ (PyDict.get (Baseline.idx2sound f) idx = None ->
            Baseline.decode f unknown idx = unknown))
  /\ exists clf,
       PyDict.get (Baseline.classifiers (Baseline.self f)) target = Some clf
       /\ forall matrix answers,
            fn seqs attested
               (filter (fun l => negb (String.eqb l target)) languages) false
            = matrix ->
            clf_predict clf (Baseline.encode f matrix) = answers ->
            Baseline.predict f attested seqs target unknown
            = Some (filter (fun x => negb (String.eqb x "-"))
                      (map (Baseline.decode f unknown) answers))
            /\ Forall (fun s => s <> "-"%string
                                /\ (In s (vocabulary f) \/ s = unknown))
                      (filter (fun x => negb (String.eqb x "-"))
                         (map (Baseline.decode f unknown) answers)).
Proof.
  intros Hinit Hfit Htarget. split; [| split].
  - intros matrix. unfold Baseline.encode.
    apply Forall2_map_r. intros row _. apply Forall2_map_r. intros char _.
    unfold PyDict.get_default, vocabulary.
    destruct (PyDict.get (Baseline.sound2idx f) char) as [code|] eqn:E.
    + split; [reflexivity |]. intros Hout. exfalso. apply Hout.
      apply get_keys. now exists code.
    + split; [| reflexivity]. intros Hin. apply get_keys in Hin.
      destruct Hin as [code Hcode]. congruence.
  - intros idx. unfold Baseline.decode, PyDict.get_default. split.
    + intros s Hs. now rewrite Hs.
    + intros Hnone. now rewrite Hnone.
  - destruct (trained_classifier _ _ _ _ _ _ _ _ _ _ _ Hinit Hfit Htarget)
      as [clf Hclf].
    exists clf. split; [exact Hclf |].
    intros matrix answers Hmatrix Hanswers.
    destruct (init_inv _ _ _ _ _ _ _ _ Hinit) as [Hl _].
    split.
    + unfold Baseline.predict. rewrite Hclf. cbn [bind].
      destruct (fit_inv b fn f Hfit) as [x [tr [_ [_ Hf]]]].
      assert (Hfn : Baseline.func (Baseline.self f) = fn) by now subst f.
      assert (Hls : Baseline.languages (Baseline.self f) = languages)
        by now subst f.
      now rewrite Hfn, Hls, Hmatrix, Hanswers.
    + apply Forall_forall. intros s Hs. apply filter_In in Hs.
      destruct Hs as [Hs Hgap]. split.
      * intros ->. now rewrite String.eqb_refl in Hgap.
      * apply in_map_iff in Hs. destruct Hs as [idx [<- _]].
        unfold Baseline.decode, PyDict.get_default.
        destruct (PyDict.get (Baseline.idx2sound f) idx) as [s|] eqn:E;
          [left | now right].
        eapply fit_decoded; eauto.
Qed.

(** ** The split builder: ranking and pools (C10) *)

Section Sorting.
Context {A : Type} (key : A -> nat).

Lemma insert_reverse_perm (x : A) (l : list A) :
  Permutation (insert_reverse key x l) (x :: l).
Proof.
  induction l as [| y r IH]; simpl; [reflexivity |].
  destruct (key x <? key y); [| reflexivity].
  rewrite IH. apply perm_swap.
Qed.

Lemma sorted_reverse_perm (l : list A) : Permutation (sorted_reverse key l) l.
Proof.
  induction l as [| x r IH]; simpl; [reflexivity |].
  rewrite insert_reverse_perm. now constructor.
Qed.

Lemma insert_reverse_sorted (x : A) (l : list A) :
  StronglySorted (fun a b => key b <= key a) l ->
  StronglySorted (fun a b => key b <= key a) (insert_reverse key x l).
Proof.
  induction 1 as [| y r Hr IH Hy]; simpl.
  - constructor; [constructor | constructor].
  - destruct (Nat.ltb_spec (key x) (key y)) as [Hlt | Hge].
    + constructor; [exact IH |].
      rewrite Forall_forall in *. intros z Hz.
      apply (Permutation_in _ (insert_reverse_perm x r)) in Hz.
      destruct Hz as [<- | Hz]; [lia | now apply Hy].
    + constructor; [now constructor |].
      constructor; [exact Hge |].
      eapply Forall_impl; [| exact Hy]. simpl. intros z Hz. lia.
Qed.

Lemma sorted_reverse_sorted (l : list A) :
  StronglySorted (fun a b => key b <= key a) (sorted_reverse key l).
Proof.
  induction l as [| x r IH]; simpl; [constructor |].
  now apply insert_reverse_sorted.
Qed.

Lemma insert_reverse_stable (c : nat) (x : A) (l : list A) :
  filter (fun a => key a =? c) (insert_reverse key x l)
  = filter (fun a => key a =? c) (x :: l).
Proof.
  induction l as [| y r IH]; [reflexivity |].
  simpl insert_reverse.
  destruct (Nat.ltb_spec (key x) (key y)) as [Hlt | Hge]; [| reflexivity].
  simpl in *. rewrite IH.
  destruct (Nat.eqb_spec (key y) c) as [Hy | Hy];
    destruct (Nat.eqb_spec (key x) c) as [Hx | Hx]; try reflexivity.
  lia.
Qed.

Lemma sorted_reverse_stable (c : nat) (l : list A) :
  filter (fun a => key a =? c) (sorted_reverse key l)
  = filter (fun a => key a =? c) l.
Proof.
  induction l as [| x r IH]; [reflexivity |].
  simpl sorted_reverse. rewrite insert_reverse_stable. simpl. now rewrite IH.
Qed.
End Sorting.

(** ** Line 184 in float arithmetic *)

(** Rounding keeps the sign. *)
Lemma binary_round_aux_sign (s : bool) (mx ex : Z) (lx : location) :
  match binary_round_aux 53 1024 s mx ex lx with
  | S754_finite s' _ _ => s' = s
  | _ => True
  end.
Proof.
  unfold binary_round_aux.
  destruct (shr_fexp 53 1024 mx ex lx) as [mrs' e'].
  destruct (shr_fexp 53 1024 _ e' loc_Exact) as [mrs'' e''].
  destruct (shr_m mrs''); [exact I | | exact I].
  now destruct (e'' <=? 1024 - 53)%Z.
Qed.

Lemma binary_round_sign (s : bool) (m : positive) (e : Z) :
  match binary_round 53 1024 s m e with
  | S754_finite s' _ _ => s' = s
  | _ => True
  end.
Proof.
  unfold binary_round.
  destruct (shl_align m e _) as [mz ez]. apply binary_round_aux_sign.
Qed.

Lemma float_of_int_unsigned (n : nat) (x : float) :
  float_of_int (Z.of_nat n) = Some x -> unsigned x.
Proof.
  unfold float_of_int, binary_normalize.
  destruct (Z.of_nat n) as [| m | m] eqn:En; [| | lia].
  - intros Hx. now injection Hx as <-.
  - pose proof (binary_round_sign false m 0) as Hs.
    destruct (binary_round 53 1024 false m 0); intros Hx;
      try discriminate Hx; now injection Hx as <-.
Qed.

Lemma fmul_unsigned (x ratio : float) :
  unsigned x -> not_negative ratio -> unsigned (fmul x ratio).
Proof.
  destruct x as [sx | sx | | sx mx ex], ratio as [sr | sr | | [|] mr er];
    simpl; try tauto; try (intros; exact I).
  intros -> _. apply (binary_round_aux_sign (xorb false false)).
Qed.

Lemma fadd_half_unsigned (y : float) : unsigned y -> unsigned (fadd y half).
Proof.
  destruct y as [sy | sy | | sy my ey]; simpl; try (intros; exact I);
    try reflexivity.
  intros ->. unfold fadd, half, SFadd.
  destruct (shl_align my ey _) as [a ea]. destruct (shl_align _ _ _) as [c ec].
  cbn [fst cond_Zopp Z.add binary_normalize].
  apply binary_round_sign.
Qed.

Lemma int_of_float_unsigned (x : float) (k : Z) :
  unsigned x -> int_of_float x = Some k -> (0 <= k)%Z.
Proof.
  destruct x as [sx | sx | | sx mx ex]; simpl; try discriminate.
  - intros _ Hx. injection Hx as <-. lia.
  - intros -> Hx. injection Hx as <-. simpl.
    destruct (0 <=? ex)%Z; [apply Z.shiftl_nonneg | apply Z.shiftr_nonneg]; lia.
Qed.

(** For a ratio that is not negative, line 184 gives a number that is not
    negative. *)
Lemma split_off_unsigned (n : nat) (ratio : float) (k : Z) :
  not_negative ratio -> split_off n ratio = Some k -> (0 <= k)%Z.
Proof.
  unfold split_off. intros Hr Hk. returned Hk as x.
  apply (int_of_float_unsigned (fadd (fmul x ratio) half)); [| exact Hk].
  apply fadd_half_unsigned, fmul_unsigned; [| exact Hr].
  now apply (float_of_int_unsigned n).
Qed.

Local Open Scope Q_scope.

(** [round_half_up x] is the integer within a half of [x], the upper one
    at a tie. *)
Lemma round_half_up_nearest (x : Q) :
  inject_Z (round_half_up x) - (1 # 2) <= x
  /\ x < inject_Z (round_half_up x) + (1 # 2).
Proof.
  unfold round_half_up. split.
  - pose proof (Qfloor_le (x + (1 # 2))) as Hle.
    apply Qplus_le_l with (z := 1 # 2). 
    eapply Qle_trans; [| exact Hle].
    ring_simplify. apply Qle_refl.
  - pose proof (Qlt_floor (x + (1 # 2))) as Hlt.
    apply Qplus_lt_l with (z := 1 # 2).
    eapply Qlt_le_trans; [exact Hlt |].
    rewrite inject_Z_plus. ring_simplify. apply Qle_refl.
Qed.

Local Close Scope Q_scope.

Lemma slice_index_nonneg {A : Type} (l : list A) (k : Z) :
  (0 <= k)%Z -> slice_index l k = Z.to_nat k.
Proof.
  intros Hk. unfold slice_index.
  destruct (Z.ltb_spec k 0); [lia | reflexivity].
Qed.

(** The two slices of line 192-193 split the ranking, whatever the bound. *)
Lemma slices_partition {A : Type} (l : list A) (k : Z) :
  slice_to l k ++ slice_from l k = l.
Proof. apply firstn_skipn. Qed.

(** A dictionary comprehension over keys of [data] gives back its items. *)
Lemma subdict_items (data sub : dict string Item) :
  NoDup (PyDict.keys data) ->
  incl sub data -> NoDup (map fst sub) ->
  subdict data (map fst sub) = Some sub.
Proof.
  intros Hnd Hincl Hsub. unfold subdict.
  assert (Hpairs : mapM (fun c => v <- PyDict.get data c ;; Some (c, v))
                     (map fst sub) = Some sub).
  { clear Hsub. induction sub as [| [c v] r IH]; simpl; [reflexivity |].
    rewrite (get_nodup data c v Hnd) by (apply Hincl; now left). simpl.
    rewrite IH; [reflexivity |]. intros kv Hkv. apply Hincl. now right. }
  rewrite Hpairs. simpl. now rewrite of_list_nodup.
Qed.

Lemma NoDup_firstn {A : Type} (n : nat) (l : list A) :
  NoDup l -> NoDup (firstn n l).
Proof.
  intros Hnd. rewrite <- (firstn_skipn n l) in Hnd.
  now apply NoDup_app_remove_r in Hnd.
Qed.

Lemma NoDup_skipn {A : Type} (n : nat) (l : list A) :
  NoDup l -> NoDup (skipn n l).
Proof.
  intros Hnd. rewrite <- (firstn_skipn n l) in Hnd.
  now apply NoDup_app_remove_l in Hnd.
Qed.

Section Pools.
Variables (data : dict string Item) (ratio : float) (k : Z).
Hypothesis Hkeys : NoDup (PyDict.keys data).
Hypothesis Hk : split_off (length data) ratio = Some k.

Local Abbreviation ranked := (ranked_items data).

Lemma ranked_keys_NoDup : NoDup (map fst ranked).
Proof.
  eapply Permutation_NoDup; [| exact Hkeys].
  apply Permutation_map. symmetry. apply sorted_reverse_perm.
Qed.

Lemma ranked_incl (sub : dict string Item) : incl sub ranked -> incl sub data.
Proof.
  intros Hsub kv Hkv. eapply Permutation_in; [apply sorted_reverse_perm |].
  now apply Hsub.
Qed.

Lemma slice_index_keys : 
  slice_index (map fst ranked) k = slice_index ranked k.
Proof. unfold slice_index. now rewrite length_map. Qed.

Lemma pools_ranked :
  pools data ratio = Some (slice_to ranked k, slice_from ranked k).
Proof.
  unfold pools. rewrite Hk. cbn [bind].
  unfold slice_to, slice_from, ranking. fold ranked.
  rewrite slice_index_keys.
  set (n := slice_index ranked k).
  rewrite firstn_map, skipn_map.
  rewrite (subdict_items data (firstn n ranked)); simpl.
  - rewrite (subdict_items data (skipn n ranked)); simpl; [reflexivity | | |].
    + exact Hkeys.
    + apply ranked_incl. intros kv Hkv.
      rewrite <- (firstn_skipn n ranked). apply in_or_app. now right.
    + rewrite <- skipn_map. apply NoDup_skipn, ranked_keys_NoDup.
  - exact Hkeys.
  - apply ranked_incl. intros kv Hkv.
    rewrite <- (firstn_skipn n ranked). apply in_or_app. now left.
  - rewrite <- firstn_map. apply NoDup_firstn, ranked_keys_NoDup.
Qed.
End Pools.

(** C10 (as stated, refuted). One item and the ratio
    [0.49999999999999994]: the product is below one half, so its nearest
    integer is 0 however halves are rounded; line 184 adds [0.5], the float
    sum is [1.0], and the one item is held out. Five items and the ratio
    [0.3]: the float nearest to three tenths is below it, so the nearest
    integer of five times the ratio is 1; line 184 rounds the product to
    [1.5] and holds out 2 items. Five items and the ratio [0.5]: the product
    is [2.5], Python's [round] gives 2, and line 184 holds out 3 items. *)
Lemma split_off_is_not_round :
  (pools never_attested below_half = Some (never_attested, [])
   /\ (inject_Z 1 * value below_half < 1 # 2)%Q
   /\ pool_size never_attested below_half = 0
   /\ round_half_even (inject_Z 1 * value below_half) = 0%Z)
  /\ (pools five_items three_tenths
      = Some (firstn 2 (ranked_items five_items),
              skipn 2 (ranked_items five_items))
      /\ pool_size five_items three_tenths = 1
      /\ round_half_even (inject_Z 5 * value three_tenths) = 1%Z)
  /\ (pools five_items half
      = Some (firstn 3 (ranked_items five_items),
              skipn 3 (ranked_items five_items))
      /\ round_half_even (inject_Z 5 * value half) = 2%Z).
Proof. repeat split; vm_compute; reflexivity. Qed.

(** C10 (amended). For a collection without repeated ids and a ratio for
    which line 184 gives [k], that is [int(len(data) * ratio + 0.5)] in
    float arithmetic, the evaluation source pool is the slice [[:k]] of
    the ranking and the training pool the slice [[k:]]; for a ratio that is
    not negative [k] is not negative and these are the first [k] items and
    the rest. The ranking is a rearrangement of the collection by
    attestation count, highest first, items of equal count in their original
    order; the two pools together are a rearrangement of the collection and
    share no id; and the training pool is the one
    [split_training_test_data] returns. *)
Theorem split_pools_partition (data : dict string Item) (ratio : float)
  (k : Z) :
  NoDup (PyDict.keys data) ->
  split_off (length data) ratio = Some k ->
  pools data ratio
  = Some (slice_to (ranked_items data) k, slice_from (ranked_items data) k)
  /\ (not_negative ratio ->
      (0 <= k)%Z
      /\ slice_to (ranked_items data) k
         = firstn (Z.to_nat k) (ranked_items data)
      /\ slice_from (ranked_items data) k
         = skipn (Z.to_nat k) (ranked_items data))
  /\ Permutation (ranked_items data) data
  /\ descending (ranked_items data)
  /\ stable (ranked_items data) data
  /\ Permutation (slice_to (ranked_items data) k
                  ++ slice_from (ranked_items data) k) data
  /\ NoDup (PyDict.keys (slice_to (ranked_items data) k)
            ++ PyDict.keys (slice_from (ranked_items data) k))
  /\ forall languages training test_items solution_items,
       split_training_test_data data languages ratio
       = Some (training, test_items, solution_items) ->
       training = slice_from (ranked_items data) k.
Proof.
  intros Hkeys Hk.
  pose proof (pools_ranked data ratio k Hkeys Hk) as Hpools.
  split; [exact Hpools |].
  split.
  { intros Hr. pose proof (split_off_unsigned _ _ _ Hr Hk) as Hpos.
    split; [exact Hpos |].
    unfold slice_to, slice_from. now rewrite slice_index_nonneg. }
  split; [apply sorted_reverse_perm |].
  split; [apply sorted_reverse_sorted |].
  split; [intros c; apply sorted_reverse_stable |].
  split; [rewrite slices_partition; apply sorted_reverse_perm |].
  split.
  - unfold PyDict.keys. rewrite <- map_app, slices_partition.
    now apply ranked_keys_NoDup.
  - intros languages training test_items solution_items.
    unfold split_training_test_data. rewrite Hpools. simpl.
    destruct (emit_all (slice_to (ranked_items data) k) languages); simpl;
      [| discriminate].
    intros Hx. now injection Hx as <- _ _.
Qed.

(** ** The split builder: derived items (C4) *)

(** C4. The pool holds [c1], whose entry for [A] is the placeholder [?].
    Line 201 only asks for a non-empty entry, so the pair ([c1], [A]) yields
    the derived item [c1-1], and the solutions map records the placeholder
    as its true value. The ranking of lines 187-188, in the same function,
    does not count such an entry as real. *)
Theorem split_masks_placeholder :
  split_training_test_data with_placeholder ["A"; "B"]%string half
  = Some ([("c3", [("A", ["a"]); ("B", [])])],
          [("c2-1", [("A", ["?"]); ("B", ["b"])]);
           ("c1-1", [("A", ["?"]); ("B", ["b"])]);
           ("c2-2", [("A", ["a"; "x"]); ("B", ["?"])]);
           ("c1-2", [("A", ["?"]); ("B", ["?"])])],
          [("c2-1", [("A", ["a"; "x"])]);
           ("c1-1", [("A", ["?"])]);
           ("c2-2", [("B", ["b"])]);
           ("c1-2", [("B", ["b"])])])%string.
Proof. vm_compute. reflexivity. Qed.

(** ** The gap-merge transform on concrete alignments (C3, C7) *)

(** C3. Columns 0 and 1 are marked and form a leading run; [ungap] gives
    the alignment back with both columns in place: the run takes two
    output columns, not one. *)
Theorem ungap_leading_run_kept :
  find_merges leading_run (pidxs_of ["A"; "B"; "P"]%string "P"%string) (seq 0 3)
  = Some [0; 1]
  /\ ungap leading_run ["A"; "B"; "P"]%string "P"%string = Some leading_run
  /\ Forall (fun row => length row = 3) leading_run.
Proof. split; [| split]; vm_compute; repeat constructor. Qed.

(** Why C7 asks for cells that are symbols or the gap: a cell that is the
    empty string, which no alignment holds, is rewritten to the gap by the
    first pass; this makes its column a merge column for a second pass. *)
Lemma ungap_twice_differs :
  ungap empty_cell ["A"; "P"]%string "P"%string
  = Some [["a"; "-"]; ["x"; "y.z"]]%string
  /\ ungap_twice empty_cell ["A"; "P"]%string "P"%string
     = Some [["a"]; ["x.y.z"]]%string
  /\ ungap_twice empty_cell ["A"; "P"]%string "P"%string
     <> ungap empty_cell ["A"; "P"]%string "P"%string.
Proof. split; [| split]; vm_compute; [reflexivity | reflexivity | discriminate]. Qed.

(** ** The theorems at concrete inputs *)

Lemma aligned_already_cells : cell_per_language aligned_already.
Proof.
  intros seqs languages all_languages training. unfold aligned_already.
  apply Forall_forall. intros row Hrow. apply in_map_iff in Hrow.
  destruct Hrow as [i [<- _]]. apply length_map.
Qed.

Lemma ungap_width_invariant_witness :
  rectangular inner_run
  /\ exists out,
       ungap inner_run ["A"; "B"; "P"]%string "P"%string = Some out
       /\ rectangular out
       /\ Forall2 (fun row row' => length row' <= length row) inner_run out
       /\ (no_merge_column inner_run ["A"; "B"; "P"]%string "P"%string ->
           out = inner_run).
Proof.
  assert (Hrect : rectangular inner_run) by (simpl; repeat constructor).
  split; [exact Hrect | apply (ungap_width_invariant _ _ _ Hrect)].
Defined.

Lemma ungap_idempotent_witness :
  Forall (Forall (fun cell => cell <> ""%string))
         (other_rows inner_run ["A"; "B"; "P"]%string "P"%string)
  /\ ungap_twice inner_run ["A"; "B"; "P"]%string "P"%string
     = ungap inner_run ["A"; "B"; "P"]%string "P"%string.
Proof.
  assert (Hcells : Forall (Forall (fun cell => cell <> ""%string))
                     (other_rows inner_run ["A"; "B"; "P"]%string "P"%string)).
  { unfold other_rows. simpl. repeat (constructor; try discriminate). }
  split; [exact Hcells | apply (ungap_idempotent _ _ _ Hcells)].
Defined.

Lemma split_pools_partition_witness :
  NoDup (PyDict.keys with_placeholder)
  /\ split_off (length with_placeholder) half = Some 2%Z
  /\ pools with_placeholder half
     = Some (slice_to (ranked_items with_placeholder) 2,
             slice_from (ranked_items with_placeholder) 2)
  /\ (not_negative half ->
      (0 <= 2)%Z
      /\ slice_to (ranked_items with_placeholder) 2
         = firstn (Z.to_nat 2) (ranked_items with_placeholder)
      /\ slice_from (ranked_items with_placeholder) 2
         = skipn (Z.to_nat 2) (ranked_items with_placeholder)).
Proof.
  assert (Hkeys : NoDup (PyDict.keys with_placeholder)).
  { simpl. repeat (constructor; [simpl; intuition discriminate |]). constructor. }
  assert (Hk : split_off (length with_placeholder) half = Some 2%Z)
    by (vm_compute; reflexivity).
  split; [exact Hkeys |]. split; [exact Hk |].
  pose proof (split_pools_partition with_placeholder half 2 Hkeys Hk) as Hall.
  split; [apply Hall | apply Hall].
Defined.


Lemma predict_gap_free_witness :
  exists (b : Baseline.t (list Z)) (f : Baseline.fitted (list Z)),
    Baseline.init (H := first_label) ["A"; "B"]%string gap_token 2
      "Ø"%string "-"%string 1 aligned_already = Some b
    /\ Baseline.fit (H := first_label) b aligned_already = Some f
    /\ In "B"%string ["A"; "B"]%string
    /\ exists out,
         Baseline.predict (H := first_label) f ["A"]%string [["a"]]%string
           "B"%string "?"%string = Some out
         /\ ~ In "-"%string out
         /\ ("-"%string = "-"%string ->
             ~ In (Baseline.gap (Baseline.self f)) out).
Proof.
  eexists. eexists. split; [vm_compute; reflexivity |].
  split; [vm_compute; reflexivity |].
  split; [simpl; tauto |].
  eapply (predict_gap_free (H := first_label) ["A"; "B"]%string gap_token 2
            "Ø"%string "-"%string 1 aligned_already aligned_already).
  - vm_compute. reflexivity.
  - vm_compute. reflexivity.
  - simpl. tauto.
Defined.

Lemma codec_shared_witness :
  exists (b : Baseline.t (list Z)) (f : Baseline.fitted (list Z)),
    Baseline.init (H := first_label) ["A"; "B"; "C"]%string three_languages 2
      "Ø"%string "-"%string 1 aligned_already = Some b
    /\ cell_per_language aligned_already
    /\ Baseline.fit (H := first_label) b aligned_already = Some f
    /\ forall s,
         In s (vocabulary f) <->
         (exists L ps, PyDict.get (Baseline.patterns f) L = Some ps
                       /\ In s (pattern_symbols ps))
         \/ s = Baseline.gap b \/ s = Baseline.missing b.
Proof.
  eexists. eexists. split; [vm_compute; reflexivity |].
  split; [exact aligned_already_cells |].
  split; [vm_compute; reflexivity |].
  apply (codec_shared (H := first_label) _ aligned_already _
           aligned_already_cells).
  vm_compute. reflexivity.
Defined.

Lemma predict_unseen_symbols_witness :
  exists (b : Baseline.t (list Z)) (f : Baseline.fitted (list Z)),
    Baseline.init (H := first_label) ["A"; "B"]%string two_languages 2
      "Ø"%string "-"%string 1 aligned_already = Some b
    /\ Baseline.fit (H := first_label) b aligned_already = Some f
    /\ In "B"%string ["A"; "B"]%string
    /\ ~ In "q"%string (vocabulary f)
    /\ Baseline.encode f [["q"%string]] = [[0%Z]]
    /\ exists clf,
         PyDict.get (Baseline.classifiers (Baseline.self f)) "B"%string
         = Some clf
         /\ forall matrix answers,
              aligned_already [["q"]]%string ["A"]%string
                (filter (fun l => negb (String.eqb l "B")) ["A"; "B"]%string)
                false
              = matrix ->
              clf_predict (Classifier := first_label) clf
                (Baseline.encode f matrix) = answers ->
              Baseline.predict (H := first_label) f ["A"]%string
                [["q"]]%string "B"%string "?"%string
              = Some (filter (fun x => negb (String.eqb x "-"))
                        (map (Baseline.decode f "?"%string) answers))
              /\ Forall (fun s => s <> "-"%string
                                  /\ (In s (vocabulary f) \/ s = "?"%string))
                        (filter (fun x => negb (String.eqb x "-"))
                           (map (Baseline.decode f "?"%string) answers)).
Proof.
  eexists. eexists.
  match goal with
  | |- ?P /\ _ => assert (Hinit : P) by (vm_compute; reflexivity)
  end.
  split; [exact Hinit |].
  match goal with
  | |- ?P /\ _ => assert (Hfit : P) by (vm_compute; reflexivity)
  end.
  split; [exact Hfit |].
  assert (Hin : In "B"%string ["A"; "B"]%string) by (simpl; tauto).
  split; [exact Hin |].
  split.
  { vm_compute. intros Hq.
    repeat (destruct Hq as [Hq | Hq]; [discriminate |]). exact Hq. }
  split; [vm_compute; reflexivity |].
  exact (proj2 (proj2 (predict_unseen_symbols (H := first_label)
                         ["A"; "B"]%string two_languages 2 "Ø"%string
                         "-"%string 1 aligned_already aligned_already
                         _ _ ["A"]%string [["q"]]%string "B"%string
                         "?"%string Hinit Hfit Hin))).
Defined.

(** * Further properties *)

(** ** The codec: inverse maps and reserved codes *)

Lemma set_keys_NoDup {K V : Type} `{EqDec K} (d : list (K * V)) (k : K) (v : V) :
  NoDup (PyDict.keys d) -> NoDup (PyDict.keys (PyDict.set d k v)).
Proof.
  induction d as [| [k0 v0] r IH]; simpl; intros Hnd.
  - constructor; [tauto | constructor].
  - inversion Hnd as [| ? ? Hout Hnd']; subst.
    destruct (eq_dec k k0) as [-> | Hne]; simpl; [now constructor |].
    constructor; [| now apply IH].
    intros Hin. apply (keys_set r k v k0) in Hin.
    destruct Hin as [Heq | Hin]; [now apply Hne | now apply Hout].
Qed.

Lemma make_sound2idx_keys_NoDup {C : Type} `{Classifier C} (b : Baseline.t C)
  (sounds : list string) :
  NoDup sounds -> NoDup (PyDict.keys (Baseline.make_sound2idx b sounds)).
Proof.
  intros Hset. unfold Baseline.make_sound2idx.
  apply set_keys_NoDup, set_keys_NoDup.
  assert (Hk : NoDup (map fst (ranked_codes sounds))).
  { rewrite ranked_keys.
    eapply Permutation_NoDup; [symmetry; apply sorted_perm | exact Hset]. }
  fold (ranked_codes sounds). rewrite of_list_nodup by exact Hk. exact Hk.
Qed.

Lemma make_sound2idx_codes {C : Type} `{Classifier C} (b : Baseline.t C)
  (sounds : list string) (s : string) (code : Z) :
  In (s, code) (Baseline.make_sound2idx b sounds) ->
  (s = Baseline.missing b /\ code = 0%Z)
  \/ (s = Baseline.gap b /\ code = 1%Z)
  \/ (In s sounds /\ (2 <= code < 2 + Z.of_nat (length sounds))%Z).
Proof.
  unfold Baseline.make_sound2idx. fold (ranked_codes sounds). intros Hin.
  apply set_In in Hin. destruct Hin as [Hin | Hin]; [now left |].
  apply set_In in Hin. destruct Hin as [Hin | Hin]; [right; now left |].
  right. right. apply of_list_In in Hin. unfold ranked_codes in Hin. split.
  - apply in_combine_l in Hin.
    eapply Permutation_in; [apply sorted_perm | exact Hin].
  - apply in_combine_r in Hin. unfold range in Hin.
    apply in_map_iff in Hin. destruct Hin as [n [<- Hn]].
    apply in_seq in Hn. lia.
Qed.

(** X1. After [fit], [idx2sound] and [sound2idx] are inverse maps: a code
    decodes to a symbol exactly when that symbol encodes to the code. This
    covers the gap and the missing symbol, also when they are configured
    equal. *)
Theorem codec_inverse_maps {C : Type} `{Classifier C}
  (b : Baseline.t C) (fn : AlignFunc) (f : Baseline.fitted C) :
  Baseline.fit b fn = Some f ->
  forall s code,
    PyDict.get (Baseline.sound2idx f) s = Some code
    <-> PyDict.get (Baseline.idx2sound f) code = Some s.
Proof.
  intros Hfit s code.
  destruct (fit_inv b fn f Hfit) as [x [tr [Hx [_ ->]]]]. simpl.
  destruct (extract_covers b fn x Hx) as [_ Hnd]. split.
  - now apply codec_round_trip.
  - intros Hget. apply get_In in Hget. unfold Baseline.make_idx2sound in Hget.
    apply of_list_In in Hget. apply in_map_iff in Hget.
    destruct Hget as [[k v] [Heq Hin]]. simpl in Heq. injection Heq as <- <-.
    apply get_nodup; [now apply make_sound2idx_keys_NoDup | exact Hin].
Qed.

(** X2. After [fit], code 0 belongs to the missing symbol alone and code 1
    to the gap symbol alone; every other symbol of the codec has a code
    from 2 on, below 2 plus the number of symbols of the codec. *)
Theorem codec_reserved_codes {C : Type} `{Classifier C}
  (b : Baseline.t C) (fn : AlignFunc) (f : Baseline.fitted C) :
  Baseline.fit b fn = Some f ->
  forall s code,
    PyDict.get (Baseline.sound2idx f) s = Some code ->
    (code = 0%Z -> s = Baseline.missing b)
    /\ (code = 1%Z -> s = Baseline.gap b)
    /\ (s <> Baseline.gap b -> s <> Baseline.missing b ->
        (2 <= code < 2 + Z.of_nat (length (vocabulary f)))%Z).
Proof.
  intros Hfit s code Hget. unfold vocabulary.
  destruct (fit_inv b fn f Hfit) as [x [tr [Hx [_ ->]]]].
  cbn [Baseline.sound2idx] in *.
  destruct (extract_covers b fn x Hx) as [_ Hnd].
  apply get_In in Hget. apply make_sound2idx_codes in Hget.
  assert (Hlen : length (Baseline.ex_sounds x)
                 <= length (PyDict.keys (Baseline.make_sound2idx b
                                           (Baseline.ex_sounds x)))).
  { apply NoDup_incl_length; [exact Hnd |].
    intros s' Hs'. apply make_sound2idx_keys. now left. }
  destruct Hget as [[-> ->] | [[-> ->] | [Hs Hc]]].
  - repeat split; intros; congruence || lia.
  - repeat split; intros; congruence || lia.
  - repeat split; intros; lia.
Qed.

(** ** [fit]: the training rows *)

Lemma get_of_list_keys {V : Type} (ls : list string) (v : V) (k : string) :
  PyDict.get (PyDict.of_list (map (fun l => (l, v)) ls)) k
  = if in_dec string_dec k ls then Some v else None.
Proof.
  destruct (PyDict.get (PyDict.of_list (map (fun l => (l, v)) ls)) k)
    as [v'|] eqn:E.
  - pose proof (get_of_list_const ls v v' k E) as ->.
    assert (Hin : In k (PyDict.keys (PyDict.of_list (map (fun l => (l, v)) ls))))
      by (apply get_keys; now exists v).
    apply (proj1 (keys_of_list _ _)) in Hin. rewrite map_map in Hin.
    simpl in Hin.
    rewrite map_id in Hin.
    now destruct (in_dec string_dec k ls).
  - destruct (in_dec string_dec k ls) as [Hin | Hout]; [| reflexivity].
    exfalso.
    assert (Hk : In k (PyDict.keys (PyDict.of_list (map (fun l => (l, v)) ls)))).
    { apply keys_of_list. rewrite map_map. simpl. now rewrite map_id. }
    apply get_keys in Hk. destruct Hk as [v' Hv']. congruence.
Qed.

Section Rows.
Context {C : Type} `{Classifier C}.
Variable langs : list string.

Lemma encode_label_in_step (s2i : dict string Z) (language : string)
  (pattern : list string) (tr tr' : Baseline.training C)
  (sv : string * list (string * nat)) :
  Baseline.encode_label s2i language pattern tr sv = Some tr' ->
  in_step langs tr -> in_step langs tr'.
Proof.
  unfold Baseline.encode_label. intros Hrun Htr.
  returned Hrun as target. returned Hrun as row. revert Hrun.
  apply (foldM_invariant _ (in_step langs)); [| exact Htr].
  intros t _ t' _ [Ht Hk] Hstep. returned Hstep as m. returned Hstep as y.
  injection Hstep as <-. split.
  - intros L. simpl. destruct (string_dec L language) as [-> | Hne].
    + rewrite !get_set_same. simpl. rewrite !length_app. simpl.
      specialize (Ht language). rewrite Em, Ey in Ht. simpl in Ht.
      injection Ht as ->. reflexivity.
    + rewrite !get_set_other by assumption. apply Ht.
  - intros L HL. simpl. destruct (string_dec L language) as [-> | Hne].
    + rewrite get_set_same. discriminate.
    + rewrite get_set_other by assumption. now apply Hk.
Qed.

Lemma fit_language_in_step (s2i : dict string Z)
  (pats : dict string Baseline.Patterns) (language : string)
  (tr tr' : Baseline.training C) :
  Baseline.fit_language s2i pats tr language = Some tr' ->
  in_step langs tr -> in_step langs tr'.
Proof.
  unfold Baseline.fit_language. intros Hrun Htr.
  returned Hrun as mine. returned Hrun as tr1.
  assert (H1 : in_step langs tr1).
  { revert Etr1. apply (foldM_invariant _ (in_step langs)); [| exact Htr].
    intros t ps t' _ Ht. apply (foldM_invariant _ (in_step langs)); [| exact Ht].
    intros t1 sv t2 _ Ht1 Hstep. eapply encode_label_in_step; eauto. }
  returned Hrun as clf. returned Hrun as m. returned Hrun as y.
  injection Hrun as <-. exact H1.
Qed.
End Rows.

(** ** [fit]: width and number of the training rows *)

Lemma foldM_sum {A S : Type} (f : S -> A -> option S) (g : S -> nat)
  (c : A -> nat) (l : list A) :
  (forall s a s', In a l -> f s a = Some s' -> g s' = g s + c a) ->
  forall s s', foldM f l s = Some s' -> g s' = g s + list_sum (map c l).
Proof.
  induction l as [| a r IH]; intros Hstep s s' Hrun; simpl in *.
  - injection Hrun as <-. lia.
  - returned Hrun as s1.
    rewrite (IH (fun s2 a' s3 Hin => Hstep s2 a' s3 (or_intror Hin)) s1 s' Hrun).
    rewrite (Hstep s a s1 (or_introl eq_refl) Es1). lia.
Qed.

Lemma list_sum_single (k : string -> nat) (L : string) (l : list string) :
  NoDup l -> In L l ->
  list_sum (map (fun a => if string_dec L a then k a else 0) l) = k L.
Proof.
  induction l as [| a r IH]; intros Hnd Hin; [contradiction |].
  inversion Hnd as [| ? ? Hout Hnd']; subst. simpl.
  destruct (string_dec L a) as [-> | Hne].
  - assert (Hzero : list_sum (map (fun a0 => if string_dec a a0 then k a0 else 0) r)
                    = 0).
    { clear IH Hnd Hnd' Hin. induction r as [| c r IH]; [reflexivity |]. simpl.
      destruct (string_dec a c) as [-> | _]; [exfalso; apply Hout; now left |].
      apply IH. intros Hin. apply Hout. now right. }
    lia.
  - destruct Hin as [-> | Hin]; [contradiction |]. now rewrite IH.
Qed.

Lemma occurrences_cons (ptn : list string)
  (by_label : dict string (list (string * nat))) (ps : Baseline.Patterns) :
  occurrences ((ptn, by_label) :: ps)
  = list_sum (map (fun sv => length (snd sv)) by_label) + occurrences ps.
Proof. reflexivity. Qed.

Lemma occurrences_update (mine : Baseline.Patterns) (ptn : list string)
  (lbl : string) (o : string * nat) :
  occurrences (PyDict.update mine ptn []
                 (fun by_label =>
                    PyDict.update by_label lbl [] (fun occ => occ ++ [o])))
  = occurrences mine + 1.
Proof.
  assert (Hinner : forall bl : dict string (list (string * nat)),
             list_sum (map (fun sv => length (snd sv))
                         (PyDict.update bl lbl [] (fun occ => occ ++ [o])))
             = list_sum (map (fun sv => length (snd sv)) bl) + 1).
  { induction bl as [| [k v] r IH].
    - reflexivity.
    - rewrite update_cons. destruct (eq_dec lbl k); simpl.
      + rewrite length_app. simpl. lia.
      + rewrite IH. lia. }
  induction mine as [| [k v] r IH].
  - rewrite update_nil, occurrences_cons, Hinner. reflexivity.
  - rewrite update_cons. destruct (eq_dec ptn k).
    + rewrite !occurrences_cons, Hinner. lia.
    + rewrite !occurrences_cons, IH. lia.
Qed.

Lemma filter_length_NoDup (t : string) (l : list string) :
  NoDup l -> In t l ->
  S (length (filter (fun x => negb (String.eqb x t)) l)) = length l.
Proof.
  induction l as [| a r IH]; intros Hnd Hin; [contradiction |].
  inversion Hnd as [| ? ? Hout Hnd']; subst. simpl.
  destruct (String.eqb_spec a t) as [-> | Hne]; simpl.
  - f_equal. clear IH Hin Hnd. induction r as [| c r IH]; [reflexivity |].
    simpl. destruct (String.eqb_spec c t) as [-> | _];
      [exfalso; apply Hout; now left |].
    simpl. f_equal. apply IH; [| now inversion Hnd'].
    intros Hin. apply Hout. now right.
  - f_equal. destruct Hin as [-> | Hin]; [contradiction | now apply IH].
Qed.

Section Widths.
Context {C : Type} `{Classifier C}.

Lemma extract_row_wide (n : nat) (language cog : string)
  (x x' : Baseline.extraction) (ir : nat * list string) :
  length (snd ir) <= n ->
  Baseline.extract_row n language cog x ir = Some x' ->
  wide n x -> wide n x'.
Proof.
  destruct ir as [i row]. simpl. intros Hlen Hrun Hx L ps ptn Hget Hin.
  destruct (extract_row_inv _ _ _ _ _ _ _ Hrun)
    as [mine [lbl [lst [Hmine [Hlbl [Hlst [Hp Hs]]]]]]].
  rewrite Hp in Hget. destruct (string_dec L language) as [-> | Hne].
  - rewrite get_set_same in Hget. injection Hget as <-.
    unfold PyDict.update in Hin at 1. apply keys_set in Hin.
    destruct Hin as [-> | Hin]; [| exact (Hx language mine ptn Hmine Hin)].
    assert (n - 1 < length row).
    { apply nth_error_Some. unfold Baseline.label in Hlbl. congruence. }
    unfold Baseline.context. rewrite length_app, length_firstn, length_skipn.
    lia.
  - rewrite get_set_other in Hget by assumption.
    exact (Hx L ps ptn Hget Hin).
Qed.

Lemma extract_row_recorded (n : nat) (language cog : string)
  (x x' : Baseline.extraction) (ir : nat * list string) (L : string) :
  Baseline.extract_row n language cog x ir = Some x' ->
  recorded x' L = recorded x L + (if string_dec L language then 1 else 0).
Proof.
  destruct ir as [i row]. intros Hrun.
  destruct (extract_row_inv _ _ _ _ _ _ _ Hrun)
    as [mine [lbl [lst [Hmine [Hlbl [Hlst [Hp Hs]]]]]]].
  unfold recorded. rewrite Hp. destruct (string_dec L language) as [-> | Hne].
  - rewrite get_set_same, Hmine. apply occurrences_update.
  - rewrite get_set_other by assumption.
    destruct (PyDict.get (Baseline.ex_patterns x) L); lia.
Qed.
End Widths.

Lemma list_sum_ones {A : Type} (l : list A) :
  list_sum (map (fun _ => 1) l) = length l.
Proof. induction l; simpl; [reflexivity | now rewrite IHl]. Qed.

Lemma list_sum_zeros {A : Type} (l : list A) :
  list_sum (map (fun _ => 0) l) = 0.
Proof. induction l; simpl; [reflexivity | assumption]. Qed.

Lemma enumerate_length {A : Type} (l : list A) :
  length (enumerate l) = length l.
Proof.
  unfold enumerate. rewrite length_combine, length_seq. apply Nat.min_id.
Qed.

Section Counts.
Context {C : Type} `{Classifier C}.
Variables (b : Baseline.t C) (fn : AlignFunc).

Lemma extract_entry_wide (language : string) (x x' : Baseline.extraction)
  (e : Baseline.entry) :
  cell_per_language fn ->
  In language (Baseline.languages b) ->
  Baseline.extract_entry b fn language x e = Some x' ->
  wide (length (Baseline.languages b)) x ->
  wide (length (Baseline.languages b)) x'.
Proof.
  intros Hfn Hl Hrun Hx. unfold Baseline.extract_entry in Hrun.
  eapply (foldM_invariant _ (wide (length (Baseline.languages b))));
    [| exact Hx | exact Hrun].
  intros s [i row] s' Hin Hs Hstep.
  apply (extract_row_wide (length (Baseline.languages b)) language
           (Baseline.cogid e) s s' (i, row)); try assumption.
  simpl. apply enumerate_In in Hin.
  specialize (Hfn (Baseline.alms e) (Baseline.entry_languages e)
                (filter (fun l => negb (String.eqb l language))
                        (Baseline.languages b) ++ [language]) true).
  rewrite Forall_forall in Hfn. rewrite (Hfn row Hin), length_app. simpl.
  assert (length (filter (fun l => negb (String.eqb l language))
                    (Baseline.languages b))
          < length (Baseline.languages b)).
  { apply (filter_length_lt _ _ language Hl). now rewrite String.eqb_refl. }
  lia.
Qed.

Lemma extract_wide (x : Baseline.extraction) :
  cell_per_language fn ->
  Baseline.extract b fn = Some x -> wide (length (Baseline.languages b)) x.
Proof.
  unfold Baseline.extract. intros Hfn Hrun.
  eapply (foldM_invariant _ (wide (length (Baseline.languages b))));
    [| | exact Hrun].
  - intros s language s' Hl Hs Hstep. returned Hstep as es.
    eapply (foldM_invariant _ (wide (length (Baseline.languages b))));
      [| exact Hs | exact Hstep].
    intros s1 e s2 _ Hs1 Hstep1. eapply extract_entry_wide; eauto.
  - intros L ps ptn Hget Hin. simpl in Hget.
    apply get_of_list_const in Hget. now subst.
Qed.

Lemma extract_entry_recorded (language L : string)
  (x x' : Baseline.extraction) (e : Baseline.entry) :
  Baseline.extract_entry b fn language x e = Some x' ->
  recorded x' L
  = recorded x L
    + (if string_dec L language
       then length (fn (Baseline.alms e) (Baseline.entry_languages e)
                       (universe (Baseline.languages b) language) true)
       else 0).
Proof.
  unfold Baseline.extract_entry. intros Hrun.
  rewrite (foldM_sum _ (fun s => recorded s L)
             (fun _ => if string_dec L language then 1 else 0) _
             (fun s a s' _ Hstep =>
                extract_row_recorded _ language _ s s' a L Hstep)
             x x' Hrun).
  f_equal. destruct (string_dec L language).
  - rewrite list_sum_ones. apply enumerate_length.
  - apply list_sum_zeros.
Qed.

Lemma extract_language_recorded (language L : string)
  (x x' : Baseline.extraction) (es : list Baseline.entry) :
  foldM (Baseline.extract_entry b fn language) es x = Some x' ->
  recorded x' L
  = recorded x L
    + (if string_dec L language
       then positions fn (Baseline.languages b) language es else 0).
Proof.
  intros Hrun.
  rewrite (foldM_sum _ (fun s => recorded s L)
             (fun e => if string_dec L language
                       then length (fn (Baseline.alms e)
                                       (Baseline.entry_languages e)
                                       (universe (Baseline.languages b) language)
                                       true)
                       else 0) _
             (fun s a s' _ Hstep =>
                extract_entry_recorded language L s s' a Hstep)
             x x' Hrun).
  f_equal. unfold positions. destruct (string_dec L language);
    [reflexivity | apply list_sum_zeros].
Qed.

Lemma extract_recorded (x : Baseline.extraction) (L : string) :
  NoDup (Baseline.languages b) -> In L (Baseline.languages b) ->
  Baseline.extract b fn = Some x ->
  exists es,
    PyDict.get (Baseline.alignments b) L = Some es
    /\ recorded x L = positions fn (Baseline.languages b) L es.
Proof.
  intros Hnd HL Hrun. unfold Baseline.extract in Hrun.
  assert (Hes : exists es, PyDict.get (Baseline.alignments b) L = Some es).
  { destruct (PyDict.get (Baseline.alignments b) L) as [es|] eqn:E;
      [now exists es |].
    exfalso. clear Hnd. revert Hrun.
    generalize (Baseline.mkExtraction
                  (PyDict.of_list (map (fun l => (l, [])) (Baseline.languages b)))
                  []).
    induction (Baseline.languages b) as [| a r IH]; [contradiction |].
    intros s Hrun. simpl in Hrun. destruct HL as [-> | HL].
    - rewrite E in Hrun. discriminate.
    - returned Hrun as s1. eapply IH; eauto. }
  destruct Hes as [es Hes]. exists es. split; [exact Hes |].
  assert (Hstep : forall s language s',
             In language (Baseline.languages b) ->
             (fun x0 language0 =>
                es0 <- PyDict.get (Baseline.alignments b) language0 ;;
                foldM (Baseline.extract_entry b fn language0) es0 x0)
               s language = Some s' ->
             recorded s' L
             = recorded s L
               + (if string_dec L language
                  then match PyDict.get (Baseline.alignments b) language with
                       | Some es' =>
                           positions fn (Baseline.languages b) language es'
                       | None => 0
                       end
                  else 0)).
  { intros s language s' _ Hs. returned Hs as es'.
    apply (extract_language_recorded language L s s' es' Hs). }
  rewrite (foldM_sum _ (fun s => recorded s L) _ _ Hstep _ _ Hrun).
  rewrite (list_sum_single
             (fun language =>
                match PyDict.get (Baseline.alignments b) language with
                | Some es' => positions fn (Baseline.languages b) language es'
                | None => 0
                end) L _ Hnd HL).
  rewrite Hes. unfold recorded. simpl. rewrite get_of_list_keys.
  now destruct (in_dec string_dec L (Baseline.languages b)).
Qed.
End Counts.

Section Collected.
Context {C : Type} `{Classifier C}.
Variables (s2i : dict string Z) (pats : dict string Baseline.Patterns).

Lemma encode_label_collected (language L : string) (pattern : list string)
  (tr tr' : Baseline.training C) (sv : string * list (string * nat)) :
  Baseline.encode_label s2i language pattern tr sv = Some tr' ->
  collected tr' L
  = collected tr L + (if string_dec L language then length (snd sv) else 0).
Proof.
  unfold Baseline.encode_label. intros Hrun.
  returned Hrun as target. returned Hrun as row.
  assert (Hstep : forall (t : Baseline.training C) (o : string * nat)
                         (t' : Baseline.training C),
             In o (snd sv) ->
             (fun tr0 (_ : string * nat) =>
                m <- PyDict.get (Baseline.tr_matrices tr0) language ;;
                y <- PyDict.get (Baseline.tr_solutions tr0) language ;;
                Some (Baseline.mkTraining
                        (PyDict.set (Baseline.tr_matrices tr0) language
                           (m ++ [row]))
                        (PyDict.set (Baseline.tr_solutions tr0) language
                           (y ++ [target]))
                        (Baseline.tr_classifiers tr0))) t o = Some t' ->
             collected t' L
             = collected t L + (if string_dec L language then 1 else 0)).
  { intros t o t' _ Hs. returned Hs as m. returned Hs as y.
    injection Hs as <-. unfold collected. simpl.
    destruct (string_dec L language) as [-> | Hne].
    - rewrite get_set_same, Em, length_app. reflexivity.
    - rewrite get_set_other by assumption.
      destruct (PyDict.get (Baseline.tr_matrices t) L); lia. }
  rewrite (foldM_sum _ (fun t => collected t L) _ _ Hstep _ _ Hrun).
  f_equal. destruct (string_dec L language);
    [apply list_sum_ones | apply list_sum_zeros].
Qed.

Lemma fit_language_collected (language L : string)
  (tr tr' : Baseline.training C) :
  Baseline.fit_language s2i pats tr language = Some tr' ->
  collected tr' L
  = collected tr L
    + (if string_dec L language
       then match PyDict.get pats language with
            | Some mine => occurrences mine
            | None => 0
            end
       else 0).
Proof.
  unfold Baseline.fit_language. intros Hrun.
  returned Hrun as mine. returned Hrun as tr1.
  returned Hrun as clf. returned Hrun as m. returned Hrun as y.
  injection Hrun as <-. unfold collected at 1. simpl.
  fold (collected tr1 L).
  assert (Hstep : forall (t : Baseline.training C)
                         (ps : list string * dict string (list (string * nat)))
                         (t' : Baseline.training C),
             In ps mine ->
             (fun tr0 ps0 =>
                foldM (Baseline.encode_label s2i language (fst ps0))
                      (snd ps0) tr0) t ps = Some t' ->
             collected t' L
             = collected t L
               + (if string_dec L language
                  then list_sum (map (fun sv => length (snd sv)) (snd ps))
                  else 0)).
  { intros t ps t' _ Hs.
    rewrite (foldM_sum _ (fun t0 => collected t0 L)
               (fun sv => if string_dec L language then length (snd sv) else 0)
               _ (fun s a s' _ Hst =>
                    encode_label_collected language L (fst ps) s s' a Hst)
               _ _ Hs).
    f_equal. destruct (string_dec L language);
      [reflexivity | apply list_sum_zeros]. }
  rewrite (foldM_sum _ (fun t => collected t L) _ _ Hstep _ _ Etr1).
  f_equal. unfold occurrences. destruct (string_dec L language);
    [reflexivity | apply list_sum_zeros].
Qed.
End Collected.

Lemma fit_in_step {C : Type} `{Classifier C}
  (b : Baseline.t C) (fn : AlignFunc) (f : Baseline.fitted C) :
  Baseline.fit b fn = Some f ->
  forall L,
    In L (Baseline.languages b) ->
    exists m y,
      PyDict.get (Baseline.matrices f) L = Some m
      /\ PyDict.get (Baseline.solutions f) L = Some y
      /\ length m = length y.
Proof.
  intros Hfit L HL.
  destruct (fit_inv b fn f Hfit) as [x [tr [_ [Htr ->]]]]. simpl.
  assert (Hinv : in_step (Baseline.languages b) tr).
  { revert Htr. apply (foldM_invariant _ (in_step (Baseline.languages b))).
    - intros t language t' _ Ht Hstep. eapply fit_language_in_step; eauto.
    - split; simpl.
      + intros L'. rewrite !get_of_list_keys.
        now destruct (in_dec string_dec L' (Baseline.languages b)).
      + intros L' HL'. rewrite get_of_list_keys.
        now destruct (in_dec string_dec L' (Baseline.languages b)). }
  destruct Hinv as [Hstep Hkeys]. specialize (Hstep L). specialize (Hkeys L HL).
  destruct (PyDict.get (Baseline.tr_matrices tr) L) as [m|]; [| contradiction].
  destruct (PyDict.get (Baseline.tr_solutions tr) L) as [y|]; [| discriminate].
  exists m, y. simpl in Hstep. injection Hstep as Hlen. auto.
Qed.

(** X3. After [fit], every language has as many training targets as
    training rows: [self.matrices[L]] and [self.solutions[L]] have one
    length, and both exist for every language of the [Baseline]. *)
Theorem fit_rows_and_targets {C : Type} `{Classifier C}
  (b : Baseline.t C) (fn : AlignFunc) (f : Baseline.fitted C) :
  Baseline.fit b fn = Some f ->
  forall L,
    In L (Baseline.languages b) ->
    exists m y,
      PyDict.get (Baseline.matrices f) L = Some m
      /\ PyDict.get (Baseline.solutions f) L = Some y
      /\ length m = length y.
Proof.
  intros Hfit L HL.
  destruct (fit_inv b fn f Hfit) as [x [tr [_ [Htr ->]]]]. simpl.
  assert (Hinv : in_step (Baseline.languages b) tr).
  { revert Htr. apply (foldM_invariant _ (in_step (Baseline.languages b))).
    - intros t language t' _ Ht Hstep. eapply fit_language_in_step; eauto.
    - split; simpl.
      + intros L'. rewrite !get_of_list_keys.
        now destruct (in_dec string_dec L' (Baseline.languages b)).
      + intros L' HL'. rewrite get_of_list_keys.
        now destruct (in_dec string_dec L' (Baseline.languages b)). }
  destruct Hinv as [Hstep Hkeys]. specialize (Hstep L). specialize (Hkeys L HL).
  destruct (PyDict.get (Baseline.tr_matrices tr) L) as [m|]; [| contradiction].
  destruct (PyDict.get (Baseline.tr_solutions tr) L) as [y|]; [| discriminate].
  exists m, y. simpl in Hstep. injection Hstep as Hlen. auto.
Qed.

(** X4. With an alignment function that returns one cell per language,
    every training row [fit] hands to a classifier has as many cells as the
    [Baseline] has languages, the target's own cell among them. *)
Theorem fit_rows_width {C : Type} `{Classifier C}
  (b : Baseline.t C) (fn : AlignFunc) (f : Baseline.fitted C) :
  cell_per_language fn ->
  Baseline.fit b fn = Some f ->
  forall L m row,
    PyDict.get (Baseline.matrices f) L = Some m -> In row m ->
    length row = length (Baseline.languages b).
Proof.
  intros Hfn Hfit L m row Hm Hrow.
  destruct (fit_training b fn f Hfit) as [Hrows _].
  destruct (Hrows L m row Hm Hrow) as [ps [ptn [Hps [Hptn Henc]]]].
  apply mapM_length in Henc. rewrite Henc.
  destruct (fit_inv b fn f Hfit) as [x [tr [Hx [_ ->]]]]. simpl in Hps.
  exact (extract_wide b fn x Hfn Hx L ps ptn Hps Hptn).
Qed.

(** X5. With distinct language names, [fit] collects for every language one
    training row per alignment position of every alignment recorded for it
    by [__init__]: repeated patterns and repeated labels all count. *)
Theorem fit_rows_count {C : Type} `{Classifier C}
  (b : Baseline.t C) (fn : AlignFunc) (f : Baseline.fitted C) :
  NoDup (Baseline.languages b) ->
  Baseline.fit b fn = Some f ->
  forall L,
    In L (Baseline.languages b) ->
    exists es m,
      PyDict.get (Baseline.alignments b) L = Some es
      /\ PyDict.get (Baseline.matrices f) L = Some m
      /\ length m = positions fn (Baseline.languages b) L es.
Proof.
  intros Hnd Hfit L HL.
  destruct (fit_in_step b fn f Hfit L HL) as [m [y [Hm _]]].
  destruct (fit_inv b fn f Hfit) as [x [tr [Hx [Htr Hf]]]].
  destruct (extract_recorded b fn x L Hnd HL Hx) as [es [Hes Hrec]].
  exists es, m. split; [exact Hes |]. split; [exact Hm |].
  subst f. simpl in Hm.
  assert (Hstep : forall (t : Baseline.training C) (language : string)
                         (t' : Baseline.training C),
             In language (Baseline.languages b) ->
             Baseline.fit_language
               (Baseline.make_sound2idx b (Baseline.ex_sounds x))
               (Baseline.ex_patterns x) t language = Some t' ->
             collected t' L
             = collected t L
               + (if string_dec L language
                  then match PyDict.get (Baseline.ex_patterns x) language with
                       | Some mine => occurrences mine
                       | None => 0
                       end
                  else 0)).
  { intros t language t' _ Hs. eapply fit_language_collected. exact Hs. }
  pose proof (foldM_sum _ (fun t => collected t L) _ _ Hstep _ _ Htr) as Hsum.
  rewrite (list_sum_single
             (fun language =>
                match PyDict.get (Baseline.ex_patterns x) language with
                | Some mine => occurrences mine
                | None => 0
                end) L _ Hnd HL) in Hsum.
  unfold collected in Hsum. simpl in Hsum. rewrite Hm in Hsum.
  rewrite get_of_list_keys in Hsum.
  destruct (in_dec string_dec L (Baseline.languages b)); [| contradiction].
  simpl in Hsum. rewrite Hsum. exact Hrec.
Qed.

(** X6. After [fit] with an alignment function that returns one cell per
    language, and with distinct language names, the rows [predict] hands to
    the target's classifier have one cell less than the [Baseline] has
    languages: they are one cell narrower than the rows of [fit]. *)
Theorem predict_rows_width {C : Type} `{Classifier C}
  (b : Baseline.t C) (fn : AlignFunc) (f : Baseline.fitted C)
  (attested : list string) (seqs : list (list string))
  (target unknown : string) (clf : C) :
  cell_per_language fn ->
  NoDup (Baseline.languages b) ->
  Baseline.fit b fn = Some f ->
  In target (Baseline.languages b) ->
  PyDict.get (Baseline.classifiers (Baseline.self f)) target = Some clf ->
  exists X,
    Baseline.predict f attested seqs target unknown
    = Some (filter (fun x => negb (String.eqb x "-"))
              (map (Baseline.decode f unknown) (clf_predict clf X)))
    /\ Forall (fun row => S (length row) = length (Baseline.languages b)) X.
Proof.
  intros Hfn Hnd Hfit Htarget Hclf.
  unfold Baseline.predict. rewrite Hclf. cbn [bind].
  eexists. split; [reflexivity |].
  destruct (fit_inv b fn f Hfit) as [x [tr [_ [_ ->]]]]. simpl.
  unfold Baseline.encode. apply Forall_forall. intros row Hrow.
  apply in_map_iff in Hrow. destruct Hrow as [row0 [<- Hrow0]].
  rewrite length_map.
  specialize (Hfn seqs attested
                (filter (fun l => negb (String.eqb l target))
                        (Baseline.languages b)) false).
  rewrite Forall_forall in Hfn. rewrite (Hfn row0 Hrow0).
  now apply filter_length_NoDup.
Qed.

(** ** [ungap]: when it raises, and what it returns *)

Lemma column_None (alignment : list (list string)) (i : nat) :
  column alignment i = None <->
  exists row, In row alignment /\ length row <= i.
Proof.
  unfold column. induction alignment as [| row rest IH]; simpl.
  - split; [discriminate | intros [row [[] _]]].
  - destruct (nth_error row i) as [c|] eqn:Ec; simpl.
    + assert (Hi : i < length row) by (apply nth_error_Some; congruence).
      destruct (mapM (fun r => nth_error r i) rest) as [cs|]; simpl.
      * split; [discriminate |]. intros [r [[<- | Hr] Hlen]]; [lia |].
        assert (Hex : exists row0, In row0 rest /\ length row0 <= i)
          by (now exists r).
        apply IH in Hex. discriminate.
      * split; [intros _ | reflexivity].
        destruct (proj1 IH eq_refl) as [r [Hr Hlen]].
        exists r. split; [now right | exact Hlen].
    + split; [intros _ | reflexivity].
      exists row. split; [now left |]. now apply nth_error_None.
Qed.

Lemma find_merges_None (alignment : list (list string)) (pidxs idxs : list nat) :
  find_merges alignment pidxs idxs = None <->
  exists i, In i idxs /\ column alignment i = None.
Proof.
  split.
  - induction idxs as [| i rest IH]; simpl; [discriminate |].
    destruct (column alignment i) as [col|] eqn:Ec; simpl.
    + destruct (find_merges alignment pidxs rest) as [ms|]; simpl;
        [discriminate |].
      intros _. destruct (IH eq_refl) as [i' [Hi' Hc]].
      exists i'. split; [now right | exact Hc].
    + intros _. exists i. split; [now left | exact Ec].
  - intros [i [Hi Hc]].
    destruct (find_merges alignment pidxs idxs) as [ms|] eqn:E; [| reflexivity].
    apply find_merges_spec in E. destruct E as [Hcols _].
    exfalso. now apply (Hcols i Hi).
Qed.

(** X7. [ungap] raises exactly on an alignment without rows and on an
    alignment with a row shorter than its first row; on every other input it
    returns. *)
Theorem ungap_raises (alignment : list (list string))
  (languages : list string) (proto : string) :
  ungap alignment languages proto = None <->
  alignment = []
  \/ exists row, In row alignment /\ length row < length (hd [] alignment).
Proof.
  destruct alignment as [| row0 rest].
  - simpl. split; [now left | reflexivity].
  - cbn [hd]. split.
    + intros Hnone. right.
      destruct (find_merges (row0 :: rest) (pidxs_of languages proto)
                  (seq 0 (length row0))) as [merges|] eqn:Hfind.
      * rewrite (ungap_unfold _ _ _ _ _ Hfind) in Hnone.
        destruct merges as [| m ms]; [discriminate |].
        destruct (ungap_rows_total (m :: ms) (row0 :: rest)) as [out [Hout _]].
        congruence.
      * apply find_merges_None in Hfind. destruct Hfind as [i [Hi Hc]].
        apply in_seq in Hi. apply column_None in Hc.
        destruct Hc as [row [Hrow Hlen]]. exists row. split; [exact Hrow | lia].
    + intros [Hnil | [row [Hrow Hlen]]]; [discriminate |].
      assert (Hfind : find_merges (row0 :: rest) (pidxs_of languages proto)
                        (seq 0 (length row0)) = None).
      { apply find_merges_None. exists (length row). split.
        - apply in_seq. lia.
        - apply column_None. now exists row. }
      unfold ungap. now rewrite Hfind.
Qed.

Lemma regap_not_empty (cell : string) : regap cell <> ""%string.
Proof.
  unfold regap, truthy. destruct (String.eqb_spec cell ""); simpl;
    [discriminate | assumption].
Qed.

Lemma rectangular_find_merges (row0 : list string) (rest : list (list string))
  (languages : list string) (proto : string) :
  rectangular (row0 :: rest) ->
  find_merges (row0 :: rest) (pidxs_of languages proto) (seq 0 (length row0))
  = Some (marked_columns (row0 :: rest) languages proto).
Proof.
  intros Hrect. apply find_merges_spec. split; [| reflexivity].
  now apply rectangular_columns.
Qed.

Lemma merge_column_in_range (alignment : list (list string)) (pidxs : list nat)
  (i : nat) :
  merge_column alignment pidxs i = true -> i < length (hd [] alignment).
Proof.
  unfold merge_column. destruct (column alignment i) as [col|] eqn:Ec;
    [| discriminate].
  intros Hm. destruct alignment as [| row0 rest].
  - unfold column in Ec. simpl in Ec. injection Ec as <-.
    unfold col_rest, enumerate in Hm. simpl in Hm. discriminate.
  - simpl. destruct (column_In _ _ _ Ec row0 (or_introl eq_refl)) as [c [Hc _]].
    apply nth_error_Some. congruence.
Qed.

Lemma marked_columns_In (alignment : list (list string))
  (languages : list string) (proto : string) (i : nat) :
  In i (marked_columns alignment languages proto) <->
  merge_column alignment (pidxs_of languages proto) i = true.
Proof.
  unfold marked_columns. rewrite filter_In, in_seq. split; [tauto |].
  intros Hm. split; [| exact Hm].
  apply merge_column_in_range in Hm. lia.
Qed.

(** X8. On a rectangular alignment whose first column is marked, [ungap]
    merges nothing: it returns the alignment with every column in place,
    empty cells rewritten to the gap; marked columns further right stay
    apart as well. *)
Theorem ungap_first_column_marked (alignment : list (list string))
  (languages : list string) (proto : string) :
  rectangular alignment ->
  merge_column alignment (pidxs_of languages proto) 0 = true ->
  ungap alignment languages proto = Some (map (map regap) alignment)
  /\ (Forall (Forall (fun cell => cell <> ""%string)) alignment ->
      ungap alignment languages proto = Some alignment).
Proof.
  intros Hrect Hm. destruct alignment as [| row0 rest]; [contradiction |].
  pose proof (rectangular_find_merges row0 rest languages proto Hrect) as Hfind.
  assert (H0 : mem_nat 0 (marked_columns (row0 :: rest) languages proto) = true)
    by (apply mem_nat_In, marked_columns_In; exact Hm).
  pose proof (ungap_leading _ _ _ _ _ Hfind H0) as Hrun.
  split; [exact Hrun |].
  intros Hcells. rewrite Hrun. f_equal.
  rewrite <- (map_id (row0 :: rest)) at 2. apply map_ext_in.
  intros row Hrow. rewrite <- (map_id row) at 2. apply map_ext_in.
  intros c Hc. apply regap_nonempty.
  rewrite Forall_forall in Hcells. specialize (Hcells row Hrow).
  rewrite Forall_forall in Hcells. now apply Hcells.
Qed.




Lemma marked_columns_first (alignment : list (list string))
  (languages : list string) (proto : string) :
  merge_column alignment (pidxs_of languages proto) 0 = false ->
  mem_nat 0 (marked_columns alignment languages proto) = false.
Proof.
  intros H0. destruct (mem_nat 0 _) eqn:Em; [| reflexivity].
  apply mem_nat_In, marked_columns_In in Em. congruence.
Qed.


Lemma ungap_row_regapped (merges : list nat) (row out : list string) :
  ungap_row merges row = Some out ->
  Forall (fun cell => cell <> ""%string) out.
Proof.
  unfold ungap_row. intros Hrun.
  destruct (row_loop merges 0 row (mkWalk [] false true)) as [w|];
    [| discriminate].
  simpl in Hrun. injection Hrun as <-.
  apply Forall_forall. intros c Hc. apply in_map_iff in Hc.
  destruct Hc as [c' [<- _]]. apply regap_not_empty.
Qed.

(** X10. Whenever [ungap] returns and some column of the alignment is
    marked, no cell of the result is the empty string: the rebuilt rows have
    the gap in its place. *)
Theorem ungap_fills_empty_cells (alignment out : list (list string))
  (languages : list string) (proto : string) (i : nat) :
  merge_column alignment (pidxs_of languages proto) i = true ->
  ungap alignment languages proto = Some out ->
  Forall (Forall (fun cell => cell <> ""%string)) out.
Proof.
  intros Hm Hrun. destruct alignment as [| row0 rest]; [discriminate |].
  destruct (find_merges (row0 :: rest) (pidxs_of languages proto)
              (seq 0 (length row0))) as [merges|] eqn:Hfind.
  - rewrite (ungap_unfold _ _ _ _ _ Hfind) in Hrun.
    assert (Hin : mem_nat i merges = true).
    { apply (merges_marked _ _ _ _ Hfind). split; [| exact Hm].
      apply merge_column_in_range in Hm. exact Hm. }
    destruct merges as [| m ms]; [discriminate |].
    apply mapM_Forall2 in Hrun.
    apply Forall_forall. intros row' Hrow'.
    destruct (Forall2_In_r _ _ _ Hrun row' Hrow') as [row [_ Hrow]].
    now apply (ungap_row_regapped (m :: ms) row).
  - unfold ungap in Hrun. rewrite Hfind in Hrun. discriminate.
Qed.

(** X11. On a rectangular alignment whose first column is not marked and
    whose rows outside the reference language hold no empty string, the
    result of [ungap] has no marked column left. *)
Theorem ungap_leaves_no_marked_column (alignment : list (list string))
  (languages : list string) (proto : string) :
  rectangular alignment ->
  Forall (Forall (fun cell => cell <> ""%string))
         (other_rows alignment languages proto) ->
  merge_column alignment (pidxs_of languages proto) 0 = false ->
  exists out,
    ungap alignment languages proto = Some out
    /\ no_merge_column out languages proto.
Proof.
  intros Hrect Hcells H0. destruct alignment as [| row0 rest]; [contradiction |].
  pose proof (rectangular_find_merges row0 rest languages proto Hrect) as Hfind.
  pose proof (marked_columns_first _ _ _ H0) as Hfirst.
  rewrite (ungap_unfold _ _ _ _ _ Hfind).
  destruct (marked_columns (row0 :: rest) languages proto) as [| m ms] eqn:Em.
  - exists (row0 :: rest). split; [reflexivity |]. intros i.
    destruct (merge_column (row0 :: rest) (pidxs_of languages proto) i) eqn:Ei;
      [| reflexivity].
    apply marked_columns_In in Ei. rewrite Em in Ei. contradiction.
  - destruct (ungap_rows_total (m :: ms) (row0 :: rest)) as [out [Hrun _]].
    exists out. split; [exact Hrun |]. intros k.
    assert (Hne : m :: ms <> []) by discriminate.
    destruct (inner_first_row row0 rest (m :: ms) out Hfirst Hrun)
      as [out0 [outs [-> Hlen]]].
    destruct (Nat.lt_ge_cases k (kept_width (m :: ms) row0)) as [Hk | Hk].
    + now apply (inner_column_unmarked row0 rest (pidxs_of languages proto)
                   (m :: ms) (out0 :: outs) Hfind Hne Hfirst Hcells Hrun).
    + destruct (merge_column (out0 :: outs) (pidxs_of languages proto) k) eqn:Ek;
        [| reflexivity].
      apply merge_column_in_range in Ek. simpl in Ek. lia.
Qed.


(** ** [ungap]: the merged cells *)

Lemma append_empty_r (s : string) : (s ++ "")%string = s.
Proof. induction s as [| a s IH]; simpl; [reflexivity | now rewrite IH]. Qed.

Lemma append_assoc (s t u : string) :
  ((s ++ t) ++ u)%string = (s ++ t ++ u)%string.
Proof. induction s as [| a s IH]; simpl; [reflexivity | now rewrite IH]. Qed.

Lemma append_not_empty (s t : string) :
  s <> ""%string -> (s ++ t)%string <> ""%string.
Proof. destruct s; simpl; [congruence | discriminate]. Qed.

Lemma join_fused (last cell : string) (l : list string) :
  join "." ((last ++ "." ++ cell)%string :: l) = join "." (last :: cell :: l).
Proof.
  unfold join. destruct l as [| x l]; simpl; [reflexivity |].
  now rewrite !append_assoc.
Qed.

Lemma join_not_empty (cell : string) (l : list string) :
  cell <> ""%string -> join "." (cell :: l) <> ""%string.
Proof.
  intros Hc. unfold join. destruct l as [| x l]; simpl; [exact Hc |].
  now apply append_not_empty.
Qed.

Lemma fuse_truthy (cell last : string) :
  last <> ""%string -> fuse cell last = (last ++ "." ++ cell)%string.
Proof.
  intros Hl. unfold fuse, truthy.
  destruct (String.eqb_spec last ""); [contradiction | reflexivity].
Qed.

Lemma row_loop_merged (merges : list nat) (row : list string) :
  Forall (fun cell => cell <> ""%string) row ->
  forall j acc last,
    last <> ""%string ->
    row_loop merges j row (mkWalk (acc ++ [last]) false false)
    = Some (mkWalk (acc ++ join "." (last :: run_of merges j row)
                        :: merged merges j row) false false).
Proof.
  induction 1 as [| cell rest Hcell Hrest IH]; intros j acc last Hlast.
  - reflexivity.
  - cbn [row_loop run_of merged]. unfold row_step; simpl.
    rewrite orb_false_r.
    destruct (mem_nat j merges) eqn:Ej; simpl.
    + destruct (String.eqb_spec cell "-") as [-> | Hc].
      * simpl. now apply IH.
      * rewrite update_last_snoc; simpl.
        rewrite (fuse_truthy cell last Hlast).
        rewrite (IH (S j) acc _ (append_not_empty last _ Hlast)).
        now rewrite join_fused.
    + specialize (IH (S j) (acc ++ [last]) cell Hcell).
      rewrite IH, <- app_assoc. reflexivity.
Qed.

Lemma merged_not_empty (merges : list nat) (row : list string) :
  Forall (fun cell => cell <> ""%string) row ->
  forall j, Forall (fun cell => cell <> ""%string) (merged merges j row).
Proof.
  induction 1 as [| cell rest Hcell Hrest IH]; intros j; simpl;
    [constructor |].
  destruct (mem_nat j merges); [apply IH |].
  constructor; [now apply join_not_empty | apply IH].
Qed.

Lemma map_regap_id (l : list string) :
  Forall (fun cell => cell <> ""%string) l -> map regap l = l.
Proof.
  intros Hall. rewrite <- (map_id l) at 2. apply map_ext_in.
  intros c Hc. apply regap_nonempty.
  rewrite Forall_forall in Hall. now apply Hall.
Qed.

Lemma ungap_row_merged (merges : list nat) (row : list string) :
  mem_nat 0 merges = false ->
  Forall (fun cell => cell <> ""%string) row ->
  ungap_row merges row = Some (merged merges 0 row).
Proof.
  intros H0 Hrow. unfold ungap_row. destruct Hrow as [| cell rest Hcell Hrest].
  - reflexivity.
  - pose proof (row_loop_merged merges rest Hrest 1 [] cell Hcell) as Hloop.
    cbn [app] in Hloop.
    cbn [row_loop merged]. unfold row_step.
    cbn [mergeit started new_alm app]. rewrite H0.
    cbn [orb bind]. rewrite Hloop. cbn [bind new_alm].
    rewrite map_regap_id; [reflexivity |].
    constructor; [now apply join_not_empty | now apply merged_not_empty].
Qed.

(** X12. On a rectangular alignment with a marked column whose first column
    is not marked, every row without an empty cell comes back with one cell
    per unmarked column: the cell of that column followed by the cells other
    than the gap of the marked columns right after it, joined by dots. *)
Theorem ungap_joins_marked_cells (alignment : list (list string))
  (languages : list string) (proto : string) :
  rectangular alignment ->
  merge_column alignment (pidxs_of languages proto) 0 = false ->
  marked_columns alignment languages proto <> [] ->
  exists out,
    ungap alignment languages proto = Some out
    /\ Forall2 (fun row row' =>
                  Forall (fun cell => cell <> ""%string) row ->
                  row' = merged (marked_columns alignment languages proto) 0 row)
               alignment out.
Proof.
  intros Hrect H0 Hsome. destruct alignment as [| row0 rest]; [contradiction |].
  pose proof (rectangular_find_merges row0 rest languages proto Hrect) as Hfind.
  pose proof (marked_columns_first _ _ _ H0) as Hfirst.
  rewrite (ungap_unfold _ _ _ _ _ Hfind).
  destruct (ungap_rows_total (marked_columns (row0 :: rest) languages proto)
              (row0 :: rest)) as [out [Hrun _]].
  exists out. split.
  - destruct (marked_columns (row0 :: rest) languages proto);
      [contradiction | exact Hrun].
  - apply mapM_Forall2 in Hrun.
    eapply Forall2_impl; [| exact Hrun]. simpl. intros row row' Hrow Hcells.
    rewrite (ungap_row_merged _ row Hfirst Hcells) in Hrow. congruence.
Qed.


(** ** The split builder: ratios, errors and derived ids *)

Lemma foldM_None_inv {A S : Type} (f : S -> A -> option S) (l : list A) :
  forall s, foldM f l s = None -> exists a s0, In a l /\ f s0 a = None.
Proof.
  induction l as [| a r IH]; intros s; simpl; [discriminate |].
  destruct (f s a) as [s1|] eqn:E; simpl.
  - intros Hr. destruct (IH s1 Hr) as [a' [s0 [Hin Hf]]].
    exists a', s0. split; [now right | exact Hf].
  - intros _. exists a, s. split; [now left | exact E].
Qed.

Lemma foldM_None_intro {A S : Type} (f : S -> A -> option S) (l : list A)
  (a : A) :
  In a l -> (forall s, f s a = None) -> forall s, foldM f l s = None.
Proof.
  induction l as [| x r IH]; simpl; [tauto |].
  intros [-> | Hin] Hf s.
  - now rewrite Hf.
  - destruct (f s x); simpl; [now apply IH | reflexivity].
Qed.

Lemma foldM_same {A S : Type} (f : S -> A -> option S) (l : list A) :
  (forall s a, f s a = Some s) -> forall s, foldM f l s = Some s.
Proof.
  intros Hf. induction l as [| a r IH]; intros s; simpl; [reflexivity |].
  rewrite Hf. simpl. apply IH.
Qed.

Lemma In_enumerate {A : Type} (l : list A) (x : A) :
  In x l -> exists i, In (i, x) (enumerate l).
Proof.
  unfold enumerate. generalize 0.
  induction l as [| a r IH]; simpl; intros j Hin; [contradiction |].
  destruct Hin as [-> | Hin].
  - exists j. now left.
  - destruct (IH (S j) Hin) as [i Hi]. exists i. now right.
Qed.

Lemma slice_index_map {A B : Type} (f : A -> B) (l : list A) (k : Z) :
  slice_index (map f l) k = slice_index l k.
Proof. unfold slice_index. now rewrite length_map. Qed.

(** X13. Whatever the ratio, negative or above one included: when line 184
    raises, on a ratio that is infinite or not a number, so does the split;
    otherwise the two pools of a collection without repeated ids are the
    ranking cut in two: the evaluation source pool followed by the training
    pool is the ranked collection, so no item is lost and none is in
    both. *)
Theorem split_pools_any_ratio (data : dict string Item) (ratio : float) :
  NoDup (PyDict.keys data) ->
  match split_off (length data) ratio with
  | Some _ =>
      exists test_ training,
        pools data ratio = Some (test_, training)
        /\ (test_ ++ training)%list = ranked_items data
        /\ Permutation (test_ ++ training) data
  | None => pools data ratio = None
  end.
Proof.
  intros Hkeys.
  destruct (split_off (length data) ratio) as [k|] eqn:Hk.
  - rewrite (pools_ranked data ratio k Hkeys Hk).
    eexists. eexists. split; [reflexivity |].
    rewrite slices_partition. split; [reflexivity |].
    apply sorted_reverse_perm.
  - unfold pools. now rewrite Hk.
Qed.

(** With the default ratio fewer than five items give 0 at line 184. *)
Lemma default_ratio_small (n : nat) :
  n < 5 -> split_off n default_ratio = Some 0%Z.
Proof.
  intros Hn.
  do 5 (destruct n as [| n]; [vm_compute; reflexivity |]). lia.
Qed.

Lemma emit_all_empty (languages : list string) :
  emit_all [] languages = Some (mkEmitted [] []).
Proof. unfold emit_all. apply foldM_same. reflexivity. Qed.

Lemma split_at_zero (data : dict string Item) (languages : list string)
  (ratio : float) :
  NoDup (PyDict.keys data) ->
  split_off (length data) ratio = Some 0%Z ->
  split_training_test_data data languages ratio
  = Some (ranked_items data, [], []).
Proof.
  intros Hkeys Hk. unfold split_training_test_data.
  rewrite (pools_ranked data ratio 0 Hkeys Hk). cbn [bind fst snd].
  unfold slice_to, slice_from, slice_index. simpl.
  now rewrite emit_all_empty.
Qed.

(** X14. When line 184 gives 0, nothing is held out: the test and solution
    dictionaries are empty and the training pool is the whole collection,
    in ranked order. With the default ratio [0.1] this is so for every
    collection of fewer than five items. *)
Theorem split_holds_nothing_out (data : dict string Item)
  (languages : list string) (ratio : float) :
  NoDup (PyDict.keys data) ->
  (split_off (length data) ratio = Some 0%Z ->
   split_training_test_data data languages ratio
   = Some (ranked_items data, [], []))
  /\ (length data < 5 ->
      split_training_test_data data languages default_ratio
      = Some (ranked_items data, [], [])).
Proof.
  intros Hkeys. split.
  - now apply split_at_zero.
  - intros Hn. apply split_at_zero; [exact Hkeys |].
    now apply default_ratio_small.
Qed.

Lemma emit_all_None (test_ : dict string Item) (languages : list string) :
  NoDup (PyDict.keys test_) ->
  emit_all test_ languages = None <->
  exists kv L, In kv test_ /\ In L languages /\ PyDict.get (snd kv) L = None.
Proof.
  intros Hnd. unfold emit_all. split.
  - intros Hnone. apply foldM_None_inv in Hnone.
    destruct Hnone as [[i L] [e0 [HiL Hnone]]]. simpl in Hnone.
    apply enumerate_In in HiL.
    apply foldM_None_inv in Hnone. destruct Hnone as [kv [e1 [Hkv Hnone]]].
    exists kv. unfold emit_item in Hnone.
    rewrite (get_nodup test_ (fst kv) (snd kv) Hnd) in Hnone
      by now destruct kv.
    cbn [bind] in Hnone.
    destruct (PyDict.get (snd kv) L) as [v|] eqn:Ev;
      [| exists L; now repeat split].
    cbn [bind] in Hnone. destruct (truthy (join " " v)); [| discriminate].
    apply foldM_None_inv in Hnone. destruct Hnone as [LB [e2 [HLB Hnone]]].
    unfold emit_field in Hnone.
    rewrite (get_nodup test_ (fst kv) (snd kv) Hnd) in Hnone
      by now destruct kv.
    cbn [bind] in Hnone. rewrite Ev in Hnone.
    destruct (negb (String.eqb L LB)); [| discriminate].
    destruct (PyDict.get (snd kv) LB) as [v'|] eqn:Ev'; [discriminate |].
    exists LB. now repeat split.
  - intros [kv [L [Hkv [HL Hmiss]]]].
    destruct (In_enumerate languages L HL) as [i Hi].
    apply (foldM_None_intro _ _ (i, L) Hi). intros e. simpl.
    apply (foldM_None_intro _ _ kv Hkv). intros e'.
    unfold emit_item.
    rewrite (get_nodup test_ (fst kv) (snd kv) Hnd) by now destruct kv.
    cbn [bind]. now rewrite Hmiss.
Qed.

(** X15. For a collection without repeated ids,
    [split_training_test_data] raises exactly when line 184 raises, on a
    ratio that is infinite or not a number, or some item of the evaluation
    source pool has no entry for some language of [languages]; otherwise it
    returns. *)
Theorem split_raises_on_missing_language (data : dict string Item)
  (languages : list string) (ratio : float) :
  NoDup (PyDict.keys data) ->
  split_training_test_data data languages ratio = None <->
  split_off (length data) ratio = None
  \/ exists k kv L,
       split_off (length data) ratio = Some k
       /\ In kv (slice_to (ranked_items data) k)
       /\ In L languages /\ PyDict.get (snd kv) L = None.
Proof.
  intros Hkeys. unfold split_training_test_data.
  destruct (split_off (length data) ratio) as [k|] eqn:Hk.
  - rewrite (pools_ranked data ratio k Hkeys Hk). cbn [bind fst snd].
    assert (Hnd : NoDup (PyDict.keys (slice_to (ranked_items data) k))).
    { unfold PyDict.keys, slice_to. rewrite <- firstn_map.
      apply NoDup_firstn. now apply ranked_keys_NoDup. }
    pose proof (emit_all_None (slice_to (ranked_items data) k) languages Hnd)
      as Hnone.
    destruct (emit_all (slice_to (ranked_items data) k) languages);
      cbn [bind]; split.
    + discriminate.
    + intros [Hx | [k' [kv [L [Hk' Hrest]]]]]; [discriminate |].
      injection Hk' as <-.
      assert (Some e = None) by (apply Hnone; now exists kv, L).
      discriminate.
    + intros _. right.
      destruct (proj1 Hnone eq_refl) as [kv [L Hrest]].
      now exists k, kv, L.
    + reflexivity.
  - unfold pools. rewrite Hk. cbn [bind]. split; [now left | reflexivity].
Qed.

Lemma add_key_again (ks : list string) (k : string) :
  add_key (add_key ks k) k = add_key ks k.
Proof.
  unfold add_key. destruct (mem_str k ks) eqn:E; [now rewrite E |].
  assert (Hin : mem_str k (ks ++ [k]) = true).
  { apply mem_str_In, in_or_app. right. now left. }
  now rewrite Hin.
Qed.

Lemma keys_set_add {V : Type} (d : dict string V) (k : string) (v : V) :
  PyDict.keys (PyDict.set d k v) = add_key (PyDict.keys d) k.
Proof.
  unfold add_key, PyDict.keys.
  induction d as [| [k' v'] r IH]; simpl; [reflexivity |].
  unfold eq_dec, string_EqDec.
  destruct (string_dec k k') as [-> | Hne].
  - rewrite String.eqb_refl. reflexivity.
  - apply String.eqb_neq in Hne. rewrite Hne. simpl.
    unfold eq_dec, string_EqDec in IH. rewrite IH.
    now destruct (mem_str k (map fst r)).
Qed.

Lemma keys_update_add {V : Type} (d : dict string V) (k : string) (dflt : V)
  (f : V -> V) :
  PyDict.keys (PyDict.update d k dflt f) = add_key (PyDict.keys d) k.
Proof. unfold PyDict.update. apply keys_set_add. Qed.

Lemma emit_fields_keys (test_ : dict string Item) (key nk language : string)
  (ls : list string) :
  forall e e',
    foldM (emit_field test_ key nk language) ls e = Some e' ->
    PyDict.keys (test e')
    = match ls with
      | [] => PyDict.keys (test e)
      | _ :: _ => add_key (PyDict.keys (test e)) nk
      end
    /\ PyDict.keys (solutions e')
       = if mem_str language ls then add_key (PyDict.keys (solutions e)) nk
         else PyDict.keys (solutions e).
Proof.
  induction ls as [| a r IH]; intros e e' Hrun; simpl in Hrun.
  - injection Hrun as <-. now split.
  - returned Hrun as e1. destruct (IH e1 e' Hrun) as [Ht Hs]. clear IH Hrun.
    unfold emit_field in Ee1. returned Ee1 as item.
    cbn [mem_str existsb].
    destruct (String.eqb language a) eqn:Ea; cbn [negb orb] in *.
    + returned Ee1 as v. injection Ee1 as <-. cbn [test solutions] in *.
      rewrite !keys_update_add in *. split.
      * rewrite Ht. destruct r; [reflexivity | apply add_key_again].
      * rewrite Hs. fold (mem_str language r).
        destruct (mem_str language r); [apply add_key_again | reflexivity].
    + returned Ee1 as v. injection Ee1 as <-. cbn [test solutions] in *.
      rewrite !keys_update_add in *. split.
      * rewrite Ht. destruct r; [reflexivity | apply add_key_again].
      * exact Hs.
Qed.

Lemma emit_item_keys (test_ : dict string Item) (languages : list string)
  (i : nat) (language : string) (e e' : emitted) (kv : string * Item) :
  In language languages ->
  PyDict.keys (test e) = PyDict.keys (solutions e) ->
  emit_item test_ languages i language e kv = Some e' ->
  PyDict.keys (test e') = PyDict.keys (solutions e').
Proof.
  intros Hin Hsame Hrun. unfold emit_item in Hrun.
  returned Hrun as item. returned Hrun as v.
  destruct (truthy (join " " v)); [| now injection Hrun as <-].
  destruct (emit_fields_keys _ _ _ _ _ _ _ Hrun) as [Ht Hs].
  apply mem_str_In in Hin. rewrite Hin in Hs.
  destruct languages as [| l ls]; [discriminate |].
  congruence.
Qed.

(** X16. Whenever [split_training_test_data] returns, the test dictionary
    and the solutions dictionary have the same derived ids, in the same
    order. *)
Theorem split_test_and_solutions_ids (data : dict string Item)
  (languages : list string) (ratio : float)
  (training test_items solution_items : dict string Item) :
  split_training_test_data data languages ratio
  = Some (training, test_items, solution_items) ->
  PyDict.keys test_items = PyDict.keys solution_items.
Proof.
  unfold split_training_test_data. intros Hrun.
  returned Hrun as p. returned Hrun as e. injection Hrun as _ <- <-.
  unfold emit_all in Ee.
  apply (foldM_invariant _
           (fun e => PyDict.keys (test e) = PyDict.keys (solutions e))
           _ ) with (s := mkEmitted [] []) (s' := e) in Ee;
    [exact Ee | | reflexivity].
  intros s [i L] s' HiL Hs Hstep. simpl in Hstep.
  apply enumerate_In in HiL.
  apply (foldM_invariant _
           (fun e => PyDict.keys (test e) = PyDict.keys (solutions e))
           _ ) with (s := s) (s' := s') in Hstep;
    [exact Hstep | | exact Hs].
  intros s1 kv s2 _ Hs1 Hitem.
  now apply (emit_item_keys (fst p) languages i L s1 s2 kv).
Qed.


(** ** The split builder: the derived items *)

Lemma str_injective (n m : nat) : str n = str m -> n = m.
Proof.
  assert (Hback : forall k,
            option_map Nat.of_uint (NilZero.uint_of_string (str k)) = Some k).
  { intros k. unfold str.
    destruct (Nat.to_uint k) as [| | | | | | | | | |] eqn:E;
      try (rewrite NilZero.usu by discriminate; simpl; rewrite <- E;
           now rewrite DecimalNat.Unsigned.of_to).
    rewrite NilZero.usu_nil. simpl. f_equal.
    rewrite <- (DecimalNat.Unsigned.of_to k), E. reflexivity. }
  intros Heq. pose proof (Hback n) as Hn. rewrite Heq, Hback in Hn.
  now injection Hn.
Qed.

Lemma str_no_hyphen (n : nat) : no_hyphen (str n).
Proof.
  unfold str, no_hyphen.
  assert (Hgen : forall d,
            ~ In "-"%char (list_ascii_of_string (NilEmpty.string_of_uint d))).
  { induction d; simpl; intuition discriminate. }
  destruct (Nat.to_uint n); [simpl; intuition discriminate | ..];
    match goal with
    | |- ~ In _ (list_ascii_of_string (NilZero.string_of_uint ?d)) =>
        apply (Hgen d)
    end.
Qed.

Lemma hyphen_inside (x y : string) :
  In "-"%char (list_ascii_of_string (x ++ "-" ++ y)).
Proof. induction x as [| a x IH]; simpl; [now left | now right]. Qed.

Lemma last_hyphen (k k' d d' : string) :
  no_hyphen d -> no_hyphen d' ->
  (k ++ "-" ++ d)%string = (k' ++ "-" ++ d')%string -> k = k' /\ d = d'.
Proof.
  intros Hd Hd'. revert k'.
  induction k as [| a k IH]; intros [| a' k']; simpl; intros Heq.
  - injection Heq as ->. now split.
  - injection Heq as <- ->. exfalso. apply Hd, hyphen_inside.
  - injection Heq as -> <-. exfalso. apply Hd', hyphen_inside.
  - injection Heq as -> Heq. destruct (IH k' Heq) as [-> ->]. now split.
Qed.

Lemma derived_id_injective (k k' : string) (i i' : nat) :
  derived_id k i = derived_id k' i' -> k = k' /\ i = i'.
Proof.
  unfold derived_id. intros Heq.
  apply last_hyphen in Heq; try apply str_no_hyphen.
  destruct Heq as [-> Heq]. apply str_injective in Heq. split; [reflexivity | lia].
Qed.

Lemma get_fresh {V : Type} (d : dict string V) (k : string) :
  ~ In k (PyDict.keys d) -> PyDict.get d k = None.
Proof.
  intros Hout. destruct (PyDict.get d k) as [v|] eqn:E; [| reflexivity].
  exfalso. apply Hout. apply get_keys. now exists v.
Qed.

Lemma get_app_fresh {V : Type} (d d' : dict string V) (k : string) :
  ~ In k (PyDict.keys d) -> PyDict.get (d ++ d') k = PyDict.get d' k.
Proof.
  induction d as [| [k0 v0] r IH]; simpl; intros Hout; [reflexivity |].
  destruct (eq_dec k k0) as [-> | Hne]; [tauto |]. apply IH. tauto.
Qed.

Lemma set_app_fresh {V : Type} (d d' : dict string V) (k : string) (v : V) :
  ~ In k (PyDict.keys d) ->
  PyDict.set (d ++ d') k v = (d ++ PyDict.set d' k v)%list.
Proof.
  induction d as [| [k0 v0] r IH]; simpl; intros Hout; [reflexivity |].
  destruct (eq_dec k k0) as [-> | Hne]; [tauto |]. rewrite IH by tauto.
  reflexivity.
Qed.

Lemma update_slot (d : dict string Item) (k : string) (item : Item)
  (f : Item -> Item) :
  ~ In k (PyDict.keys d) ->
  PyDict.update (slot d k item) k [] f = (d ++ [(k, f item)])%list.
Proof.
  intros Hout. unfold PyDict.update, PyDict.get_default, slot.
  destruct item as [| x item].
  - rewrite (get_fresh d k Hout). now apply set_fresh.
  - rewrite (get_app_fresh d _ k Hout), (set_app_fresh d _ k _ Hout). simpl.
    now destruct (eq_dec k k).
Qed.

Lemma slot_snoc (d : dict string Item) (k : string) (item : Item)
  (x : string * list string) :
  (d ++ [(k, item ++ [x])])%list = slot d k (item ++ [x]).
Proof. unfold slot. now destruct item. Qed.

Section Derived.
Variables (test_ : dict string Item) (languages : list string).
Hypothesis Hids : NoDup (PyDict.keys test_).
Hypothesis Hlangs : NoDup languages.
Hypothesis Hfull :
  forall kv L, In kv test_ -> In L languages -> PyDict.get (snd kv) L <> None.

Lemma emit_fields_derived (kv : string * Item) (nk language : string)
  (T S : dict string Item) :
  In kv test_ ->
  ~ In nk (PyDict.keys T) -> ~ In nk (PyDict.keys S) ->
  forall ls P Q,
    NoDup ls -> incl ls languages ->
    (forall L, In L ls -> ~ In L (PyDict.keys P)) ->
    (In language ls -> Q = []) ->
    foldM (emit_field test_ (fst kv) nk language) ls
          (mkEmitted (slot T nk P) (slot S nk Q))
    = Some (mkEmitted
              (slot T nk (P ++ map (fun L =>
                            (L, if String.eqb language L then ["?"%string]
                                else PyDict.get_default (snd kv) L [])) ls))
              (slot S nk (if mem_str language ls
                          then [(language,
                                 PyDict.get_default (snd kv) language [])]
                          else Q))).
Proof.
  intros Hkv HT HS.
  assert (Hget : PyDict.get test_ (fst kv) = Some (snd kv))
    by (apply get_nodup; [exact Hids | now destruct kv]).
  induction ls as [| a r IH]; intros P Q Hnd Hincl HP HQ.
  - simpl. now rewrite app_nil_r.
  - inversion Hnd as [| ? ? Ha Hr]; subst.
    assert (Hitem : exists v, PyDict.get (snd kv) a = Some v).
    { destruct (PyDict.get (snd kv) a) as [v|] eqn:E; [now exists v |].
      exfalso. apply (Hfull kv a Hkv); [apply Hincl; now left | exact E]. }
    destruct Hitem as [v Hv].
    cbn [foldM]. unfold emit_field at 1. rewrite Hget. cbn [bind].
    cbn [mem_str existsb map].
    destruct (String.eqb_spec language a) as [-> | Hne]; cbn [negb orb].
    + rewrite Hv. cbn [bind test solutions].
      rewrite (HQ (or_introl eq_refl)).
      rewrite !update_slot by assumption.
      rewrite (set_fresh P a) by (apply HP; now left). simpl PyDict.set.
      rewrite slot_snoc.
      change (S ++ [(nk, [(a, v)])])%list with (slot S nk [(a, v)]).
      rewrite IH.
      * rewrite <- app_assoc. simpl.
        assert (Hout : mem_str a r = false).
        { destruct (mem_str a r) eqn:E; [| reflexivity].
          apply mem_str_In in E. contradiction. }
        rewrite Hout. unfold PyDict.get_default. rewrite Hv. reflexivity.
      * exact Hr.
      * intros L HL. apply Hincl. now right.
      * intros L HL. unfold PyDict.keys. rewrite map_app, in_app_iff.
        simpl. intros [Hin | [<- | []]]; [| contradiction].
        apply (HP L); [now right | exact Hin].
      * intros Hin. contradiction.
    + rewrite Hv. cbn [bind test solutions].
      rewrite update_slot by assumption.
      rewrite (set_fresh P a) by (apply HP; now left).
      rewrite slot_snoc. rewrite IH.
      * rewrite <- app_assoc. simpl.
        replace (PyDict.get_default (snd kv) a []) with v
          by (unfold PyDict.get_default; now rewrite Hv).
        reflexivity.
      * exact Hr.
      * intros L HL. apply Hincl. now right.
      * intros L HL. unfold PyDict.keys. rewrite map_app, in_app_iff.
        simpl. intros [Hin | [<- | []]]; [| contradiction].
        apply (HP L); [now right | exact Hin].
      * intros Hin. apply HQ. now right.
Qed.

Lemma emit_item_derived (i : nat) (language : string) (kv : string * Item)
  (T S : dict string Item) :
  In kv test_ -> In language languages ->
  ~ In (derived_id (fst kv) i) (PyDict.keys T) ->
  ~ In (derived_id (fst kv) i) (PyDict.keys S) ->
  emit_item test_ languages i language (mkEmitted T S) kv
  = Some (mkEmitted
            (T ++ if held_out kv language
                  then [(derived_id (fst kv) i,
                         masked languages language (snd kv))]
                  else [])
            (S ++ if held_out kv language
                  then [(derived_id (fst kv) i,
                         [(language,
                           PyDict.get_default (snd kv) language [])])]
                  else [])).
Proof.
  intros Hkv HL HT HS. unfold emit_item, held_out.
  rewrite (get_nodup test_ (fst kv) (snd kv) Hids) by now destruct kv.
  cbn [bind]. unfold PyDict.get_default.
  destruct (PyDict.get (snd kv) language) as [v|] eqn:Ev;
    [| exfalso; now apply (Hfull kv language Hkv HL)].
  cbn [bind]. destruct (truthy (join " " v)); [| now rewrite !app_nil_r].
  pose proof (emit_fields_derived kv (derived_id (fst kv) i) language T S
                Hkv HT HS languages [] [] Hlangs (incl_refl _)
                (fun _ _ Hin => Hin) (fun _ => eq_refl)) as Hrun.
  cbn [slot app] in Hrun. unfold derived_id in *. rewrite Hrun.
  apply mem_str_In in HL. rewrite HL.
  unfold PyDict.get_default at 2. rewrite Ev. unfold masked, slot.
  destruct languages as [| l ls]; [discriminate | reflexivity].
Qed.
End Derived.


Lemma keys_flat_map {A V : Type} (f : A -> dict string V) (l : list A)
  (k : string) :
  In k (PyDict.keys (flat_map f l)) ->
  exists x, In x l /\ In k (PyDict.keys (f x)).
Proof.
  unfold PyDict.keys. intros Hin. apply in_map_iff in Hin.
  destruct Hin as [[k' v] [<- Hin]]. apply in_flat_map in Hin.
  destruct Hin as [x [Hx Hin]]. exists x. split; [exact Hx |].
  apply in_map_iff. now exists (k', v).
Qed.

Lemma enumerate_indices {A : Type} (l : list A) :
  NoDup (map fst (enumerate l)).
Proof.
  unfold enumerate.
  assert (Hgen : forall (r : list A) j,
            map fst (combine (seq j (length r)) r) = seq j (length r)).
  { induction r as [| a r IH]; intros j; simpl; [reflexivity |].
    now rewrite IH. }
  rewrite Hgen. apply seq_NoDup.
Qed.

Section DerivedLoops.
Variables (test_ : dict string Item) (languages : list string).
Hypothesis Hids : NoDup (PyDict.keys test_).
Hypothesis Hlangs : NoDup languages.
Hypothesis Hfull :
  forall kv L, In kv test_ -> In L languages -> PyDict.get (snd kv) L <> None.

Lemma emit_items_derived (i : nat) (language : string) :
  In language languages ->
  forall kvs T S,
    incl kvs test_ -> NoDup (map fst kvs) ->
    (forall kv, In kv kvs ->
                ~ In (derived_id (fst kv) i) (PyDict.keys T)
                /\ ~ In (derived_id (fst kv) i) (PyDict.keys S)) ->
    foldM (emit_item test_ languages i language) kvs (mkEmitted T S)
    = Some (mkEmitted
              (T ++ flat_map (fun kv =>
                      if held_out kv language
                      then [(derived_id (fst kv) i,
                             masked languages language (snd kv))]
                      else []) kvs)
              (S ++ flat_map (fun kv =>
                      if held_out kv language
                      then [(derived_id (fst kv) i,
                             [(language,
                               PyDict.get_default (snd kv) language [])])]
                      else []) kvs)).
Proof.
  intros HL. induction kvs as [| a r IH]; intros T S Hincl Hnd Hfresh.
  - simpl. now rewrite !app_nil_r.
  - inversion Hnd as [| ? ? Ha Hr]; subst.
    destruct (Hfresh a (or_introl eq_refl)) as [HT HS].
    cbn [foldM flat_map].
    rewrite (emit_item_derived test_ languages Hids Hlangs Hfull i language a
               T S (Hincl a (or_introl eq_refl)) HL HT HS).
    cbn [bind]. rewrite IH.
    + now rewrite <- !app_assoc.
    + intros kv Hkv. apply Hincl. now right.
    + exact Hr.
    + intros kv Hkv.
      assert (Hne : derived_id (fst kv) i <> derived_id (fst a) i).
      { intros Heq. apply derived_id_injective in Heq. destruct Heq as [Heq _].
        apply Ha. rewrite <- Heq. now apply in_map. }
      destruct (Hfresh kv (or_intror Hkv)) as [HT' HS'].
      unfold PyDict.keys in *. rewrite !map_app, !in_app_iff.
      split; (intros [Hin | Hin]; [tauto |]);
        destruct (held_out a language); simpl in Hin; intuition congruence.
Qed.

Lemma emit_languages_derived :
  forall ils T S,
    (forall il, In il ils -> In (snd il) languages) ->
    NoDup (map fst ils) ->
    (forall il kv, In il ils -> In kv test_ ->
                   ~ In (derived_id (fst kv) (fst il)) (PyDict.keys T)
                   /\ ~ In (derived_id (fst kv) (fst il)) (PyDict.keys S)) ->
    foldM (fun e il =>
             foldM (emit_item test_ languages (fst il) (snd il)) test_ e)
          ils (mkEmitted T S)
    = Some (mkEmitted
              (T ++ flat_map (fun il =>
                      flat_map (fun kv =>
                        if held_out kv (snd il)
                        then [(derived_id (fst kv) (fst il),
                               masked languages (snd il) (snd kv))]
                        else []) test_) ils)
              (S ++ flat_map (fun il =>
                      flat_map (fun kv =>
                        if held_out kv (snd il)
                        then [(derived_id (fst kv) (fst il),
                               [(snd il,
                                 PyDict.get_default (snd kv) (snd il) [])])]
                        else []) test_) ils)).
Proof.
  induction ils as [| a r IH]; intros T S Hin Hnd Hfresh.
  - simpl. now rewrite !app_nil_r.
  - inversion Hnd as [| ? ? Ha Hr]; subst.
    cbn [foldM flat_map].
    rewrite (emit_items_derived (fst a) (snd a) (Hin a (or_introl eq_refl))
               test_ T S (incl_refl _) Hids
               (fun kv Hkv => Hfresh a kv (or_introl eq_refl) Hkv)).
    cbn [bind]. rewrite IH.
    + now rewrite <- !app_assoc.
    + intros il Hil. apply Hin. now right.
    + exact Hr.
    + intros il kv Hil Hkv.
      assert (Hne : forall kv' : string * Item,
                 derived_id (fst kv) (fst il)
                 <> derived_id (fst kv') (fst a)).
      { intros kv' Heq. apply derived_id_injective in Heq.
        destruct Heq as [_ Heq]. apply Ha. rewrite <- Heq. now apply in_map. }
      destruct (Hfresh il kv (or_intror Hil) Hkv) as [HT' HS'].
      unfold PyDict.keys in *. rewrite !map_app, !in_app_iff.
      split; (intros [Hk | Hk]; [tauto |]);
        apply (keys_flat_map _ test_) in Hk; destruct Hk as [kv' [_ Hk]];
        (destruct (held_out kv' (snd a)); simpl in Hk;
         [destruct Hk as [Hk | []]; now apply (Hne kv') | contradiction]).
Qed.

Lemma emit_all_derived :
  emit_all test_ languages
  = Some (mkEmitted (derived_test test_ languages)
                    (derived_solutions test_ languages)).
Proof.
  unfold emit_all, derived_test, derived_solutions.
  rewrite emit_languages_derived; [reflexivity | | |].
  - intros [i L] Hil. simpl. now apply enumerate_In in Hil.
  - apply enumerate_indices.
  - intros il kv _ _. simpl. tauto.
Qed.
End DerivedLoops.

(** X17. For a collection without repeated ids, a ratio for which line 184
    gives [k] and distinct languages, if every item of the evaluation source
    pool, the slice [[:k]] of the ranking, has an entry for every language,
    [split_training_test_data] returns; for each language, in the order of
    [languages], and each pool item with a non-empty entry for it, in pool
    order, there is one derived item with the id [key-(i+1)]: its test item
    lists every language with the entry of that language replaced by [?],
    its solution holds that entry alone. A pair whose entry is empty yields
    nothing. *)
Theorem split_derived_items (data : dict string Item)
  (languages : list string) (ratio : float) (k : Z) :
  NoDup (PyDict.keys data) ->
  split_off (length data) ratio = Some k ->
  NoDup languages ->
  (forall kv L,
     In kv (slice_to (ranked_items data) k) ->
     In L languages -> PyDict.get (snd kv) L <> None) ->
  split_training_test_data data languages ratio
  = Some (slice_from (ranked_items data) k,
          derived_test (slice_to (ranked_items data) k) languages,
          derived_solutions (slice_to (ranked_items data) k) languages).
Proof.
  intros Hkeys Hk Hlangs Hfull. unfold split_training_test_data.
  rewrite (pools_ranked data ratio k Hkeys Hk). cbn [bind fst snd].
  rewrite emit_all_derived; [reflexivity | | exact Hlangs | exact Hfull].
  unfold PyDict.keys, slice_to. rewrite <- firstn_map.
  apply NoDup_firstn. now apply ranked_keys_NoDup.
Qed.


(** ** [Baseline.__init__]: errors and the alignments it records *)

Lemma foldM_None_within {A S : Type} (f : S -> A -> option S) (P : S -> Prop)
  (l : list A) :
  (forall s a s', In a l -> P s -> f s a = Some s' -> P s') ->
  forall s, P s -> foldM f l s = None ->
  exists a s0, In a l /\ P s0 /\ f s0 a = None.
Proof.
  induction l as [| a r IH]; intros Hstep s Hs; simpl; [discriminate |].
  destruct (f s a) as [s1|] eqn:E; simpl.
  - intros Hr.
    destruct (IH (fun s2 a' s3 Hin => Hstep s2 a' s3 (or_intror Hin)) s1
                (Hstep s a s1 (or_introl eq_refl) Hs E) Hr)
      as [a' [s0 [Hin [Hs0 Hf]]]].
    exists a', s0. repeat split; [now right | exact Hs0 | exact Hf].
  - intros _. exists a, s. repeat split; [now left | exact Hs | exact E].
Qed.

Lemma enumerate_nth {A : Type} (l : list A) (i : nat) (x : A) :
  In (i, x) (enumerate l) -> nth_error l i = Some x.
Proof.
  unfold enumerate.
  assert (Hgen : forall (r : list A) j,
            In (i, x) (combine (seq j (length r)) r) ->
            j <= i /\ nth_error r (i - j) = Some x).
  { induction r as [| a r IH]; intros j; simpl; [tauto |].
    intros [Heq | Hin].
    - injection Heq as -> ->. rewrite Nat.sub_diag. now split.
    - destruct (IH (S j) Hin) as [Hle Hnth]. split; [lia |].
      replace (i - j) with (S (i - S j)) by lia. exact Hnth. }
  intros Hin. destruct (Hgen l 0 Hin) as [_ Hnth].
  now rewrite Nat.sub_0_r in Hnth.
Qed.

Lemma enumerate_snd {A : Type} (l : list A) : map snd (enumerate l) = l.
Proof.
  unfold enumerate. generalize 0.
  induction l as [| a r IH]; intros j; simpl; [reflexivity |].
  now rewrite IH.
Qed.

Section Scan.
Context {C : Type} `{Classifier C}.
Variables (cog : string) (item : Item).

(** The scan of lines 332-337 collects the attested languages, in order,
    each with its entry. *)
Lemma scan_languages (ls : list string) :
  forall a a',
    foldM (Baseline.scan_language cog item) ls a = Some a' ->
    Baseline.att_languages a'
    = (Baseline.att_languages a ++ filter (attested_in item) ls)%list
    /\ Baseline.att_alms a'
       = (Baseline.att_alms a
          ++ map (fun L => PyDict.get_default item L [])
                 (filter (attested_in item) ls))%list.
Proof.
  induction ls as [| L r IH]; intros a a' Hrun; simpl in Hrun.
  - injection Hrun as <-. now rewrite !app_nil_r.
  - returned Hrun as a1. destruct (IH a1 a' Hrun) as [Hl Ha]. clear IH Hrun.
    unfold Baseline.scan_language in Ea1. returned Ea1 as v.
    assert (Hatt : attested_in item L
                   = match v with
                     | [] => false
                     | x :: r => negb (String.eqb (join " " (x :: r)) "?")
                     end)
      by (unfold attested_in; now rewrite Ev).
    assert (Hdef : PyDict.get_default item L [] = v)
      by (unfold PyDict.get_default; now rewrite Ev).
    cbn [filter]. rewrite Hatt. destruct v as [| x v].
    + injection Ea1 as <-. now split.
    + destruct (negb (String.eqb (join " " (x :: v)) "?"));
        injection Ea1 as <-; cbn [Baseline.att_languages Baseline.att_alms] in *.
      * cbn [map]. rewrite Hl, Ha, Hdef, <- !app_assoc. now split.
      * now split.
Qed.

Lemma scan_total (ls : list string) :
  (forall L, In L ls -> PyDict.get item L <> None) ->
  forall a, exists a', foldM (Baseline.scan_language cog item) ls a = Some a'.
Proof.
  induction ls as [| L r IH]; intros Hfull a; simpl; [now exists a |].
  unfold Baseline.scan_language at 1.
  destruct (PyDict.get item L) as [v|] eqn:Ev;
    [| exfalso; now apply (Hfull L (or_introl eq_refl))].
  cbn [bind].
  destruct v as [| x v]; [| destruct (negb _)]; cbn [bind];
    apply IH; intros L' HL'; apply Hfull; now right.
Qed.
End Scan.


Lemma without_index_map {A B : Type} (g : A -> B) (i : nat) (l : list A) :
  Baseline.without_index i (map g l) = map g (Baseline.without_index i l).
Proof.
  unfold Baseline.without_index, enumerate. rewrite length_map.
  generalize 0. induction l as [| a r IH]; intros j; simpl; [reflexivity |].
  destruct (negb (Nat.eqb i j)); simpl; now rewrite IH.
Qed.

Lemma without_index_below {A : Type} (i : nat) (l : list A) :
  forall j, i < j ->
    map snd (filter (fun jx => negb (Nat.eqb i (fst jx)))
               (combine (seq j (length l)) l)) = l.
Proof.
  induction l as [| a r IH]; intros j Hlt; simpl; [reflexivity |].
  destruct (Nat.eqb_spec i j); [lia |]. simpl. rewrite IH by lia. reflexivity.
Qed.

Lemma filter_absent (x : string) (l : list string) :
  ~ In x l -> filter (fun y => negb (String.eqb y x)) l = l.
Proof.
  induction l as [| a r IH]; simpl; intros Hout; [reflexivity |].
  destruct (String.eqb_spec a x) as [-> | Hne]; [tauto |]. simpl.
  rewrite IH by tauto. reflexivity.
Qed.

Lemma without_index_filter (i : nat) (x : string) (l : list string) :
  NoDup l -> nth_error l i = Some x ->
  Baseline.without_index i l = filter (fun y => negb (String.eqb y x)) l.
Proof.
  unfold Baseline.without_index, enumerate. intros Hnd Hnth.
  assert (Hgen : forall (r : list string) j,
            NoDup r -> j <= i -> nth_error r (i - j) = Some x ->
            map snd (filter (fun jx => negb (Nat.eqb i (fst jx)))
                       (combine (seq j (length r)) r))
            = filter (fun y => negb (String.eqb y x)) r).
  { induction r as [| a r IH]; intros j Hr Hle Hx; simpl; [reflexivity |].
    inversion Hr as [| ? ? Ha Hr']; subst.
    destruct (Nat.eqb_spec i j) as [-> | Hne]; simpl.
    - rewrite Nat.sub_diag in Hx. simpl in Hx. injection Hx as ->.
      rewrite String.eqb_refl. simpl.
      rewrite without_index_below by lia. now rewrite filter_absent.
    - replace (i - j) with (S (i - S j)) in Hx by lia. simpl in Hx.
      destruct (String.eqb_spec a x) as [-> | Hax].
      + exfalso. apply Ha. eapply nth_error_In; eauto.
      + simpl. rewrite (IH (S j)); [reflexivity | assumption | lia | assumption]. }
  apply Hgen; [assumption | lia | now rewrite Nat.sub_0_r].
Qed.

Section Init.
Context {C : Type} `{Classifier C}.
Variables (langs : list string) (dat : dict string Item).

Lemma init_keys :
  forall L, In L langs ->
    In L (PyDict.keys
            (PyDict.of_list (map (fun l => (l, @nil Baseline.entry)) langs))).
Proof.
  intros L HL. apply keys_of_list. rewrite map_map. simpl. now rewrite map_id.
Qed.

Lemma record_keys (cog : string) (a : Baseline.attested)
  (al al' : dict string (list Baseline.entry)) (il : nat * string) :
  Baseline.record_alignment cog a al il = Some al' ->
  forall L, In L (PyDict.keys al) -> In L (PyDict.keys al').
Proof.
  destruct il as [i L']. unfold Baseline.record_alignment. intros Hrun.
  returned Hrun as alm. returned Hrun as old. injection Hrun as <-.
  intros L HL. apply keys_set. now right.
Qed.

Lemma init_item_keys (st st' : dict string (list Baseline.entry)
                                * dict string (list string))
  (kv : string * Item) :
  Baseline.init_item langs st kv = Some st' ->
  (forall L, In L langs -> In L (PyDict.keys (fst st))) ->
  forall L, In L langs -> In L (PyDict.keys (fst st')).
Proof.
  unfold Baseline.init_item. intros Hrun Hst.
  returned Hrun as a. returned Hrun as al. injection Hrun as <-. simpl.
  revert Eal.
  apply (foldM_invariant _
           (fun d => forall L, In L langs -> In L (PyDict.keys d)));
    [| exact Hst].
  intros d il d' _ Hd Hstep L HL.
  eapply record_keys; eauto.
Qed.

End Init.


Lemma scanned {C : Type} `{Classifier C} (langs : list string)
  (cog : string) (item : Item) (tp : dict string (list string))
  (a : Baseline.attested) :
  foldM (Baseline.scan_language cog item) langs (Baseline.mkAttested [] [] tp)
  = Some a ->
  Baseline.att_languages a = filter (attested_in item) langs
  /\ Baseline.att_alms a
     = map (fun L => PyDict.get_default item L [])
           (filter (attested_in item) langs).
Proof.
  intros Hrun. apply scan_languages in Hrun. exact Hrun.
Qed.

(** X18. [Baseline.__init__] raises exactly when some cognate set has no
    entry for some language of the header; otherwise it returns. *)
Theorem init_raises_on_missing_language {C : Type} `{Classifier C}
  (langs : list string) (dat : dict string Item) (minrefs : Z)
  (missing_ gap_ : string) (threshold : Z) (func_ : AlignFunc) :
  Baseline.init langs dat minrefs missing_ gap_ threshold func_ = None <->
  exists kv L, In kv dat /\ In L langs /\ PyDict.get (snd kv) L = None.
Proof.
  unfold Baseline.init. split.
  - intros Hnone.
    destruct (foldM (Baseline.init_item langs) dat
                (PyDict.of_list (map (fun l => (l, [])) langs), []))
      as [st|] eqn:Hfold; [discriminate |]. clear Hnone.
    apply (foldM_None_within _
             (fun st => forall L, In L langs -> In L (PyDict.keys (fst st))))
      in Hfold.
    + destruct Hfold as [kv [st0 [Hkv [Hst0 Hnone]]]].
      exists kv. unfold Baseline.init_item in Hnone.
      match type of Hnone with
      | bind ?m _ = None => destruct m as [a|] eqn:Escan
      end.
      * exfalso. cbn [bind] in Hnone.
        destruct (scanned langs _ _ _ a Escan) as [Hl Ha].
        match type of Hnone with
        | bind ?m _ = None =>
            destruct m as [al|] eqn:Erec; [discriminate Hnone |]
        end.
        apply (foldM_None_within _
                 (fun d => forall L, In L langs -> In L (PyDict.keys d)))
          in Erec.
        -- destruct Erec as [[i L] [d [HiL [Hd Hrec]]]].
           unfold Baseline.record_alignment in Hrec.
           apply enumerate_nth in HiL.
           rewrite Ha, nth_error_map in Hrec. rewrite Hl in HiL.
           rewrite HiL in Hrec. cbn [option_map bind] in Hrec.
           apply nth_error_In, filter_In in HiL. destruct HiL as [HL _].
           apply Hd, get_keys in HL. destruct HL as [old Hold].
           rewrite Hold in Hrec. discriminate.
        -- intros d il d' _ Hd Hstep L HL. eapply record_keys; eauto.
        -- exact Hst0.
      * apply foldM_None_inv in Escan.
        destruct Escan as [L [a0 [HL Hscan]]]. exists L.
        repeat split; [exact Hkv | exact HL |].
        unfold Baseline.scan_language in Hscan.
        destruct (PyDict.get (snd kv) L) as [v|]; [| reflexivity].
        cbn [bind] in Hscan.
        destruct v; [discriminate |]. now destruct (negb _).
    + intros st kv st' _ Hst Hstep. now apply (init_item_keys langs st st' kv).
    + simpl. apply init_keys.
  - intros [kv [L [Hkv [HL Hmiss]]]].
    rewrite (foldM_None_intro _ _ kv Hkv); [reflexivity |].
    intros st. unfold Baseline.init_item.
    rewrite (foldM_None_intro _ _ L HL); [reflexivity |].
    intros a. unfold Baseline.scan_language. now rewrite Hmiss.
Qed.

Section Entries.
Context {C : Type} `{Classifier C}.
Variables (langs : list string) (dat : dict string Item).
Hypothesis Hlangs : NoDup langs.

(** What holds of an entry [e] of [self.alignments[L]]. *)
Local Abbreviation recorded_for L e :=
  (exists item,
      In (Baseline.cogid e, item) dat
      /\ attested_in item L = true
      /\ Baseline.entry_languages e = listed langs item L
      /\ Baseline.alms e
         = map (fun lang => PyDict.get_default item lang [])
               (Baseline.entry_languages e)).

Lemma init_item_entries (st st' : dict string (list Baseline.entry)
                                  * dict string (list string))
  (kv : string * Item) :
  In kv dat ->
  Baseline.init_item langs st kv = Some st' ->
  (forall L es e, PyDict.get (fst st) L = Some es -> In e es ->
                  recorded_for L e) ->
  forall L es e, PyDict.get (fst st') L = Some es -> In e es ->
                 recorded_for L e.
Proof.
  unfold Baseline.init_item. intros Hkv Hrun Hst.
  returned Hrun as a. returned Hrun as al. injection Hrun as <-. simpl.
  destruct (scanned langs _ _ _ a Ea) as [Hl Ha].
  revert Eal.
  apply (foldM_invariant _
           (fun d => forall L es e, PyDict.get d L = Some es -> In e es ->
                                    recorded_for L e));
    [| exact Hst].
  intros d [i L'] d' HiL Hd Hstep L es e Hget Hin.
  unfold Baseline.record_alignment in Hstep.
  returned Hstep as alm. returned Hstep as old. injection Hstep as <-.
  destruct (string_dec L L') as [-> | Hne].
  - rewrite get_set_same in Hget. injection Hget as <-.
    apply in_app_iff in Hin. destruct Hin as [Hin | [<- | []]].
    + now apply (Hd L' old e).
    + apply enumerate_nth in HiL. rewrite Hl in HiL.
      exists (snd kv). cbn [Baseline.cogid Baseline.entry_languages Baseline.alms].
      split; [now destruct kv |].
      split; [apply nth_error_In, filter_In in HiL; tauto |].
      split; [now rewrite Hl |].
      rewrite Ha in *. rewrite nth_error_map, HiL in Ealm.
      injection Ealm as <-.
      rewrite without_index_map, map_app, Hl. cbn [map]. f_equal. f_equal.
      apply without_index_filter; [| exact HiL].
      now apply NoDup_filter.
  - rewrite get_set_other in Hget by exact Hne. now apply (Hd L es e).
Qed.
End Entries.

(** X19. After [Baseline.__init__] over distinct languages, every alignment
    entry stored for a language [L] comes from a cognate set in which [L]
    is attested; it lists the other attested languages in header order and
    then [L], and its sequences are that set's entries for the listed
    languages, in the same order. *)
Theorem init_alignment_entries {C : Type} `{Classifier C}
  (langs : list string) (dat : dict string Item) (minrefs : Z)
  (missing_ gap_ : string) (threshold : Z) (func_ : AlignFunc)
  (b : Baseline.t C) (L : string) (es : list Baseline.entry)
  (e : Baseline.entry) :
  NoDup langs ->
  Baseline.init langs dat minrefs missing_ gap_ threshold func_ = Some b ->
  PyDict.get (Baseline.alignments b) L = Some es -> In e es ->
  exists item,
    In (Baseline.cogid e, item) dat
    /\ attested_in item L = true
    /\ Baseline.entry_languages e = listed langs item L
    /\ Baseline.alms e
       = map (fun lang => PyDict.get_default item lang [])
             (Baseline.entry_languages e).
Proof.
  intros Hlangs Hinit. unfold Baseline.init in Hinit.
  returned Hinit as st. injection Hinit as <-. cbn [Baseline.alignments].
  revert L es e. revert Est.
  apply (foldM_invariant _
           (fun st => forall L es e,
                        PyDict.get (fst st) L = Some es -> In e es ->
                        exists item,
                          In (Baseline.cogid e, item) dat
                          /\ attested_in item L = true
                          /\ Baseline.entry_languages e = listed langs item L
                          /\ Baseline.alms e
                             = map (fun lang => PyDict.get_default item lang [])
                                   (Baseline.entry_languages e))).
  - intros s kv s' Hkv Hs Hstep.
    now apply (init_item_entries langs dat Hlangs s s' kv).
  - simpl. intros L es e Hget Hin.
    apply get_of_list_const in Hget. subst. contradiction.
Qed.


Lemma filter_eqb_NoDup (L : string) (l : list string) :
  NoDup l -> filter (String.eqb L) l = if mem_str L l then [L] else [].
Proof.
  induction 1 as [| a r Ha Hr IH]; simpl; [reflexivity |].
  destruct (String.eqb_spec L a) as [-> | Hne]; simpl.
  - rewrite IH.
    destruct (mem_str a r) eqn:E; [| reflexivity].
    apply mem_str_In in E. contradiction.
  - exact IH.
Qed.

Lemma record_appends {C : Type} `{Classifier C} (cog : string)
  (a : Baseline.attested) (ils : list (nat * string)) :
  forall al al',
    foldM (Baseline.record_alignment cog a) ils al = Some al' ->
    forall L es,
      PyDict.get al L = Some es ->
      exists new,
        PyDict.get al' L = Some (es ++ new)%list
        /\ map Baseline.cogid new
           = map (fun _ => cog) (filter (String.eqb L) (map snd ils)).
Proof.
  induction ils as [| [i L'] r IH]; intros al al' Hrun L es Hget;
    simpl in Hrun.
  - injection Hrun as <-. exists []. now rewrite app_nil_r.
  - returned Hrun as al1. unfold Baseline.record_alignment in Eal1.
    returned Eal1 as alm. returned Eal1 as old. injection Eal1 as <-.
    cbn [map snd filter].
    destruct (String.eqb_spec L L') as [-> | Hne].
    + assert (old = es) by congruence. subst old.
      destruct (IH _ al' Hrun L' _ (get_set_same al L' _)) as [new [Hnew Hids]].
      eexists. rewrite <- app_assoc in Hnew. split; [exact Hnew |].
      simpl. now rewrite Hids.
    + apply (IH _ al' Hrun L es). now rewrite get_set_other.
Qed.

Lemma init_items_cognates {C : Type} `{Classifier C} (langs : list string)
  (L : string) :
  NoDup langs -> In L langs ->
  forall dat st st',
    foldM (Baseline.init_item langs) dat st = Some st' ->
    forall es,
      PyDict.get (fst st) L = Some es ->
      exists es',
        PyDict.get (fst st') L = Some es'
        /\ map Baseline.cogid es'
           = (map Baseline.cogid es
              ++ map fst (filter (fun kv => attested_in (snd kv) L) dat))%list.
Proof.
  intros Hlangs HL. induction dat as [| kv r IH]; intros st st' Hrun es Hget;
    simpl in Hrun.
  - injection Hrun as <-. exists es. now rewrite app_nil_r.
  - returned Hrun as st1. unfold Baseline.init_item in Est1.
    returned Est1 as a. returned Est1 as al. injection Est1 as <-.
    destruct (scanned langs _ _ _ a Ea) as [Hl _].
    destruct (record_appends _ _ _ _ _ Eal L es Hget) as [new [Hnew Hids]].
    destruct (IH _ st' Hrun _ Hnew) as [es' [Hes' Hcogs]].
    exists es'. split; [exact Hes' |].
    rewrite Hcogs, map_app, Hids, enumerate_snd, Hl, <- app_assoc.
    f_equal. rewrite (filter_eqb_NoDup L) by now apply NoDup_filter.
    cbn [filter].
    destruct (attested_in (snd kv) L) eqn:Eatt.
    + assert (Hmem : mem_str L (filter (attested_in (snd kv)) langs) = true)
        by (apply mem_str_In, filter_In; now split).
      rewrite Hmem. reflexivity.
    + assert (Hmem : mem_str L (filter (attested_in (snd kv)) langs) = false).
      { destruct (mem_str L _) eqn:E; [| reflexivity].
        apply mem_str_In, filter_In in E. destruct E. congruence. }
      rewrite Hmem. reflexivity.
Qed.

(** X20. After [Baseline.__init__] over distinct languages, the alignments
    stored for a language of the header are one per cognate set in which
    that language is attested, in the order of the data; a set in which its
    entry is empty or the placeholder contributes none. *)
Theorem init_alignment_cognates {C : Type} `{Classifier C}
  (langs : list string) (dat : dict string Item) (minrefs : Z)
  (missing_ gap_ : string) (threshold : Z) (func_ : AlignFunc)
  (b : Baseline.t C) (L : string) :
  NoDup langs -> In L langs ->
  Baseline.init langs dat minrefs missing_ gap_ threshold func_ = Some b ->
  exists es,
    PyDict.get (Baseline.alignments b) L = Some es
    /\ map Baseline.cogid es
       = map fst (filter (fun kv => attested_in (snd kv) L) dat).
Proof.
  intros Hlangs HL Hinit. unfold Baseline.init in Hinit.
  returned Hinit as st. injection Hinit as <-. cbn [Baseline.alignments].
  assert (Hstart : PyDict.get
                     (fst (PyDict.of_list
                             (map (fun l => (l, @nil Baseline.entry)) langs),
                           @nil (string * list string))) L = Some []).
  { simpl. pose proof (init_keys langs L HL) as Hin.
    apply get_keys in Hin. destruct Hin as [v Hv].
    rewrite Hv. f_equal. now apply get_of_list_const in Hv. }
  destruct (init_items_cognates langs L Hlangs HL dat _ st Est [] Hstart)
    as [es [Hes Hcogs]].
  exists es. split; [exact Hes | exact Hcogs].
Qed.


(** ** [fit]: a row that is too short *)

Lemma extract_short_row {C : Type} `{Classifier C} (b : Baseline.t C)
  (fn : AlignFunc) (L : string) (es : list Baseline.entry)
  (e : Baseline.entry) (row : list string) :
  In L (Baseline.languages b) ->
  PyDict.get (Baseline.alignments b) L = Some es -> In e es ->
  In row (fn (Baseline.alms e) (Baseline.entry_languages e)
             (universe (Baseline.languages b) L) true) ->
  length row < length (Baseline.languages b) ->
  Baseline.extract b fn = None.
Proof.
  intros HL Hes He Hrow Hshort. unfold Baseline.extract.
  apply (foldM_None_intro _ _ L HL). intros x. rewrite Hes. cbn [bind].
  apply (foldM_None_intro _ _ e He). intros x1.
  unfold Baseline.extract_entry.
  destruct (In_enumerate _ row Hrow) as [i Hi].
  apply (foldM_None_intro _ _ (i, row) Hi). intros x2.
  unfold Baseline.extract_row, Baseline.label.
  assert (Hnone : nth_error row (length (Baseline.languages b) - 1) = None)
    by (apply nth_error_None; lia).
  now rewrite Hnone.
Qed.

(** X21. [fit] raises whenever the alignment function returns, for some
    stored alignment of some language, a row with fewer cells than there
    are languages: line 370 reads the cell at index [len(self.languages)-1]
    of every row. So when [fit] returns, every row of every alignment matrix
    had at least that many cells. *)
Theorem fit_raises_on_short_row {C : Type} `{Classifier C}
  (b : Baseline.t C) (fn : AlignFunc) (L : string)
  (es : list Baseline.entry) (e : Baseline.entry) (row : list string) :
  In L (Baseline.languages b) ->
  PyDict.get (Baseline.alignments b) L = Some es -> In e es ->
  In row (fn (Baseline.alms e) (Baseline.entry_languages e)
             (universe (Baseline.languages b) L) true) ->
  length row < length (Baseline.languages b) ->
  Baseline.fit b fn = None.
Proof.
  intros HL Hes He Hrow Hshort. unfold Baseline.fit.
  now rewrite (extract_short_row b fn L es e row HL Hes He Hrow Hshort).
Qed.


(** ** [load_cognate_file] *)

Lemma set_get_same {V : Type} (d : dict string V) (k : string) (v : V) :
  PyDict.get d k = Some v -> PyDict.set d k v = d.
Proof.
  induction d as [| [k0 v0] r IH]; simpl; [discriminate |].
  destruct (eq_dec k k0) as [-> | Hne].
  - intros Hx. now injection Hx as ->.
  - intros Hx. now rewrite IH.
Qed.

Lemma set_set {V : Type} (d : dict string V) (k : string) (v v' : V) :
  PyDict.set (PyDict.set d k v) k v' = PyDict.set d k v'.
Proof.
  induction d as [| [k0 v0] r IH]; simpl.
  - now destruct (eq_dec k k).
  - destruct (eq_dec k k0) as [-> | Hne]; simpl.
    + now destruct (eq_dec k0 k0).
    + destruct (eq_dec k k0); [contradiction | now rewrite IH].
Qed.

Lemma fold_left_map {A B S : Type} (f : S -> B -> S) (g : A -> B)
  (l : list A) :
  forall s, fold_left f (map g l) s = fold_left (fun s a => f s (g a)) l s.
Proof. induction l as [| a r IH]; intros s; simpl; [reflexivity | apply IH]. Qed.

Lemma combine_map_r {A B B' : Type} (g : B -> B') (l : list A) (l' : list B) :
  combine l (map g l') = map (fun p => (fst p, g (snd p))) (combine l l').
Proof.
  revert l'. induction l as [| a r IH]; intros [| b r']; simpl;
    try reflexivity.
  now rewrite IH.
Qed.

Section Load.
Variable split : string -> list string.

Lemma load_entries (cog : string) (pairs : list (string * string)) :
  forall s o item,
    PyDict.get o cog = Some item ->
    exists s',
      foldM (load_entry split cog) pairs (s, o)
      = Some (s', PyDict.set o cog
                    (fold_left (fun d le =>
                                  PyDict.set d (fst le) (split (snd le)))
                               pairs item)).
Proof.
  induction pairs as [| le r IH]; intros s o item Hget.
  - exists s. simpl. now rewrite set_get_same.
  - cbn [foldM]. unfold load_entry at 1. cbn [fst snd]. rewrite Hget.
    cbn [bind].
    destruct (IH (fold_left (load_sound cog (fst le))
                    (enumerate (split (snd le))) s)
                 (PyDict.set o cog
                    (PyDict.set item (fst le) (split (snd le))))
                 (PyDict.set item (fst le) (split (snd le)))
                 (get_set_same _ _ _)) as [s' Hrun].
    exists s'. rewrite Hrun, set_set. reflexivity.
Qed.

Lemma load_row_item (languages : list string) (cog : string)
  (entries : list string) (s : dict string (dict string (list (string * nat))))
  (o : dict string Item) :
  exists s',
    load_row split languages (s, o) (cog :: entries)
    = Some (s', PyDict.set o cog
                  (snd (item_of_row split languages (cog :: entries)))).
Proof.
  unfold load_row. cbn [fst snd].
  destruct (load_entries cog (combine languages entries) s
              (PyDict.set o cog []) [] (get_set_same _ _ _)) as [s' Hrun].
  exists s'. rewrite Hrun, set_set. unfold item_of_row. cbn [snd tl].
  unfold PyDict.of_list. rewrite combine_map_r, fold_left_map. reflexivity.
Qed.

Lemma load_rows (languages : list string) (rows : list (list string)) :
  ~ In [] rows ->
  forall s o,
    exists s',
      foldM (load_row split languages) rows (s, o)
      = Some (s', fold_left (fun d kv => PyDict.set d (fst kv) (snd kv))
                    (map (item_of_row split languages) rows) o).
Proof.
  induction rows as [| row r IH]; intros Hrows s o.
  - exists s. reflexivity.
  - destruct row as [| cog entries]; [exfalso; apply Hrows; now left |].
    cbn [foldM map fold_left].
    destruct (load_row_item languages cog entries s o) as [s1 Hrow].
    rewrite Hrow. cbn [bind].
    apply IH. intros Hin. apply Hrows. now right.
Qed.
End Load.

(** X22. [load_cognate_file] raises exactly when the file has no row at
    all, or some row after the header is empty; otherwise it returns. *)
Theorem load_raises_on_empty_row (split : string -> list string)
  (data : list (list string)) :
  load_cognate_file split data = None <-> data = [] \/ In [] (tl data).
Proof.
  destruct data as [| header rows]; cbn [load_cognate_file tl].
  - split; [now left | reflexivity].
  - split.
    + intros Hnone. right.
      destruct (in_dec (list_eq_dec string_dec) [] rows) as [Hin | Hout];
        [exact Hin |].
      exfalso.
      destruct (load_rows split (tl header) rows Hout [] []) as [s' Hrun].
      match type of Hnone with
      | bind ?m _ = None => destruct m as [st|] eqn:E
      end; [discriminate Hnone |].
      pose proof (eq_trans (eq_sym E) Hrun) as Hno. discriminate Hno.
    + intros [Hnil | Hin]; [discriminate |].
      rewrite (foldM_None_intro _ _ [] Hin); [reflexivity |].
      intros st. reflexivity.
Qed.

Lemma load_out (split : string -> list string)
  (data : list (list string)) (l : loaded) :
  load_cognate_file split data = Some l ->
  ld_languages l = tl (hd [] data)
  /\ ld_out l
     = PyDict.of_list (map (item_of_row split (tl (hd [] data))) (tl data)).
Proof.
  destruct data as [| header rows]; [discriminate |].
  cbn [load_cognate_file hd tl]. intros Hrun.
  assert (Hout : ~ In [] rows).
  { intros Hin. rewrite (foldM_None_intro _ _ [] Hin) in Hrun;
      [discriminate Hrun | reflexivity]. }
  destruct (load_rows split (tl header) rows Hout [] []) as [s' Hrows].
  returned Hrun as st. injection Hrun as <-.
  pose proof (eq_trans (eq_sym Est) Hrows) as Hst. injection Hst as ->.
  split; reflexivity.
Qed.

(** X23. When [load_cognate_file] returns, the languages are the header
    without its first cell, and the data is the dictionary of the rows:
    each row gives the item keyed by its first cell that pairs the languages
    with its split cells, as far as both reach; a later row with the same
    id replaces the earlier one. *)
Theorem load_items (split : string -> list string)
  (data : list (list string)) (l : loaded) :
  load_cognate_file split data = Some l ->
  ld_languages l = tl (hd [] data)
  /\ ld_out l
     = PyDict.of_list (map (item_of_row split (tl (hd [] data))) (tl data)).
Proof.
  destruct data as [| header rows]; [discriminate |].
  cbn [load_cognate_file hd tl]. intros Hrun.
  assert (Hout : ~ In [] rows).
  { intros Hin. rewrite (foldM_None_intro _ _ [] Hin) in Hrun;
      [discriminate Hrun | reflexivity]. }
  destruct (load_rows split (tl header) rows Hout [] []) as [s' Hrows].
  returned Hrun as st. injection Hrun as <-.
  pose proof (eq_trans (eq_sym Est) Hrows) as Hst. injection Hst as ->.
  split; reflexivity.
Qed.

Lemma combine_keys {A B : Type} (l : list A) (l' : list B) :
  map fst (combine l l') = firstn (length l') l.
Proof.
  revert l'. induction l as [| a r IH]; intros [| b r']; simpl;
    try reflexivity.
  now rewrite IH.
Qed.

Lemma combine_values {A B : Type} (l : list A) (l' : list B) :
  map snd (combine l l') = firstn (length l) l'.
Proof.
  revert l'. induction l as [| a r IH]; intros [| b r']; simpl;
    try reflexivity.
  now rewrite IH.
Qed.

(** X24. With distinct languages in the header, every loaded item comes
    from a row with its id: its languages are the first languages of the
    header, as many as the row has cells after the id, and its entries are
    those cells split, cells beyond the header dropped. A row shorter than
    the header so gives an item without the last languages. *)
Theorem load_item_languages (split : string -> list string)
  (data : list (list string)) (l : loaded) (cog : string) (item : Item) :
  NoDup (tl (hd [] data)) ->
  load_cognate_file split data = Some l ->
  In (cog, item) (ld_out l) ->
  exists row,
    In row (tl data) /\ hd ""%string row = cog
    /\ PyDict.keys item = firstn (length (tl row)) (ld_languages l)
    /\ PyDict.values item
       = map split (firstn (length (ld_languages l)) (tl row)).
Proof.
  intros Hnd Hrun Hin.
  destruct (load_out split data l Hrun) as [Hl Ho].
  rewrite Ho in Hin. apply of_list_In, in_map_iff in Hin.
  destruct Hin as [row [Heq Hrow]]. unfold item_of_row in Heq.
  injection Heq as Hcog Hitem. exists row.
  split; [exact Hrow |]. split; [exact Hcog |].
  rewrite Hl. rewrite of_list_nodup in Hitem.
  - subst item. unfold PyDict.keys, PyDict.values.
    rewrite combine_keys, combine_values, length_map, firstn_map.
    now split.
  - rewrite combine_keys. now apply NoDup_firstn.
Qed.


(** ** [write_cognate_file] *)

Lemma concat_empty_cons (x : string) (l : list string) :
  String.concat "" (x :: l) = (x ++ String.concat "" l)%string.
Proof.
  destruct l as [| y l]; simpl; [now rewrite append_empty_r | reflexivity].
Qed.

Lemma join_cons_flat (sep x : string) (l : list string) :
  join sep (x :: l)
  = (x ++ String.concat "" (map (fun y => sep ++ y) l))%string.
Proof.
  unfold join. revert x. induction l as [| y l IH]; intros x.
  - simpl. now rewrite append_empty_r.
  - cbn [map]. rewrite concat_empty_cons.
    change (String.concat sep (x :: y :: l))
      with (x ++ sep ++ String.concat sep (y :: l))%string.
    now rewrite IH, append_assoc.
Qed.

Lemma write_fields (v : Item) (languages : list string) :
  forall text,
    fold_left (write_field v) languages text
    = (text ++ String.concat ""
                 (map (fun y => tab ++ y)
                    (map (fun L => join " " (PyDict.get_default v L []))
                         languages)))%string.
Proof.
  induction languages as [| L r IH]; intros text.
  - simpl. now rewrite append_empty_r.
  - cbn [fold_left map]. rewrite IH, concat_empty_cons.
    unfold write_field. now rewrite !append_assoc.
Qed.

Lemma write_items (languages : list string) (data : dict string Item) :
  forall text,
    fold_left (write_item languages) data text
    = (text ++ lines_text (map (row_fields languages) data))%string.
Proof.
  unfold lines_text.
  induction data as [| kv r IH]; intros text.
  - simpl. now rewrite append_empty_r.
  - cbn [fold_left map]. rewrite IH, concat_empty_cons.
    unfold write_item, row_fields. rewrite write_fields, join_cons_flat.
    now rewrite !append_assoc.
Qed.

(** X25. The text [write_cognate_file] writes is one line per item after
    the header line, each the item's id and its entries for the languages
    joined by tabs, an entry being its tokens joined by spaces and the
    empty string for a language the item lacks. The header line is [COGID]
    and the languages joined by tabs; with no language at all it is [COGID]
    followed by a tab, one cell more than the rows have. *)
Theorem write_cognate_file_lines (languages : list string)
  (data : dict string Item) :
  write_cognate_file languages data
  = (match languages with
     | [] => "COGID" ++ tab
     | _ :: _ => join tab ("COGID" :: languages)
     end ++ newline
     ++ lines_text (map (row_fields languages) data))%string.
Proof.
  unfold write_cognate_file. rewrite write_items.
  destruct languages as [| L r].
  - simpl join. now rewrite !append_assoc.
  - change (join tab ("COGID"%string :: L :: r))
      with ("COGID" ++ tab ++ join tab (L :: r))%string.
    now rewrite !append_assoc.
Qed.


(** ** [predict_words] *)

Lemma last_cons {A : Type} (a d : A) (l : list A) :
  last (a :: l) d = last l a.
Proof.
  revert a d. induction l as [| b r IH]; intros a d; [reflexivity |].
  change (last (a :: b :: r) d) with (last (b :: r) d).
  now rewrite !IH.
Qed.

Lemma gather_all (values : Item) (ls : list string) :
  (forall L, In L ls -> PyDict.get values L <> None) ->
  forall g,
    foldM (gather values) ls g
    = Some (mkGathered
              (g_alms g ++ map (fun L => PyDict.get_default values L [])
                               (filter (real_in values) ls))
              (g_languages g ++ filter (real_in values) ls)
              (last (filter (asked_in values) ls) (g_target g))).
Proof.
  induction ls as [| L r IH]; intros Hfull g.
  - simpl. rewrite !app_nil_r. now destruct g.
  - assert (Hr : forall L', In L' r -> PyDict.get values L' <> None)
      by (intros L' HL'; apply Hfull; now right).
    destruct (PyDict.get values L) as [v|] eqn:Ev;
      [| exfalso; now apply (Hfull L (or_introl eq_refl))].
    assert (Hdef : PyDict.get_default values L [] = v)
      by (unfold PyDict.get_default; now rewrite Ev).
    assert (Hreal : real_in values L
                    = negb (mem_str (join " " v) ["?"%string; ""%string]))
      by (unfold real_in; now rewrite Ev).
    assert (Hasked : asked_in values L = String.eqb (join " " v) "?")
      by (unfold asked_in; now rewrite Ev).
    cbn [foldM filter]. rewrite Hreal, Hasked.
    unfold gather at 1. rewrite Ev.
    cbn [mem_str existsb]. rewrite orb_false_r.
    destruct (String.eqb (join " " v) "?") eqn:Easked; cbn [orb negb bind].
    + rewrite (IH Hr). cbn [g_alms g_languages g_target].
      now rewrite last_cons.
    + destruct (String.eqb (join " " v) "") eqn:Eempty; cbn [negb bind].
      * now rewrite (IH Hr).
      * rewrite (IH Hr). cbn [g_alms g_languages g_target map].
        now rewrite Hdef, <- !app_assoc.
Qed.

Lemma gather_missing (values : Item) (ls : list string) (L : string) :
  In L ls -> PyDict.get values L = None ->
  forall g, foldM (gather values) ls g = None.
Proof.
  intros HL Hmiss. apply (foldM_None_intro _ _ L HL).
  intros g. unfold gather. now rewrite Hmiss.
Qed.

Lemma predict_item_target_aux {C : Type} `{Classifier C}
  (f : Baseline.fitted C) (languages : list string)
  (predictions : dict string Item) (cog : string) (values : Item) :
  (forall L, In L languages -> PyDict.get values L <> None) ->
  predict_item f languages predictions (cog, values)
  = match filter (real_in values) languages with
    | [] => Some predictions
    | _ :: _ =>
        if truthy (target_of values languages) then
          out <- Baseline.predict f (filter (real_in values) languages)
                   (map (fun L => PyDict.get_default values L [])
                        (filter (real_in values) languages))
                   (target_of values languages) "?" ;;
          Some (PyDict.update predictions cog []
                  (fun d => PyDict.set d (target_of values languages) out))
        else Some predictions
    end.
Proof.
  intros Hfull. unfold predict_item. cbn [fst snd].
  rewrite (gather_all values languages Hfull). cbn [bind app].
  cbn [g_alms g_languages g_target]. fold (target_of values languages).
  now destruct (filter (real_in values) languages).
Qed.

(** X26. For a test item that has an entry for every language of the test
    header, [predict_words] predicts at most one language: the last one
    whose entry is the placeholder, from the languages with a real entry in
    header order and their entries. An item without a real entry or without
    a placeholder is skipped. *)
Theorem predict_item_target {C : Type} `{Classifier C}
  (f : Baseline.fitted C) (languages : list string)
  (predictions : dict string Item) (cog : string) (values : Item) :
  (forall L, In L languages -> PyDict.get values L <> None) ->
  predict_item f languages predictions (cog, values)
  = match filter (real_in values) languages with
    | [] => Some predictions
    | _ :: _ =>
        if truthy (target_of values languages) then
          out <- Baseline.predict f (filter (real_in values) languages)
                   (map (fun L => PyDict.get_default values L [])
                        (filter (real_in values) languages))
                   (target_of values languages) "?" ;;
          Some (PyDict.update predictions cog []
                  (fun d => PyDict.set d (target_of values languages) out))
        else Some predictions
    end.
Proof.
  intros Hfull. unfold predict_item. cbn [fst snd].
  rewrite (gather_all values languages Hfull). cbn [bind app].
  cbn [g_alms g_languages g_target]. fold (target_of values languages).
  now destruct (filter (real_in values) languages).
Qed.

(** X27. [predict_words] raises on a test item that has no entry for some
    language of the test header, and on one that has a real entry and a
    placeholder when the trained [Baseline] has no classifier for the
    language to predict. *)
Theorem predict_item_raises {C : Type} `{Classifier C}
  (f : Baseline.fitted C) (languages : list string)
  (predictions : dict string Item) (cog : string) (values : Item) :
  (exists L, In L languages /\ PyDict.get values L = None)
  \/ (filter (real_in values) languages <> []
      /\ target_of values languages <> ""%string
      /\ PyDict.get (Baseline.classifiers (Baseline.self f))
           (target_of values languages) = None) ->
  predict_item f languages predictions (cog, values) = None.
Proof.
  assert (Hdec : (exists L, In L languages /\ PyDict.get values L = None)
                 \/ forall L, In L languages -> PyDict.get values L <> None).
  { clear. induction languages as [| L r [[L' [HL' Hm]] | IH]].
    - right. intros L [].
    - left. exists L'. split; [now right | exact Hm].
    - destruct (PyDict.get values L) as [v|] eqn:Ev.
      + right. intros L' [<- | HL']; [congruence | now apply IH].
      + left. exists L. split; [now left | exact Ev]. }
  intros Hcase.
  destruct Hdec as [[L [HL Hmiss]] | Hfull].
  - unfold predict_item. cbn [fst snd].
    now rewrite (gather_missing values languages L HL Hmiss).
  - destruct Hcase as [[L [HL Hmiss]] | [Hcur [Htarget Hclf]]];
      [exfalso; now apply (Hfull L HL) |].
    rewrite (predict_item_target_aux f languages predictions cog values Hfull).
    destruct (filter (real_in values) languages) as [| c cs];
      [contradiction |].
    unfold truthy.
    destruct (String.eqb_spec (target_of values languages) "");
      [contradiction |].
    cbn [negb]. unfold Baseline.predict. now rewrite Hclf.
Qed.


Lemma nth_not_in_firstn (l : list string) (k : nat) (d : string) :
  NoDup l -> k < length l -> ~ In (nth k l d) (firstn k l).
Proof.
  intros Hnd. revert k. induction Hnd as [| a r Ha Hr IH]; intros k Hk;
    simpl in Hk; [lia |].
  destruct k as [| k]; simpl; [tauto |].
  intros [Heq | Hin].
  - apply Ha. rewrite Heq. apply nth_In. lia.
  - apply (IH k); [lia | exact Hin].
Qed.

Lemma short_row_item (split : string -> list string)
  (languages row : list string) :
  NoDup languages -> length (tl row) < length languages ->
  exists L,
    In L languages
    /\ PyDict.get (snd (item_of_row split languages row)) L = None.
Proof.
  intros Hnd Hshort. exists (nth (length (tl row)) languages ""%string).
  split; [now apply nth_In |].
  apply get_fresh. unfold item_of_row. cbn [snd].
  assert (Hkeys : map fst (combine languages (map split (tl row)))
                  = firstn (length (tl row)) languages)
    by (now rewrite combine_keys, length_map).
  rewrite of_list_nodup by (rewrite Hkeys; now apply NoDup_firstn).
  unfold PyDict.keys. rewrite Hkeys. now apply nth_not_in_firstn.
Qed.

(** X28. When the test file has distinct languages in its header, distinct
    ids, and a row with fewer cells after the id than the header has
    languages, [predict_words] raises: the item of that row lacks a
    language, and line 421 reads its entry. *)
Theorem predict_words_short_row {C : Type} `{Classifier C}
  (split : string -> list string) (fn : AlignFunc)
  (idata pdata : list (list string)) (row : list string) :
  NoDup (tl (hd [] pdata)) ->
  NoDup (map (hd ""%string) (tl pdata)) ->
  In row (tl pdata) ->
  length (tl row) < length (tl (hd [] pdata)) ->
  predict_words split fn idata pdata = None.
Proof.
  intros Hlangs Hids Hrow Hshort. unfold predict_words.
  destruct (load_cognate_file split idata) as [i|]; [| reflexivity].
  cbn [bind].
  destruct (Baseline.init (ld_languages i) (ld_out i) 2 "Ø" "-" 1 fn)
    as [b|]; [| reflexivity].
  cbn [bind]. destruct (Baseline.fit b fn) as [f|]; [| reflexivity].
  cbn [bind].
  destruct (load_cognate_file split pdata) as [p|] eqn:Hp; [| reflexivity].
  cbn [bind]. destruct (load_out split pdata p Hp) as [Hl Ho].
  rewrite of_list_nodup in Ho
    by (rewrite map_map; unfold item_of_row; cbn [fst]; exact Hids).
  destruct (short_row_item split (tl (hd [] pdata)) row Hlangs Hshort)
    as [L [HL Hmiss]].
  rewrite (foldM_None_intro _ _ (item_of_row split (tl (hd [] pdata)) row));
    [reflexivity | |].
  - rewrite Ho. now apply in_map.
  - intros predictions. unfold predict_item. rewrite Hl.
    now rewrite (gather_missing _ _ L HL Hmiss).
Qed.


(** ** The further properties at concrete inputs *)

Lemma codec_inverse_maps_witness :
  exists (b : Baseline.t (list Z)) (f : Baseline.fitted (list Z)),
    Baseline.init (H := first_label) ["A"; "B"]%string two_languages 2
      "Ø"%string "-"%string 1 aligned_already = Some b
    /\ Baseline.fit (H := first_label) b aligned_already = Some f
    /\ forall s code,
         PyDict.get (Baseline.sound2idx f) s = Some code
         <-> PyDict.get (Baseline.idx2sound f) code = Some s.
Proof.
  eexists. eexists. split; [vm_compute; reflexivity |].
  match goal with
  | |- ?P /\ _ => assert (Hfit : P) by (vm_compute; reflexivity)
  end.
  split; [exact Hfit |].
  exact (codec_inverse_maps (H := first_label) _ aligned_already _ Hfit).
Defined.

Lemma codec_reserved_codes_witness :
  exists (b : Baseline.t (list Z)) (f : Baseline.fitted (list Z)),
    Baseline.init (H := first_label) ["A"; "B"]%string two_languages 2
      "Ø"%string "-"%string 1 aligned_already = Some b
    /\ Baseline.fit (H := first_label) b aligned_already = Some f
    /\ PyDict.get (Baseline.sound2idx f) "b"%string = Some 3%Z
    /\ ((3 = 0)%Z -> "b"%string = Baseline.missing b)
    /\ ((3 = 1)%Z -> "b"%string = Baseline.gap b)
    /\ ("b"%string <> Baseline.gap b -> "b"%string <> Baseline.missing b ->
        (2 <= 3 < 2 + Z.of_nat (length (vocabulary f)))%Z).
Proof.
  eexists. eexists. split; [vm_compute; reflexivity |].
  split; [vm_compute; reflexivity |].
  split; [vm_compute; reflexivity |].
  apply (codec_reserved_codes (H := first_label) _ aligned_already).
  - vm_compute. reflexivity.
  - vm_compute. reflexivity.
Defined.

Lemma fit_rows_and_targets_witness :
  exists (b : Baseline.t (list Z)) (f : Baseline.fitted (list Z)),
    Baseline.init (H := first_label) ["A"; "B"]%string two_languages 2
      "Ø"%string "-"%string 1 aligned_already = Some b
    /\ Baseline.fit (H := first_label) b aligned_already = Some f
    /\ In "A"%string (Baseline.languages b)
    /\ exists m y,
         PyDict.get (Baseline.matrices f) "A"%string = Some m
         /\ PyDict.get (Baseline.solutions f) "A"%string = Some y
         /\ length m = length y.
Proof.
  eexists. eexists. split; [vm_compute; reflexivity |].
  match goal with
  | |- ?P /\ _ => assert (Hfit : P) by (vm_compute; reflexivity)
  end.
  split; [exact Hfit |].
  split; [simpl; tauto |].
  apply (fit_rows_and_targets (H := first_label) _ aligned_already _ Hfit).
  simpl. tauto.
Defined.

Lemma fit_rows_width_witness :
  exists (b : Baseline.t (list Z)) (f : Baseline.fitted (list Z)),
    Baseline.init (H := first_label) ["A"; "B"]%string two_languages 2
      "Ø"%string "-"%string 1 aligned_already = Some b
    /\ cell_per_language aligned_already
    /\ Baseline.fit (H := first_label) b aligned_already = Some f
    /\ PyDict.get (Baseline.matrices f) "A"%string = Some [[3; 2]]%Z
    /\ In [3; 2]%Z [[3; 2]]%Z
    /\ length [3; 2]%Z = length (Baseline.languages b).
Proof.
  eexists. eexists. split; [vm_compute; reflexivity |].
  split; [exact aligned_already_cells |].
  match goal with
  | |- ?P /\ _ => assert (Hfit : P) by (vm_compute; reflexivity)
  end.
  split; [exact Hfit |].
  split; [vm_compute; reflexivity |].
  split; [simpl; tauto |].
  apply (fit_rows_width (H := first_label) _ aligned_already _
           aligned_already_cells Hfit "A"%string [[3; 2]]%Z).
  - vm_compute. reflexivity.
  - simpl. tauto.
Defined.

Lemma fit_rows_count_witness :
  exists (b : Baseline.t (list Z)) (f : Baseline.fitted (list Z)),
    Baseline.init (H := first_label) ["A"; "B"]%string two_languages 2
      "Ø"%string "-"%string 1 aligned_already = Some b
    /\ NoDup (Baseline.languages b)
    /\ Baseline.fit (H := first_label) b aligned_already = Some f
    /\ In "A"%string (Baseline.languages b)
    /\ exists es m,
         PyDict.get (Baseline.alignments b) "A"%string = Some es
         /\ PyDict.get (Baseline.matrices f) "A"%string = Some m
         /\ length m
            = positions aligned_already (Baseline.languages b) "A"%string es.
Proof.
  eexists. eexists. split; [vm_compute; reflexivity |].
  assert (Hnd : NoDup ["A"; "B"]%string).
  { repeat (constructor; [simpl; intuition discriminate |]). constructor. }
  split; [exact Hnd |].
  match goal with
  | |- ?P /\ _ => assert (Hfit : P) by (vm_compute; reflexivity)
  end.
  split; [exact Hfit |].
  split; [simpl; tauto |].
  refine (fit_rows_count (H := first_label) _ aligned_already _ _ Hfit
            "A"%string _); [exact Hnd | simpl; tauto].
Defined.

Lemma predict_rows_width_witness :
  exists (b : Baseline.t (list Z)) (f : Baseline.fitted (list Z)),
    Baseline.init (H := first_label) ["A"; "B"]%string two_languages 2
      "Ø"%string "-"%string 1 aligned_already = Some b
    /\ cell_per_language aligned_already
    /\ NoDup (Baseline.languages b)
    /\ Baseline.fit (H := first_label) b aligned_already = Some f
    /\ In "B"%string (Baseline.languages b)
    /\ PyDict.get (Baseline.classifiers (Baseline.self f)) "B"%string
       = Some [3]%Z
    /\ exists X,
         Baseline.predict (H := first_label) f ["A"]%string [["a"]]%string
           "B"%string "?"%string
         = Some (filter (fun x => negb (String.eqb x "-"))
                   (map (Baseline.decode f "?"%string)
                        (clf_predict (Classifier := first_label) [3]%Z X)))
         /\ Forall (fun row => S (length row) = length (Baseline.languages b)) X.
Proof.
  eexists. eexists. split; [vm_compute; reflexivity |].
  split; [exact aligned_already_cells |].
  assert (Hnd : NoDup ["A"; "B"]%string).
  { repeat (constructor; [simpl; intuition discriminate |]). constructor. }
  split; [exact Hnd |].
  match goal with
  | |- ?P /\ _ => assert (Hfit : P) by (vm_compute; reflexivity)
  end.
  split; [exact Hfit |].
  split; [simpl; tauto |].
  split; [vm_compute; reflexivity |].
  refine (predict_rows_width (H := first_label) _ aligned_already _
            ["A"]%string [["a"]]%string "B"%string "?"%string [3]%Z
            aligned_already_cells _ Hfit _ _);
    [exact Hnd | simpl; tauto | vm_compute; reflexivity].
Defined.


Lemma ungap_first_column_marked_witness :
  rectangular leading_run
  /\ merge_column leading_run (pidxs_of ["A"; "B"; "P"]%string "P"%string) 0
     = true
  /\ ungap leading_run ["A"; "B"; "P"]%string "P"%string
     = Some (map (map regap) leading_run)
  /\ (Forall (Forall (fun cell => cell <> ""%string)) leading_run ->
      ungap leading_run ["A"; "B"; "P"]%string "P"%string = Some leading_run).
Proof.
  assert (Hrect : rectangular leading_run) by (simpl; repeat constructor).
  assert (Hm : merge_column leading_run
                 (pidxs_of ["A"; "B"; "P"]%string "P"%string) 0 = true)
    by (vm_compute; reflexivity).
  split; [exact Hrect |]. split; [exact Hm |].
  apply (ungap_first_column_marked _ _ _ Hrect Hm).
Defined.


Lemma ungap_fills_empty_cells_witness :
  merge_column inner_run (pidxs_of ["A"; "B"; "P"]%string "P"%string) 1 = true
  /\ ungap inner_run ["A"; "B"; "P"]%string "P"%string
     = Some [["a"; "c"]; ["b"; "d"]; ["x.y"; "z"]]%string
  /\ Forall (Forall (fun cell => cell <> ""%string))
            [["a"; "c"]; ["b"; "d"]; ["x.y"; "z"]]%string.
Proof.
  assert (Hm : merge_column inner_run
                 (pidxs_of ["A"; "B"; "P"]%string "P"%string) 1 = true)
    by (vm_compute; reflexivity).
  assert (Hrun : ungap inner_run ["A"; "B"; "P"]%string "P"%string
                 = Some [["a"; "c"]; ["b"; "d"]; ["x.y"; "z"]]%string)
    by (vm_compute; reflexivity).
  split; [exact Hm |]. split; [exact Hrun |].
  apply (ungap_fills_empty_cells _ _ _ _ _ Hm Hrun).
Defined.

Lemma ungap_leaves_no_marked_column_witness :
  rectangular inner_run
  /\ Forall (Forall (fun cell => cell <> ""%string))
            (other_rows inner_run ["A"; "B"; "P"]%string "P"%string)
  /\ merge_column inner_run (pidxs_of ["A"; "B"; "P"]%string "P"%string) 0
     = false
  /\ exists out,
       ungap inner_run ["A"; "B"; "P"]%string "P"%string = Some out
       /\ no_merge_column out ["A"; "B"; "P"]%string "P"%string.
Proof.
  assert (Hrect : rectangular inner_run) by (simpl; repeat constructor).
  assert (Hcells : Forall (Forall (fun cell => cell <> ""%string))
                     (other_rows inner_run ["A"; "B"; "P"]%string "P"%string)).
  { unfold other_rows. simpl. repeat (constructor; try discriminate). }
  assert (Hm : merge_column inner_run
                 (pidxs_of ["A"; "B"; "P"]%string "P"%string) 0 = false)
    by (vm_compute; reflexivity).
  split; [exact Hrect |]. split; [exact Hcells |]. split; [exact Hm |].
  apply (ungap_leaves_no_marked_column _ _ _ Hrect Hcells Hm).
Defined.

Lemma ungap_joins_marked_cells_witness :
  rectangular inner_run
  /\ merge_column inner_run (pidxs_of ["A"; "B"; "P"]%string "P"%string) 0
     = false
  /\ marked_columns inner_run ["A"; "B"; "P"]%string "P"%string <> []
  /\ exists out,
       ungap inner_run ["A"; "B"; "P"]%string "P"%string = Some out
       /\ Forall2 (fun row row' =>
                     Forall (fun cell => cell <> ""%string) row ->
                     row' = merged (marked_columns inner_run
                                      ["A"; "B"; "P"]%string "P"%string) 0 row)
                  inner_run out.
Proof.
  assert (Hrect : rectangular inner_run) by (simpl; repeat constructor).
  assert (Hm : merge_column inner_run
                 (pidxs_of ["A"; "B"; "P"]%string "P"%string) 0 = false)
    by (vm_compute; reflexivity).
  assert (Hsome : marked_columns inner_run ["A"; "B"; "P"]%string "P"%string
                  <> []) by (vm_compute; discriminate).
  split; [exact Hrect |]. split; [exact Hm |]. split; [exact Hsome |].
  apply (ungap_joins_marked_cells _ _ _ Hrect Hm Hsome).
Defined.

Lemma with_placeholder_ids : NoDup (PyDict.keys with_placeholder).
Proof.
  simpl. repeat (constructor; [simpl; intuition discriminate |]). constructor.
Qed.

Lemma two_distinct : NoDup ["A"; "B"]%string.
Proof.
  repeat (constructor; [simpl; intuition discriminate |]). constructor.
Qed.

(** A negative ratio, minus one third, and a ratio that is not a number. *)
Lemma split_pools_any_ratio_witness :
  NoDup (PyDict.keys with_placeholder)
  /\ match split_off (length with_placeholder)
             (S754_finite true 6004799503160661 (-54)) with
     | Some _ =>
         exists test_ training,
           pools with_placeholder (S754_finite true 6004799503160661 (-54))
           = Some (test_, training)
           /\ (test_ ++ training)%list = ranked_items with_placeholder
           /\ Permutation (test_ ++ training) with_placeholder
     | None =>
         pools with_placeholder (S754_finite true 6004799503160661 (-54))
         = None
     end
  /\ pools with_placeholder S754_nan = None.
Proof.
  split; [exact with_placeholder_ids |]. split.
  - apply (split_pools_any_ratio with_placeholder
             (S754_finite true 6004799503160661 (-54)) with_placeholder_ids).
  - apply (split_pools_any_ratio with_placeholder S754_nan
             with_placeholder_ids).
Defined.

Lemma split_holds_nothing_out_witness :
  NoDup (PyDict.keys with_placeholder)
  /\ split_off (length with_placeholder) default_ratio = Some 0%Z
  /\ length with_placeholder < 5
  /\ split_training_test_data with_placeholder ["A"; "B"]%string default_ratio
     = Some (ranked_items with_placeholder, [], []).
Proof.
  assert (Hk : split_off (length with_placeholder) default_ratio = Some 0%Z)
    by (vm_compute; reflexivity).
  assert (Hn : length with_placeholder < 5) by (simpl; lia).
  split; [exact with_placeholder_ids |]. split; [exact Hk |].
  split; [exact Hn |].
  apply (proj1 (split_holds_nothing_out with_placeholder ["A"; "B"]%string
                  default_ratio with_placeholder_ids) Hk).
Defined.

Lemma split_raises_on_missing_language_witness :
  NoDup (PyDict.keys with_placeholder)
  /\ (split_training_test_data with_placeholder ["A"; "C"]%string half = None
      <-> split_off (length with_placeholder) half = None
          \/ exists k kv L,
               split_off (length with_placeholder) half = Some k
               /\ In kv (slice_to (ranked_items with_placeholder) k)
               /\ In L ["A"; "C"]%string /\ PyDict.get (snd kv) L = None).
Proof.
  split; [exact with_placeholder_ids |].
  apply (split_raises_on_missing_language with_placeholder ["A"; "C"]%string
           half with_placeholder_ids).
Defined.

Lemma split_test_and_solutions_ids_witness :
  exists training test_items solution_items,
    split_training_test_data with_placeholder ["A"; "B"]%string half
    = Some (training, test_items, solution_items)
    /\ PyDict.keys test_items = PyDict.keys solution_items.
Proof.
  eexists. eexists. eexists.
  match goal with
  | |- ?P /\ _ => assert (Hrun : P) by (vm_compute; reflexivity)
  end.
  split; [exact Hrun |].
  exact (split_test_and_solutions_ids _ _ _ _ _ _ Hrun).
Defined.

Lemma split_derived_items_witness :
  NoDup (PyDict.keys with_placeholder)
  /\ split_off (length with_placeholder) half = Some 2%Z
  /\ NoDup ["A"; "B"]%string
  /\ (forall kv L,
        In kv (slice_to (ranked_items with_placeholder) 2) ->
        In L ["A"; "B"]%string -> PyDict.get (snd kv) L <> None)
  /\ split_training_test_data with_placeholder ["A"; "B"]%string half
     = Some (slice_from (ranked_items with_placeholder) 2,
             derived_test (slice_to (ranked_items with_placeholder) 2)
               ["A"; "B"]%string,
             derived_solutions (slice_to (ranked_items with_placeholder) 2)
               ["A"; "B"]%string).
Proof.
  assert (Hk : split_off (length with_placeholder) half = Some 2%Z)
    by (vm_compute; reflexivity).
  assert (Hfull : forall kv L,
            In kv (slice_to (ranked_items with_placeholder) 2) ->
            In L ["A"; "B"]%string -> PyDict.get (snd kv) L <> None).
  { intros kv L Hkv HL. vm_compute in Hkv.
    destruct Hkv as [<- | [<- | []]];
      destruct HL as [<- | [<- | []]]; vm_compute; discriminate. }
  split; [exact with_placeholder_ids |]. split; [exact Hk |].
  split; [exact two_distinct |]. split; [exact Hfull |].
  apply (split_derived_items with_placeholder ["A"; "B"]%string half 2
           with_placeholder_ids Hk two_distinct Hfull).
Defined.


Lemma init_alignment_entries_witness :
  exists (b : Baseline.t (list Z)) es e,
    NoDup ["A"; "B"]%string
    /\ Baseline.init (H := first_label) ["A"; "B"]%string two_languages 2
         "Ø"%string "-"%string 1 aligned_already = Some b
    /\ PyDict.get (Baseline.alignments b) "A"%string = Some es
    /\ In e es
    /\ exists item,
         In (Baseline.cogid e, item) two_languages
         /\ attested_in item "A"%string = true
         /\ Baseline.entry_languages e
            = listed ["A"; "B"]%string item "A"%string
         /\ Baseline.alms e
            = map (fun lang => PyDict.get_default item lang [])
                  (Baseline.entry_languages e).
Proof.
  eexists. eexists. eexists.
  split; [exact two_distinct |].
  match goal with
  | |- ?P /\ _ => assert (Hinit : P) by (vm_compute; reflexivity)
  end.
  split; [exact Hinit |].
  match goal with
  | |- ?P /\ _ => assert (Hget : P) by (vm_compute; reflexivity)
  end.
  split; [exact Hget |].
  match goal with
  | |- ?P /\ _ => assert (Hin : P) by (left; reflexivity)
  end.
  split; [exact Hin |].
  exact (init_alignment_entries (H := first_label) _ _ _ _ _ _ _ _ _ _ _
           two_distinct Hinit Hget Hin).
Defined.

Lemma init_alignment_cognates_witness :
  exists (b : Baseline.t (list Z)),
    NoDup ["A"; "B"]%string /\ In "A"%string ["A"; "B"]%string
    /\ Baseline.init (H := first_label) ["A"; "B"]%string two_languages 2
         "Ø"%string "-"%string 1 aligned_already = Some b
    /\ exists es,
         PyDict.get (Baseline.alignments b) "A"%string = Some es
         /\ map Baseline.cogid es
            = map fst (filter (fun kv => attested_in (snd kv) "A"%string)
                         two_languages).
Proof.
  eexists.
  assert (HL : In "A"%string ["A"; "B"]%string) by (simpl; tauto).
  split; [exact two_distinct |]. split; [exact HL |].
  match goal with
  | |- ?P /\ _ => assert (Hinit : P) by (vm_compute; reflexivity)
  end.
  split; [exact Hinit |].
  exact (init_alignment_cognates (H := first_label) _ _ _ _ _ _ _ _ _
           two_distinct HL Hinit).
Defined.

Lemma fit_raises_on_short_row_witness :
  exists (b : Baseline.t (list Z)) es e,
    Baseline.init (H := first_label) ["A"; "B"]%string two_languages 2
      "Ø"%string "-"%string 1 aligned_already = Some b
    /\ In "A"%string (Baseline.languages b)
    /\ PyDict.get (Baseline.alignments b) "A"%string = Some es
    /\ In e es
    /\ In ["a"%string]
         ((fun _ _ _ _ => [["a"%string]])
            (Baseline.alms e) (Baseline.entry_languages e)
            (universe (Baseline.languages b) "A"%string) true)
    /\ length ["a"%string] < length (Baseline.languages b)
    /\ Baseline.fit (H := first_label) b (fun _ _ _ _ => [["a"%string]])
       = None.
Proof.
  eexists. eexists. eexists.
  split; [vm_compute; reflexivity |].
  match goal with
  | |- ?P /\ _ => assert (HL : P) by (left; reflexivity)
  end.
  split; [exact HL |].
  match goal with
  | |- ?P /\ _ => assert (Hes : P) by (vm_compute; reflexivity)
  end.
  split; [exact Hes |].
  match goal with
  | |- ?P /\ _ => assert (He : P) by (left; reflexivity)
  end.
  split; [exact He |].
  match goal with
  | |- ?P /\ _ => assert (Hrow : P) by (left; reflexivity)
  end.
  split; [exact Hrow |].
  match goal with
  | |- ?P /\ _ => assert (Hshort : P) by (simpl; lia)
  end.
  split; [exact Hshort |].
  exact (fit_raises_on_short_row (H := first_label) _
           (fun _ _ _ _ => [["a"%string]]) _ _ _ _ HL Hes He Hrow Hshort).
Defined.

Lemma load_items_witness :
  exists l,
    load_cognate_file one_token short_row_file = Some l
    /\ ld_languages l = tl (hd [] short_row_file)
    /\ ld_out l
       = PyDict.of_list
           (map (item_of_row one_token (tl (hd [] short_row_file)))
                (tl short_row_file)).
Proof.
  eexists.
  match goal with
  | |- ?P /\ _ => assert (Hrun : P) by (vm_compute; reflexivity)
  end.
  split; [exact Hrun |].
  exact (load_items one_token short_row_file _ Hrun).
Defined.

Lemma load_item_languages_witness :
  exists l,
    NoDup (tl (hd [] short_row_file))
    /\ load_cognate_file one_token short_row_file = Some l
    /\ In ("c2"%string, [("A"%string, ["a"%string])]) (ld_out l)
    /\ exists row,
         In row (tl short_row_file) /\ hd ""%string row = "c2"%string
         /\ PyDict.keys [("A"%string, ["a"%string])]
            = firstn (length (tl row)) (ld_languages l)
         /\ PyDict.values [("A"%string, ["a"%string])]
            = map one_token (firstn (length (ld_languages l)) (tl row)).
Proof.
  eexists.
  assert (Hnd : NoDup (tl (hd [] short_row_file))) by exact two_distinct.
  split; [exact Hnd |].
  match goal with
  | |- ?P /\ _ => assert (Hrun : P) by (vm_compute; reflexivity)
  end.
  split; [exact Hrun |].
  match goal with
  | |- ?P /\ _ => assert (Hin : P) by (right; left; reflexivity)
  end.
  split; [exact Hin |].
  exact (load_item_languages one_token short_row_file _ _ _ Hnd Hrun Hin).
Defined.

Lemma predict_item_target_witness :
  exists (f : Baseline.fitted (list Z)),
    run_fit ["A"; "B"]%string two_languages "Ø"%string "-"%string = Some f
    /\ (forall L, In L ["A"; "B"]%string ->
                  PyDict.get asks_for_B L <> None)
    /\ predict_item (H := first_label) f ["A"; "B"]%string []
         ("c9"%string, asks_for_B)
       = match filter (real_in asks_for_B) ["A"; "B"]%string with
         | [] => Some []
         | _ :: _ =>
             if truthy (target_of asks_for_B ["A"; "B"]%string) then
               out <- Baseline.predict (H := first_label) f
                        (filter (real_in asks_for_B) ["A"; "B"]%string)
                        (map (fun L => PyDict.get_default asks_for_B L [])
                             (filter (real_in asks_for_B) ["A"; "B"]%string))
                        (target_of asks_for_B ["A"; "B"]%string) "?" ;;
               Some (PyDict.update [] "c9"%string []
                       (fun d =>
                          PyDict.set d (target_of asks_for_B ["A"; "B"]%string)
                                     out))
             else Some []
         end.
Proof.
  eexists. split; [vm_compute; reflexivity |].
  assert (Hfull : forall L, In L ["A"; "B"]%string ->
                            PyDict.get asks_for_B L <> None).
  { intros L [<- | [<- | []]]; vm_compute; discriminate. }
  split; [exact Hfull |].
  exact (predict_item_target (H := first_label) _ ["A"; "B"]%string []
           "c9"%string asks_for_B Hfull).
Defined.

Lemma predict_item_raises_witness :
  exists (f : Baseline.fitted (list Z)),
    run_fit ["A"; "B"]%string two_languages "Ø"%string "-"%string = Some f
    /\ (exists L, In L ["A"; "B"; "C"]%string
                  /\ PyDict.get asks_for_B L = None)
    /\ predict_item (H := first_label) f ["A"; "B"; "C"]%string []
         ("c9"%string, asks_for_B) = None
    /\ filter (real_in asks_for_C) ["A"; "C"]%string <> []
    /\ target_of asks_for_C ["A"; "C"]%string <> ""%string
    /\ PyDict.get (Baseline.classifiers (Baseline.self f))
         (target_of asks_for_C ["A"; "C"]%string) = None
    /\ predict_item (H := first_label) f ["A"; "C"]%string []
         ("c9"%string, asks_for_C) = None.
Proof.
  eexists. split; [vm_compute; reflexivity |].
  assert (Hmiss : exists L, In L ["A"; "B"; "C"]%string
                            /\ PyDict.get asks_for_B L = None).
  { exists "C"%string. split; [right; right; left |]; reflexivity. }
  split; [exact Hmiss |].
  split.
  { exact (predict_item_raises (H := first_label) _ ["A"; "B"; "C"]%string []
             "c9"%string asks_for_B (or_introl Hmiss)). }
  match goal with
  | |- ?P /\ _ => assert (Hcur : P) by (vm_compute; discriminate)
  end.
  split; [exact Hcur |].
  match goal with
  | |- ?P /\ _ => assert (Htarget : P) by (vm_compute; discriminate)
  end.
  split; [exact Htarget |].
  match goal with
  | |- ?P /\ _ => assert (Hclf : P) by (vm_compute; reflexivity)
  end.
  split; [exact Hclf |].
  exact (predict_item_raises (H := first_label) _ ["A"; "C"]%string []
           "c9"%string asks_for_C
           (or_intror (conj Hcur (conj Htarget Hclf)))).
Defined.

Lemma predict_words_short_row_witness :
  NoDup (tl (hd [] short_row_file))
  /\ NoDup (map (hd ""%string) (tl short_row_file))
  /\ In ["c2"; "a"]%string (tl short_row_file)
  /\ length (tl ["c2"; "a"]%string) < length (tl (hd [] short_row_file))
  /\ predict_words (H := first_label) one_token aligned_already
       [["COGID"; "A"; "B"]; ["c1"; "a"; "b"]]%string short_row_file
     = None.
Proof.
  assert (Hnd : NoDup (tl (hd [] short_row_file))) by exact two_distinct.
  assert (Hids : NoDup (map (hd ""%string) (tl short_row_file))).
  { simpl. repeat (constructor; [simpl; intuition discriminate |]).
    constructor. }
  assert (Hrow : In ["c2"; "a"]%string (tl short_row_file))
    by (right; left; reflexivity).
  assert (Hshort : length (tl ["c2"; "a"]%string)
                   < length (tl (hd [] short_row_file))) by (simpl; lia).
  split; [exact Hnd |]. split; [exact Hids |]. split; [exact Hrow |].
  split; [exact Hshort |].
  exact (predict_words_short_row (H := first_label) one_token aligned_already
           _ short_row_file _ Hnd Hids Hrow Hshort).
Defined.
